(** * IDXV30 value index: a shallow embedding of [idx_value_30.py]

    The development follows the class [IDXVAL30] method by method.

    - A float64 is idealised as an exact rational extended with the three
      IEEE special values (no rounding error, no signed zero), so that the
      difference between numpy arithmetic (a division by zero yields
      [nan]/[inf]) and Python arithmetic (it raises [ZeroDivisionError])
      stays visible.
    - A pandas [DataFrame] is a header of numeric column names, in
      insertion order, and a list of labelled rows; the leading [ticker]
      column is a field of the row.
    - A method of the class is a function from the object state to an
      [outcome]: a new state, a raised exception, or [OutOfFuel] for the
      [while True] loop of [_get_each_weight] cut after a number of rounds.
    - [yf.Tickers] and [np.sqrt] are not part of the repository; they are
      variables of the section that holds the methods.
    - [sort_values] is a stable sort here: rows of equal key keep the order
      of the table, which pandas' default sort leaves open.
    - The two cutoff ranks of [_winsorisation] are the one place where the
      rounding of a float64 product could change an integer; for the
      default alpha they are computed a second time in binary64 and
      compared with the exact ones.

    The definitions come first, then the lemmas about them, then the claims
    of the specification (C1 to C10) and further properties of the methods
    (X1 to X21). *)

From Stdlib Require Import ZArith QArith Qround Qabs List String Ascii Bool.
From Stdlib Require Import Lia Lqa Permutation Sorted.
From Stdlib Require Import PrimFloat.
From Stdlib Require FloatOps SpecFloat Uint63.
Import ListNotations.

(* ================================================================== *)
(** * Exceptions and outcomes *)

Inductive exn : Type :=
| KeyError (key : string)
| IndexError
| ValueError
| TypeError
| ZeroDivisionError
| AttributeError (attr : string).

(** The class name of an exception and the argument it carries, as a caller
    that catches it can observe them. *)
Definition exn_class (e : exn) : string :=
  match e with
  | KeyError _ => "KeyError"
  | IndexError => "IndexError"
  | ValueError => "ValueError"
  | TypeError => "TypeError"
  | ZeroDivisionError => "ZeroDivisionError"
  | AttributeError _ => "AttributeError"
  end%string.

Definition exn_arg (e : exn) : string :=
  match e with
  | KeyError k => k
  | AttributeError a => a
  | _ => ""
  end%string.

Inductive outcome (A : Type) : Type :=
| Ret (a : A)
| Raise (e : exn)
| OutOfFuel.

Arguments Ret {A} a.
Arguments Raise {A} e.
Arguments OutOfFuel {A}.

Definition bind {A B : Type} (m : outcome A) (k : A -> outcome B) : outcome B :=
  match m with
  | Ret a => k a
  | Raise e => Raise e
  | OutOfFuel => OutOfFuel
  end.

Notation "x <- m ;; k" := (bind m (fun x => k))
  (at level 61, m at next level, right associativity).

(** [for x in l: acc = f(acc, x)], where the body may raise. *)
Fixpoint foldM {A S : Type} (f : S -> A -> outcome S) (l : list A) (s : S)
  : outcome S :=
  match l with
  | [] => Ret s
  | x :: l' => s' <- f s x ;; foldM f l' s'
  end.

Definition raises {A : Type} (m : outcome A) : Prop := exists e, m = Raise e.

(* ================================================================== *)
(** * Numbers *)

(** float64, idealised. *)
Inductive f64 : Type :=
| Fin (q : Q)
| PInf
| NInf
| NaN.

Definition Qlt_bool (a b : Q) : bool := negb (Qle_bool b a).

Definition is_nan (x : f64) : bool :=
  match x with NaN => true | _ => false end.

Definition is_finite (x : f64) : bool :=
  match x with Fin _ => true | _ => false end.

Definition fneg (x : f64) : f64 :=
  match x with
  | Fin q => Fin (- q)
  | PInf => NInf
  | NInf => PInf
  | NaN => NaN
  end.

Definition fadd (x y : f64) : f64 :=
  match x, y with
  | NaN, _ | _, NaN => NaN
  | Fin a, Fin b => Fin (a + b)
  | PInf, NInf | NInf, PInf => NaN
  | PInf, _ | _, PInf => PInf
  | NInf, _ | _, NInf => NInf
  end.

Definition fsub (x y : f64) : f64 := fadd x (fneg y).

(** The sign of a non-NaN value: -1, 0 or 1. *)
Definition fsign (x : f64) : Z :=
  match x with
  | Fin q => Z.sgn (Qnum q)
  | PInf => 1
  | NInf => (-1)
  | NaN => 0
  end.

Definition inf_of_sign (s : Z) : f64 :=
  match s with
  | Z0 => NaN
  | Zpos _ => PInf
  | Zneg _ => NInf
  end.

Definition fmul (x y : f64) : f64 :=
  match x, y with
  | NaN, _ | _, NaN => NaN
  | Fin a, Fin b => Fin (a * b)
  | _, _ => inf_of_sign (fsign x * fsign y)
  end.

(** numpy's [/]: no exception, [0/0 = nan], [x/0 = +-inf]. *)
Definition fdiv (x y : f64) : f64 :=
  match x, y with
  | NaN, _ | _, NaN => NaN
  | Fin a, Fin b =>
      if Qeq_bool b 0 then inf_of_sign (Z.sgn (Qnum a)) else Fin (a / b)
  | Fin _, _ => Fin 0
  | _, Fin b => inf_of_sign (fsign x * (if Qlt_bool b 0 then (-1) else 1))
  | _, _ => NaN
  end.

(** Python's [/] on numbers: a zero divisor raises. *)
Definition py_div (x y : f64) : outcome f64 :=
  match y with
  | Fin b => if Qeq_bool b 0 then Raise ZeroDivisionError else Ret (fdiv x y)
  | _ => Ret (fdiv x y)
  end.

(** [x > y]; any comparison with [nan] is false. *)
Definition fgt (x y : f64) : bool :=
  match x, y with
  | NaN, _ | _, NaN => false
  | Fin a, Fin b => Qlt_bool b a
  | PInf, PInf => false
  | PInf, _ => true
  | Fin _, NInf => true
  | _, _ => false
  end.

(** The order [sort_values] uses: ascending, [nan] last. *)
Definition fle_sort (x y : f64) : bool :=
  match x, y with
  | _, NaN => true
  | NaN, _ => false
  | _, _ => negb (fgt x y)
  end.

(** Round half to even, the rule of [np.round]. *)
Definition round_half_even (q : Q) : Z :=
  let f := Qfloor q in
  let r := q - inject_Z f in
  if Qlt_bool r (1 # 2) then f
  else if Qlt_bool (1 # 2) r then (f + 1)%Z
  else if Z.even f then f else (f + 1)%Z.

Definition np_round (x : f64) (d : nat) : f64 :=
  match x with
  | Fin q =>
      let s := Z.pow 10 (Z.of_nat d) in
      Fin (Qmake (round_half_even (q * inject_Z s)) (Z.to_pos s))
  | _ => x
  end.

(** [int(x)] on a float: truncation toward zero. *)
Definition py_int (q : Q) : Z := Z.quot (Qnum q) (Zpos (Qden q)).

(** [range(lo, hi)]. *)
Definition py_range (lo hi : Z) : list Z :=
  map (fun k => (lo + Z.of_nat k)%Z) (seq 0 (Z.to_nat (hi - lo))).

(** pandas reductions skip [nan] ([skipna=True]). *)
Definition series_sum (l : list f64) : f64 :=
  fold_left fadd (filter (fun x => negb (is_nan x)) l) (Fin 0).

Definition count_valid (l : list f64) : nat :=
  List.length (filter (fun x => negb (is_nan x)) l).

Definition of_nat (n : nat) : f64 := Fin (inject_Z (Z.of_nat n)).

Definition series_mean (l : list f64) : f64 :=
  fdiv (series_sum l) (of_nat (count_valid l)).

(* ================================================================== *)
(** * Lists, the way Python indexes them *)

(** A stable insertion sort: [x] goes before the first element it is
    [leb] to, so equal keys keep their order of arrival. *)
Fixpoint insert_by {A : Type} (leb : A -> A -> bool) (x : A) (l : list A)
  : list A :=
  match l with
  | [] => [x]
  | y :: l' => if leb x y then x :: y :: l' else y :: insert_by leb x l'
  end.

Fixpoint sort_by {A : Type} (leb : A -> A -> bool) (l : list A) : list A :=
  match l with
  | [] => []
  | x :: l' => insert_by leb x (sort_by leb l')
  end.

(** A position as [iloc] reads it: negative positions count from the end,
    anything outside raises. *)
Definition iloc_pos (n : nat) (i : Z) : outcome nat :=
  if ((0 <=? i) && (i <? Z.of_nat n))%Z then Ret (Z.to_nat i)
  else if ((- Z.of_nat n <=? i) && (i <? 0))%Z then Ret (Z.to_nat (Z.of_nat n + i))
  else Raise IndexError.

Fixpoint set_nth {A : Type} (k : nat) (v : A) (l : list A) : list A :=
  match l, k with
  | [], _ => []
  | _ :: l', O => v :: l'
  | x :: l', S k' => x :: set_nth k' v l'
  end.

Fixpoint index_of (s : string) (l : list string) : option nat :=
  match l with
  | [] => None
  | x :: l' => if String.eqb x s then Some O
               else option_map S (index_of s l')
  end.

Definition mem_str (s : string) (l : list string) : bool :=
  existsb (String.eqb s) l.

(** [sub in s]. *)
Definition contains (sub s : string) : bool :=
  match String.index 0 sub s with Some _ => true | None => false end.

(* ================================================================== *)
(** * Series and data frames *)

(** A float Series: values with their index labels. *)
Definition Series : Type := list (nat * f64).

Record Row : Type := mkRow {
  label : nat;
  ticker : string;
  vals : list f64
}.

Record DataFrame : Type := mkDF {
  columns : list string;
  rows : list Row
}.

Definition tickers_of (df : DataFrame) : list string := map ticker (rows df).

Definition nrows (df : DataFrame) : nat := List.length (rows df).

(** Every row carries one value per column. *)
Definition wf_df (df : DataFrame) : Prop :=
  Forall (fun r => List.length (vals r) = List.length (columns df)) (rows df).

(** [df[name]], by position. *)
Definition get_col (name : string) (df : DataFrame) : outcome (list f64) :=
  match index_of name (columns df) with
  | Some k => Ret (map (fun r => nth k (vals r) NaN) (rows df))
  | None => Raise (KeyError name)
  end.

(** [df[name]] as a Series. *)
Definition get_series (name : string) (df : DataFrame) : outcome Series :=
  match index_of name (columns df) with
  | Some k => Ret (map (fun r => (label r, nth k (vals r) NaN)) (rows df))
  | None => Raise (KeyError name)
  end.

Definition row_put (k : option nat) (v : f64) (r : Row) : Row :=
  match k with
  | Some k => mkRow (label r) (ticker r) (set_nth k v (vals r))
  | None => mkRow (label r) (ticker r) (vals r ++ [v])
  end.

(** [df[name] = values], row by row: an existing column is overwritten in
    place, a new one is appended after the others. *)
Definition set_col (name : string) (values : list f64) (df : DataFrame)
  : DataFrame :=
  let k := index_of name (columns df) in
  mkDF (match k with Some _ => columns df | None => columns df ++ [name] end)
       (map (fun rv => row_put k (snd rv) (fst rv)) (combine (rows df) values)).

Fixpoint series_find (l : nat) (s : Series) : f64 :=
  match s with
  | [] => NaN
  | (l', v) :: s' => if Nat.eqb l' l then v else series_find l s'
  end.

(** [df[name] = series]: the values are aligned on the index labels. *)
Definition set_col_aligned (name : string) (s : Series) (df : DataFrame)
  : DataFrame :=
  set_col name (map (fun r => series_find (label r) s) (rows df)) df.

(** [df.loc[lbl, name] = v] for a label the frame has; a column it does
    not have yet is created, [nan] elsewhere. *)
Definition loc_set (lbl : nat) (name : string) (v : f64) (df : DataFrame)
  : DataFrame :=
  let df' := match index_of name (columns df) with
             | Some _ => df
             | None => set_col name (repeat NaN (nrows df)) df
             end in
  let k := index_of name (columns df') in
  mkDF (columns df')
       (map (fun r => if Nat.eqb (label r) lbl then
                        match k with Some _ => row_put k v r | None => r end
                      else r) (rows df')).

(** [df.loc[mask, :]] for a mask computed from one column: a copy of the
    rows that satisfy it, labels kept. *)
Definition loc_mask (name : string) (p : f64 -> bool) (df : DataFrame)
  : outcome DataFrame :=
  match index_of name (columns df) with
  | Some k => Ret (mkDF (columns df)
                     (filter (fun r => p (nth k (vals r) NaN)) (rows df)))
  | None => Raise (KeyError name)
  end.

(** [df[df['ticker'].isin(names)]]. *)
Definition isin_tickers (names : list string) (df : DataFrame) : DataFrame :=
  mkDF (columns df) (filter (fun r => mem_str (ticker r) names) (rows df)).

(** [dropna()]: rows holding a [nan] go. *)
Definition dropna (df : DataFrame) : DataFrame :=
  mkDF (columns df)
       (filter (fun r => negb (existsb is_nan (vals r))) (rows df)).

(** [reset_index()] followed by dropping the saved [index] column. *)
Definition reset_index (df : DataFrame) : DataFrame :=
  mkDF (columns df)
       (map (fun kr => mkRow (fst kr) (ticker (snd kr)) (vals (snd kr)))
            (combine (seq 0 (nrows df)) (rows df))).

(** [df.sort_values(by=name)]: ascending, [nan] last, labels kept. *)
Definition sort_values (name : string) (df : DataFrame) : outcome DataFrame :=
  match index_of name (columns df) with
  | Some k =>
      Ret (mkDF (columns df)
             (sort_by (fun r1 r2 => fle_sort (nth k (vals r1) NaN)
                                             (nth k (vals r2) NaN))
                      (rows df)))
  | None => Raise (KeyError name)
  end.

(** [series.sort_values(ascending=False)]. *)
Definition sort_desc (s : Series) : Series :=
  sort_by (fun a b => match snd a, snd b with
                      | NaN, NaN => true
                      | NaN, _ => false
                      | _, NaN => true
                      | x, y => negb (fgt y x)
                      end) s.

(** [series.iloc[i]]. *)
Definition iloc_get (s : Series) (i : Z) : outcome f64 :=
  k <- iloc_pos (List.length s) i ;;
  Ret (snd (nth k s (O, NaN))).

(** [series.iloc[positions] = v]. *)
Definition iloc_set (positions : list Z) (v : f64) (s : Series)
  : outcome Series :=
  foldM (fun acc i =>
           k <- iloc_pos (List.length acc) i ;;
           Ret (set_nth k (fst (nth k acc (O, NaN)), v) acc))
        positions s.

(* ================================================================== *)
(** * The market-data provider *)

Inductive pyval : Type :=
| PyNone
| PyNum (x : f64).

(** [ticker.info]: a dict from field names to values. *)
Definition dict : Type := list (string * pyval).

Fixpoint dict_get (k : string) (d : dict) : outcome pyval :=
  match d with
  | [] => Raise (KeyError k)
  | (k', v) :: d' => if String.eqb k' k then Ret v else dict_get k d'
  end.

(** A [yf.Ticker]: what reading its [info] gives, a dict or an exception
    of the provider. *)
Record Ticker : Type := mkTicker { info_result : dict + exn }.

(** [ticker.info]. *)
Definition info (t : Ticker) : outcome dict :=
  match info_result t with
  | inl d => Ret d
  | inr e => Raise e
  end.

(** The object [yf.Tickers(query)] returns. *)
Record Tickers : Type := mkTickers {
  symbols : list string;
  tickers : list Ticker
}.

Definition list_get {A : Type} (l : list A) (k : nat) : outcome A :=
  match nth_error l k with
  | Some a => Ret a
  | None => Raise IndexError
  end.

(** A Python number is needed: [None] in arithmetic is a [TypeError]. *)
Definition as_num (v : pyval) : outcome f64 :=
  match v with
  | PyNum x => Ret x
  | PyNone => Raise TypeError
  end.

(* ================================================================== *)
(** * The object state *)

Record IDXVAL30 : Type := mkSelf {
  ticker_idx80 : list string;
  nticker : nat;
  factors : list string;
  col_name : list string;
  idx80_obj : option Tickers;
  selection_df : option DataFrame;
  selected_stocks : option DataFrame
}.

(** Reading an attribute that no method has set yet. *)
Definition attr {A : Type} (name : string) (o : option A) : outcome A :=
  match o with
  | Some a => Ret a
  | None => Raise (AttributeError name)
  end.

Definition with_tickers (l : list string) (self : IDXVAL30) : IDXVAL30 :=
  mkSelf l (nticker self) (factors self) (col_name self) (idx80_obj self)
         (selection_df self) (selected_stocks self).

Definition with_obj (o : Tickers) (self : IDXVAL30) : IDXVAL30 :=
  mkSelf (ticker_idx80 self) (nticker self) (factors self) (col_name self)
         (Some o) (selection_df self) (selected_stocks self).

Definition with_selection (df : DataFrame) (self : IDXVAL30) : IDXVAL30 :=
  mkSelf (ticker_idx80 self) (nticker self) (factors self) (col_name self)
         (idx80_obj self) (Some df) (selected_stocks self).

Definition with_nticker (n : nat) (self : IDXVAL30) : IDXVAL30 :=
  mkSelf (ticker_idx80 self) n (factors self) (col_name self)
         (idx80_obj self) (selection_df self) (selected_stocks self).

Definition with_selected (df : DataFrame) (self : IDXVAL30) : IDXVAL30 :=
  mkSelf (ticker_idx80 self) (nticker self) (factors self) (col_name self)
         (idx80_obj self) (selection_df self) (Some df).

(** [__init__]: [kode] is the 'Kode' column of the csv file at [path]. *)
Definition init (kode : list string) : IDXVAL30 :=
  mkSelf kode (List.length kode) ["trailingPE"; "priceToBook"]%string
         ["PE"; "PBV"]%string None None None.

Definition limit_default : Q := 15 # 100.
Definition alpha_default : Q := 5 # 100.

(** [df[['ticker', name]]]. *)
Definition project (name : string) (df : DataFrame) : outcome DataFrame :=
  match index_of name (columns df) with
  | Some k =>
      Ret (mkDF [name]
             (map (fun r => mkRow (label r) (ticker r) [nth k (vals r) NaN])
                  (rows df)))
  | None => Raise (KeyError name)
  end.

(** [row[-1]] for a row that [iterrows] yields: the value of the last
    column. With no numeric column at all it is the ticker string, which the
    arithmetic that follows rejects. *)
Definition row_last (r : Row) : outcome f64 :=
  match rev (vals r) with
  | v :: _ => Ret v
  | [] => Raise TypeError
  end.

(* ================================================================== *)
(** * The methods of [IDXVAL30] *)

Section Methods.

(** [yf.Tickers]: from the query string to the provider's answer. *)
Variable yf_Tickers : string -> Tickers.

(** The square root [np.std] takes, on non-negative rationals. *)
Variable np_sqrt : Q -> Q.

Definition fsqrt (x : f64) : f64 :=
  match x with
  | Fin q => if Qlt_bool q 0 then NaN else Fin (np_sqrt q)
  | PInf => PInf
  | _ => NaN
  end.

(** [np.std(series)]: the population standard deviation ([ddof=0]). *)
Definition series_std (l : list f64) : f64 :=
  let m := series_mean l in
  fsqrt (fdiv (series_sum (map (fun x => fmul (fsub x m) (fsub x m)) l))
              (of_nat (count_valid l))).

(** Adjust the ticker name by adding .JK. (The dict [dic_idx80] the method
    also builds is read nowhere.) *)
Definition _adjust_ticker (self : IDXVAL30) : outcome IDXVAL30 :=
  if Nat.leb (nticker self) (List.length (ticker_idx80 self)) then
    Ret (with_tickers
           (map (fun t => (t ++ ".JK")%string)
                (firstn (nticker self) (ticker_idx80 self))
            ++ skipn (nticker self) (ticker_idx80 self)) self)
  else Raise IndexError.

(** Query the tickers on yfinance. *)
Definition _query_data (self : IDXVAL30) : outcome IDXVAL30 :=
  let query := String.concat " " (ticker_idx80 self) in
  Ret (with_obj (yf_Tickers query) self).

(** The right-hand side inside the [try] of [_generate_df_factors]. *)
Definition fetch_factor (self : IDXVAL30) (each_ticker : nat)
  (factor_selected : string) : outcome pyval :=
  obj <- attr "idx80_obj" (idx80_obj self) ;;
  t <- list_get (tickers obj) each_ticker ;;
  d <- info t ;;
  dict_get factor_selected d.

(** What lands in the cell: the value, or [nan] after [None] or after the
    bare [except]. *)
Definition factor_cell (self : IDXVAL30) (each_ticker : nat)
  (factor_selected : string) : f64 :=
  match fetch_factor self each_ticker factor_selected with
  | Ret (PyNum x) => x
  | _ => NaN
  end.

(** Take the relevant factors from the queried ticker object. *)
Definition _generate_df_factors (self : IDXVAL30) : outcome IDXVAL30 :=
  if negb (Nat.eqb (nticker self) (List.length (ticker_idx80 self)))
  then Raise ValueError else
  let df0 :=
    mkDF ["PE"; "PBV"]%string
         (map (fun kt => mkRow (fst kt) (snd kt) [Fin 0; Fin 0])
              (combine (seq 0 (nticker self)) (ticker_idx80 self))) in
  let df1 :=
    fold_left
      (fun df each_ticker =>
         fold_left
           (fun df fc =>
              loc_set each_ticker (snd fc)
                      (factor_cell self each_ticker (fst fc)) df)
           (combine (factors self) (col_name self)) df)
      (seq 0 (nticker self)) df0 in
  let df2 := reset_index (dropna df1) in
  Ret (with_nticker (nrows df2) (with_selection df2 self)).

(** The body of the [for] of [_winsorisation], for one factor. *)
Definition winsorise_factor (lb ub : Z) (self : IDXVAL30) (factor : string)
  : outcome IDXVAL30 :=
  df <- attr "selection_df" (selection_df self) ;;
  win_factor <- get_series factor df ;;
  let win_factor := sort_desc win_factor in
  v3 <- iloc_get win_factor 3 ;;
  win_factor <- iloc_set (py_range 0 lb) v3 win_factor ;;
  vub <- iloc_get win_factor ub ;;
  win_factor <- iloc_set (py_range ub (Z.of_nat (nticker self))) vub
                         win_factor ;;
  Ret (with_selection (set_col_aligned (factor ++ "_wins") win_factor df) self).

(** Adjust for outliers based on quantile spread. *)
Definition _winsorisation (alpha : Q) (self : IDXVAL30) : outcome IDXVAL30 :=
  let n := inject_Z (Z.of_nat (nticker self)) in
  let lb := py_int (alpha * n) in
  let ub := py_int ((1 - alpha) * n) in
  foldM (winsorise_factor lb ub) (col_name self) self.

(** The body of the [for] of [_zscore], for one factor. *)
Definition zscore_factor (self : IDXVAL30) (i : string) : outcome IDXVAL30 :=
  df <- attr "selection_df" (selection_df self) ;;
  w <- get_col (i ++ "_wins") df ;;
  let mean := series_mean w in
  let std := series_std w in
  Ret (with_selection
         (set_col (i ++ "_zscore") (map (fun x => fdiv (fsub x mean) std) w) df)
         self).

(** Get the z-score for each factor so that they are comparable. *)
Definition _zscore (self : IDXVAL30) : outcome IDXVAL30 :=
  self <- _winsorisation alpha_default self ;;
  foldM zscore_factor (col_name self) self.

(** The body of the [for] of [_agg_zscore]:
    [df['agg_score'] += df[i]]. *)
Definition add_score (df : DataFrame) (i : string) : outcome DataFrame :=
  agg <- get_col "agg_score" df ;;
  z <- get_col i df ;;
  Ret (set_col "agg_score"
               (map (fun az => fadd (fst az) (snd az)) (combine agg z)) df).

(** Aggregate the score. *)
Definition _agg_zscore (self : IDXVAL30) : outcome IDXVAL30 :=
  self <- _zscore self ;;
  df <- attr "selection_df" (selection_df self) ;;
  let wins_col := filter (contains "_zscore") (columns df) in
  if negb (Nat.eqb (nticker self) (nrows df)) then Raise ValueError else
  let df := set_col "agg_score" (repeat (Fin 0) (nticker self)) df in
  df <- foldM add_score wins_col df ;;
  agg <- get_col "agg_score" df ;;
  Ret (with_selection
         (set_col "agg_score"
                  (map (fun a => fdiv a (of_nat (List.length wins_col))) agg)
                  df) self).

(** Get top 30 stocks. The slice is [[:30]] whatever [nstocks] is. *)
Definition _select_stocks (nstocks : nat) (self : IDXVAL30)
  : outcome IDXVAL30 :=
  df <- attr "selection_df" (selection_df self) ;;
  sorted <- sort_values "agg_score" df ;;
  let top := mkDF (columns sorted) (firstn 30 (rows sorted)) in
  Ret (with_selected (reset_index top) self).

(** Get the weight of each company. *)
Definition _weight (t : Ticker) : outcome f64 :=
  d <- info t ;;
  market_cap <- dict_get "marketCap" d ;;
  d <- info t ;;
  float_shares <- dict_get "floatShares" d ;;
  d <- info t ;;
  shares_outstanding <- dict_get "sharesOutstanding" d ;;
  a <- as_num float_shares ;;
  b <- as_num shares_outstanding ;;
  ff_ratio <- py_div a b ;;
  m <- as_num market_cap ;;
  Ret (fmul m ff_ratio).

(** [list(set(all) - set(over))]: the tickers that are not over weight. *)
Definition non_over_tickers (df over : DataFrame) : list string :=
  filter (fun t => negb (mem_str t (tickers_of over))) (tickers_of df).

(** Adjust the overweight stocks. *)
Definition _limit_cap (over_weight_stocks non_over_weight_stock : DataFrame)
  (limit_weight : Q) (self : IDXVAL30) : outcome IDXVAL30 :=
  let n_over := nrows over_weight_stocks in
  let nl := fmul (of_nat n_over) (Fin limit_weight) in
  adjust_rate <- py_div nl (fsub (Fin 1) nl) ;;
  under <- get_col "adj_mc" non_over_weight_stock ;;
  let mc_s := fmul (series_sum under) adjust_rate in
  df <- attr "selected_stocks" (selected_stocks self) ;;
  df <- foldM
          (fun df r =>
             mc_s <- row_last r ;;
             share <- py_div (Fin 1) (of_nat n_over) ;;
             let new_mc := fmul share mc_s in
             Ret (loc_set (label r) "adj_mc" new_mc df))
          (rows over_weight_stocks) df ;;
  adj <- get_col "adj_mc" df ;;
  let tot_adj_mc := series_sum adj in
  Ret (with_selected
         (set_col "adj_mc_weight"
                  (map (fun a => np_round (fdiv a tot_adj_mc) 3) adj) df)
         self).

(** The rows over the limit in column [name], and the frame of the others:
    [over_weight_stocks] and [non_over_weight_stock]. *)
Definition split_over (name : string) (limit_weight : Q) (df : DataFrame)
  : outcome (DataFrame * DataFrame) :=
  over <- loc_mask name (fun x => fgt x (Fin limit_weight)) df ;;
  Ret (over, isin_tickers (non_over_tickers df over) df).

(** One round of the [while True] of [_get_each_weight]: the new state, and
    the next pair of frames unless the round ends in [break]. *)
Definition capping_round (limit_weight : Q)
  (over_weight_stocks non_over_weight_stock : DataFrame) (self : IDXVAL30)
  : outcome (IDXVAL30 * option (DataFrame * DataFrame)) :=
  self <- _limit_cap over_weight_stocks non_over_weight_stock
                     limit_default self ;;
  df <- attr "selected_stocks" (selected_stocks self) ;;
  w <- get_col "adj_mc_weight" df ;;
  if negb (existsb (fun x => fgt x (Fin limit_weight)) w) then Ret (self, None)
  else
    next <- split_over "adj_mc_weight" limit_weight df ;;
    Ret (self, Some next).

(** The loop itself, at most [fuel] rounds. *)
Fixpoint capping_loop (fuel : nat) (limit_weight : Q)
  (over_weight_stocks non_over_weight_stock : DataFrame) (self : IDXVAL30)
  : outcome IDXVAL30 :=
  match fuel with
  | O => OutOfFuel
  | S fuel' =>
      r <- capping_round limit_weight over_weight_stocks
                         non_over_weight_stock self ;;
      match snd r with
      | None => Ret (fst r)
      | Some (over, non_over) =>
          capping_loop fuel' limit_weight over non_over (fst r)
      end
  end.

(** The body of the [for] of [_get_each_weight]: the free-float market cap
    of one selected ticker. *)
Definition fetch_mc (obj : Tickers) (each_ticker : string) : outcome f64 :=
  index_ticker <- match index_of each_ticker (symbols obj) with
                  | Some k => Ret k
                  | None => Raise ValueError
                  end ;;
  t <- list_get (tickers obj) index_ticker ;;
  _weight t.

(** [_get_each_weight] up to the test on the raw weights: the columns [mc]
    and [mc_weight]. *)
Definition raw_weights (self : IDXVAL30) : outcome DataFrame :=
  obj <- attr "idx80_obj" (idx80_obj self) ;;
  df <- attr "selected_stocks" (selected_stocks self) ;;
  let df := set_col "mc" (repeat (Fin 0) (nrows df)) df in
  df <- foldM
          (fun df it =>
             mc_i <- fetch_mc obj (snd it) ;;
             Ret (loc_set (fst it) "mc" mc_i df))
          (combine (seq 0 (nrows df)) (tickers_of df)) df ;;
  mc <- get_col "mc" df ;;
  let tot_mc := series_sum mc in
  Ret (set_col "mc_weight" (map (fun m => np_round (fdiv m tot_mc) 2) mc) df).

(** Calculate the weights for each stock. *)
Definition _get_each_weight (fuel : nat) (limit_weight : Q) (self : IDXVAL30)
  : outcome IDXVAL30 :=
  df <- raw_weights self ;;
  w <- get_col "mc_weight" df ;;
  if existsb (fun x => fgt x (Fin limit_weight)) w then
    mc <- get_col "mc" df ;;
    let df := set_col "adj_mc" mc df in
    next <- split_over "mc_weight" limit_weight df ;;
    capping_loop fuel limit_weight (fst next) (snd next)
                 (with_selected df self)
  else Ret (with_selected df self).

(** Run the stock picking algorithm. *)
Definition generate_index (fuel : nat) (self : IDXVAL30) : outcome DataFrame :=
  self <- _adjust_ticker self ;;
  self <- _query_data self ;;
  self <- _generate_df_factors self ;;
  self <- _agg_zscore self ;;
  self <- _select_stocks 30 self ;;
  self <- _get_each_weight fuel limit_default self ;;
  df <- attr "selected_stocks" (selected_stocks self) ;;
  df_index <- project "adj_mc_weight" df ;;
  Ret (mkDF ["weight"%string] (rows df_index)).

End Methods.

(* ================================================================== *)
(** * A provider and a square root to run the methods on *)

(** The symbols of a query string, separated by single spaces. *)
Fixpoint split_spaces (cur : string) (s : string) : list string :=
  match s with
  | EmptyString => [cur]
  | String c s' =>
      if Ascii.eqb c " "%char then cur :: split_spaces EmptyString s'
      else split_spaces (cur ++ String c EmptyString)%string s'
  end.

Fixpoint table_find (sym : string) (table : list (string * dict))
  : dict + exn :=
  match table with
  | [] => inr (KeyError sym)
  | (s, d) :: table' => if String.eqb s sym then inl d else table_find sym table'
  end.

(** A provider that answers from a fixed table; a symbol it does not know
    fails when its [info] is read. *)
Definition table_provider (table : list (string * dict)) (query : string)
  : Tickers :=
  let syms := split_spaces EmptyString query in
  mkTickers syms (map (fun s => mkTicker (table_find s table)) syms).

(** The integer square root, to nine decimals. *)
Definition sqrt9 (q : Q) : Q :=
  Qmake (Z.sqrt (Qnum q * 10 ^ 18 / Zpos (Qden q))) (10 ^ 9).

Definition num (q : Q) : pyval := PyNum (Fin q).

(** The [info] of a stock with both factors and the three market-cap
    fields; [fmc = mcap * fl / so]. *)
Definition stock (pe pbv mcap fl so : Q) : dict :=
  [("trailingPE", num pe); ("priceToBook", num pbv); ("marketCap", num mcap);
   ("floatShares", num fl); ("sharesOutstanding", num so)]%string.

(* ================================================================== *)
(** * Prefixes of [generate_index] and traces of the capping loop *)

Section Prefixes.

Variable yf_Tickers : string -> Tickers.
Variable np_sqrt : Q -> Q.

(** [generate_index] up to and including [_generate_df_factors]. *)
Definition stages_1_3 (self : IDXVAL30) : outcome IDXVAL30 :=
  self <- _adjust_ticker self ;;
  self <- _query_data yf_Tickers self ;;
  _generate_df_factors self.

(** [generate_index] up to and including [_select_stocks]. *)
Definition stages_1_5 (self : IDXVAL30) : outcome IDXVAL30 :=
  self <- _adjust_ticker self ;;
  self <- _query_data yf_Tickers self ;;
  self <- _generate_df_factors self ;;
  self <- _agg_zscore np_sqrt self ;;
  _select_stocks 30 self.

End Prefixes.

(** The state in which [_get_each_weight] enters its loop, with the first
    pair of frames. *)
Definition loop_entry (limit_weight : Q) (self : IDXVAL30)
  : outcome (IDXVAL30 * (DataFrame * DataFrame)) :=
  df <- raw_weights self ;;
  mc <- get_col "mc" df ;;
  let df := set_col "adj_mc" mc df in
  next <- split_over "mc_weight" limit_weight df ;;
  Ret (with_selected df self, next).

(** The first [k] rounds of the loop; a [break] ends the trace. *)
Fixpoint rounds (k : nat) (limit_weight : Q) (over non_over : DataFrame)
  (self : IDXVAL30) : outcome (IDXVAL30 * option (DataFrame * DataFrame)) :=
  match k with
  | O => Ret (self, Some (over, non_over))
  | S k' =>
      r <- capping_round limit_weight over non_over self ;;
      match snd r with
      | None => Ret r
      | Some (over', non_over') => rounds k' limit_weight over' non_over' (fst r)
      end
  end.

(** The column [name] of the selected stocks of a state. *)
Definition selected_col (name : string) (self : IDXVAL30) : outcome (list f64) :=
  df <- attr "selected_stocks" (selected_stocks self) ;;
  get_col name df.

Definition selection_col (name : string) (self : IDXVAL30) : outcome (list f64) :=
  df <- attr "selection_df" (selection_df self) ;;
  get_col name df.

(** The largest of a list of finite values ([0] for none). *)
Definition fmax (l : list f64) : Q :=
  fold_right (fun x m => match x with
                        | Fin q => if Qlt_bool m q then q else m
                        | _ => m
                        end) 0 l.

(* ================================================================== *)
(** * Universes to run the pipeline on *)

(** Ticker number [k], as the csv file has it: T00, T01, ... *)
Definition tname (k : nat) : string :=
  String "T" (String (ascii_of_nat (48 + k / 10))
                     (String (ascii_of_nat (48 + k mod 10)) EmptyString)).

Definition qn (k : nat) : Q := inject_Z (Z.of_nat k).

(** A universe is a list of numbered stocks with what the provider knows
    about each. *)
Definition universe (w : list (nat * dict)) : IDXVAL30 :=
  init (map (fun kd => tname (fst kd)) w).

Definition provider (w : list (nat * dict)) : string -> Tickers :=
  table_provider (map (fun kd => ((tname (fst kd) ++ ".JK")%string, snd kd)) w).

(** [n] stocks with increasing factors; [fmc k] is the free-float market
    cap of stock [k]. *)
Definition plain_universe (n : nat) (fmc : nat -> Q) : list (nat * dict) :=
  map (fun k => (k, stock (qn (10 + k)) (qn (1 + k)) (fmc k) 1 1)) (seq 0 n).

(** Ten stocks of equal size: every raw weight is 0.10. *)
Definition w_equal10 : list (nat * dict) := plain_universe 10 (fun _ => 1).

(** Seven stocks, the first three times the size of each other one. *)
Definition w_skewed7 : list (nat * dict) :=
  plain_universe 7 (fun k => if Nat.eqb k 0 then 3 else 1).

(** Three stocks. *)
Definition w_three : list (nat * dict) := plain_universe 3 (fun _ => 1).

(** Five stocks. *)
Definition w_five : list (nat * dict) := plain_universe 5 (fun _ => 1).

(** Thirty stocks: two of size 1129 and twenty-eight of size 100. *)
Definition w_thirty : list (nat * dict) :=
  plain_universe 30 (fun k => if Nat.ltb k 2 then 1129 else 100).

(** Eighty stocks with all factors present: PE falls from 80 to 1 and PBV
    rises from 1 to 80 along the file. *)
Definition w_eighty : list (nat * dict) :=
  map (fun k => (k, stock (qn (80 - k)) (qn (1 + k)) 1 1 1)) (seq 0 80).

(** Ten stocks of equal size; the provider has no [marketCap] for T04. *)
Definition w_no_cap : list (nat * dict) :=
  map (fun k =>
         (k, if Nat.eqb k 4 then
               [("trailingPE", num 14); ("priceToBook", num 5);
                ("floatShares", num 1); ("sharesOutstanding", num 1)]%string
             else stock (qn (10 + k)) (qn (1 + k)) 1 1 1))
      (seq 0 10).

(** Ten stocks, the first two twice the size of each other one; the
    provider has no [priceToBook] for T02 and [None] as the [trailingPE] of
    T04. *)
Definition w_gaps : list (nat * dict) :=
  map (fun k =>
         (k, if Nat.eqb k 2 then
               [("trailingPE", num 12); ("marketCap", num 1);
                ("floatShares", num 1); ("sharesOutstanding", num 1)]%string
             else if Nat.eqb k 4 then
               [("trailingPE", PyNone); ("priceToBook", num 5);
                ("marketCap", num 1); ("floatShares", num 1);
                ("sharesOutstanding", num 1)]%string
             else stock (qn (10 + k)) (qn (1 + k))
                        (if Nat.ltb k 2 then 2 else 1) 1 1))
      (seq 0 10).

(** The state of a universe after [_adjust_ticker] and [_query_data]. *)
Definition queried (w : list (nat * dict)) : IDXVAL30 :=
  let names := map (fun kd => (tname (fst kd) ++ ".JK")%string) w in
  with_obj (provider w (String.concat " " names))
           (with_tickers names (universe w)).

(** Whether some rounded raw weight exceeds the limit: the test that guards
    the capping loop. *)
Definition over_cap (limit_weight : Q) (self : IDXVAL30) : outcome bool :=
  df <- raw_weights self ;;
  w <- get_col "mc_weight" df ;;
  Ret (existsb (fun x => fgt x (Fin limit_weight)) w).

(** The loop entry of the weighting stage for a universe. *)
Definition entry_of (w : list (nat * dict))
  : outcome (IDXVAL30 * (DataFrame * DataFrame)) :=
  s <- stages_1_5 (provider w) sqrt9 (universe w) ;;
  loop_entry limit_default s.

(** The state after [k] rounds of the loop for a universe. *)
Definition trace_of (w : list (nat * dict)) (k : nat)
  : outcome (IDXVAL30 * option (DataFrame * DataFrame)) :=
  e <- entry_of w ;;
  rounds k limit_default (fst (snd e)) (snd (snd e)) (fst e).

(** The largest adjusted weight after [k] rounds. *)
Definition max_weight_after (w : list (nat * dict)) (k : nat) : outcome Q :=
  r <- trace_of w k ;;
  ws <- selected_col "adj_mc_weight" (fst r) ;;
  Ret (fmax ws).

(** Whether a trace is still inside the loop. *)
Definition running {A B : Type} (o : outcome (A * option B)) : bool :=
  match o with Ret (_, Some _) => true | _ => false end.

(** Whether the weighting stage of a universe enters the loop. *)
Definition enters (w : list (nat * dict)) : outcome bool :=
  s <- stages_1_5 (provider w) sqrt9 (universe w) ;;
  over_cap limit_default s.

(** The tickers that are over the limit after [k] rounds, and the columns
    [adj_mc] and [adj_mc_weight] at that point. *)
Definition snapshot (w : list (nat * dict)) (k : nat)
  : outcome (list string * list f64 * list f64) :=
  r <- trace_of w k ;;
  a <- selected_col "adj_mc" (fst r) ;;
  ws <- selected_col "adj_mc_weight" (fst r) ;;
  Ret (match snd r with Some on => tickers_of (fst on) | None => [] end, a, ws).

(** The rounded raw weights of a universe. *)
Definition raw_weights_of (w : list (nat * dict)) : outcome (list f64) :=
  s <- stages_1_5 (provider w) sqrt9 (universe w) ;;
  df <- raw_weights s ;;
  get_col "mc_weight" df.

(** The values of a factor of a universe from the largest down, as
    [_winsorisation] ranks them. *)
Definition ranked (w : list (nat * dict)) (factor : string)
  : outcome (list f64) :=
  s <- stages_1_3 (provider w) (universe w) ;;
  df <- attr "selection_df" (selection_df s) ;;
  ser <- get_series factor df ;;
  Ret (map snd (sort_desc ser)).

(** The winsorised column of a factor of a universe. *)
Definition winsorised (w : list (nat * dict)) (factor : string)
  : outcome (list f64) :=
  s <- stages_1_3 (provider w) (universe w) ;;
  s <- _winsorisation alpha_default s ;;
  selection_col (factor ++ "_wins") s.

(** The tickers [_select_stocks nstocks] keeps for a universe. *)
Definition selected_of (w : list (nat * dict)) (nstocks : nat)
  : outcome (list string) :=
  s <- stages_1_3 (provider w) (universe w) ;;
  s <- _agg_zscore sqrt9 s ;;
  s <- _select_stocks nstocks s ;;
  df <- attr "selected_stocks" (selected_stocks s) ;;
  Ret (tickers_of df).

(** The weights of an index and their sum. *)
Definition weights_of (o : outcome DataFrame) : outcome (list f64) :=
  df <- o ;; get_col "weight" df.

Definition sum_of (o : outcome (list f64)) : Q :=
  match o with
  | Ret ws => match series_sum ws with Fin q => q | _ => 0 end
  | _ => 0
  end.

(** The tickers of the factor table and of the selected set of a state. *)
Definition selection_tickers (self : IDXVAL30) : list string :=
  match selection_df self with
  | Some df => tickers_of df
  | None => []
  end.

Definition selected_tickers (self : IDXVAL30) : list string :=
  match selected_stocks self with
  | Some df => tickers_of df
  | None => []
  end.

(** The provider does not supply a factor of the ticker at position [k]:
    the lookup raises (no such ticker, [info] fails, the field is absent) or
    the field is [None]. *)
Definition not_supplied (self : IDXVAL30) (k : nat) (factor : string) : Prop :=
  (exists e, fetch_factor self k factor = Raise e) \/
  fetch_factor self k factor = Ret PyNone.

(** Both factors of the ticker at position [k] made it into the table. *)
Definition has_factors (self : IDXVAL30) (k : nat) : bool :=
  forallb (fun f => negb (is_nan (factor_cell self k f))) (factors self).

(** The tickers with all their factors, in the order of the file. *)
Definition survivors (self : IDXVAL30) : list string :=
  map snd (filter (fun kt => has_factors self (fst kt))
                  (combine (seq 0 (nticker self)) (ticker_idx80 self))).

(** The table [_generate_df_factors] fills, before [dropna]. *)
Definition filled_rows (self : IDXVAL30) : list Row :=
  map (fun kt => mkRow (fst kt) (snd kt)
                       (map (factor_cell self (fst kt)) (factors self)))
      (combine (seq 0 (nticker self)) (ticker_idx80 self)).

(** The three fields [_weight] reads. *)
Definition cap_fields : list string :=
  ["marketCap"; "floatShares"; "sharesOutstanding"]%string.

(** The provider cannot supply the market-cap data of ticker [t]: reading
    its [info] raises, or one of the three fields is absent or [None]. *)
Definition cap_data_missing (obj : Tickers) (t : string) : Prop :=
  exists k tk,
    index_of t (symbols obj) = Some k /\
    nth_error (tickers obj) k = Some tk /\
    ((exists e, info tk = Raise e) \/
     exists d f,
       info tk = Ret d /\ In f cap_fields /\
       (dict_get f d = Raise (KeyError f) \/ dict_get f d = Ret PyNone)).

(** The state of a universe after [_select_stocks], with the provider's
    answer and the selected set it holds. *)
Definition selected_state (w : list (nat * dict)) : IDXVAL30 :=
  match stages_1_5 (provider w) sqrt9 (universe w) with
  | Ret s => s
  | _ => universe w
  end.

Definition answer_of (w : list (nat * dict)) : Tickers :=
  match idx80_obj (selected_state w) with
  | Some obj => obj
  | None => mkTickers [] []
  end.

Definition selected_of_state (w : list (nat * dict)) : DataFrame :=
  match selected_stocks (selected_state w) with
  | Some df => df
  | None => mkDF [] []
  end.

(** Not a finite number: [nan] or an infinity. *)
Definition non_finite (x : f64) : Prop := is_finite x = false.

(** A computed standard deviation that is zero. *)
Definition is_zero (x : f64) : Prop :=
  match x with
  | Fin q => q == 0
  | _ => False
  end.

(** Five stocks with one and the same price-to-book ratio. *)
Definition w_flat_pbv : list (nat * dict) :=
  map (fun k => (k, stock (qn (10 + k)) 2 1 1 1)) (seq 0 5).

(** The state of a universe after [_generate_df_factors], and after
    [_winsorisation] on top of it. *)
Definition factor_state (w : list (nat * dict)) : IDXVAL30 :=
  match stages_1_3 (provider w) (universe w) with
  | Ret s => s
  | _ => universe w
  end.

Definition winsorised_state (w : list (nat * dict)) : IDXVAL30 :=
  match _winsorisation alpha_default (factor_state w) with
  | Ret s => s
  | _ => universe w
  end.

(** A finite value that is not negative, and one that is positive. *)
Definition nonneg (x : f64) : Prop :=
  match x with
  | Fin q => 0 <= q
  | _ => False
  end.

Definition positive (x : f64) : Prop :=
  match x with
  | Fin q => 0 < q
  | _ => False
  end.

(** The rational a finite value stands for. *)
Definition qval (x : f64) : Q :=
  match x with
  | Fin q => q
  | _ => 0
  end.

Definition qsum (l : list Q) : Q := fold_right Qplus 0 l.

(** The bound on the sum of [n] numbers rounded to three decimals. *)
Definition rounding_slack (n : nat) : Q := inject_Z (Z.of_nat n) * (1 # 2000).

(** The column [adj_mc_weight] is not there yet, or it is the last one: in
    both cases it is the last one once [_limit_cap] has assigned it. *)
Definition weight_col_last (cols : list string) : Prop :=
  index_of "adj_mc_weight" cols = None \/
  index_of "adj_mc_weight" cols = Some (List.length cols - 1)%nat.

(** What holds of the selected stocks and of the frame of over-weight
    stocks whenever a round of the loop starts: the adjusted market caps are
    finite and not negative; some stock is over the limit; every such stock
    is a row of the selected stocks, and the value the round reads as
    [rows[-1]] is positive. *)
Definition capping_inv (df over : DataFrame) : Prop :=
  wf_df df /\
  (exists adj, get_col "adj_mc" df = Ret adj /\ Forall nonneg adj) /\
  weight_col_last (columns df) /\
  rows over <> [] /\
  Forall (fun r => In (label r) (map label (rows df)) /\
                   exists v, row_last r = Ret v /\ positive v)
         (rows over).

(** What the weighting stage promises of the [n] weights it emits: they are
    finite and not negative, none is over the limit, and their sum is within
    the rounding slack of 1. *)
Definition capped_weights (limit_weight : Q) (n : nat) (ws : list f64) : Prop :=
  List.length ws = n /\
  Forall (fun w => nonneg w /\ qval w <= limit_weight) ws /\
  exists q, series_sum ws = Fin q /\ Qabs (q - 1) <= rounding_slack n.

(** The four columns the weighting stage creates. *)
Definition weight_columns : list string :=
  ["mc"; "mc_weight"; "adj_mc"; "adj_mc_weight"]%string.

(** A frame that has none of them yet, as [_select_stocks] leaves it. *)
Definition fresh_for_weights (df : DataFrame) : Prop :=
  forall c, In c weight_columns -> index_of c (columns df) = None.

(** The state of a universe after [_get_each_weight] with [fuel] rounds at
    most. *)
Definition weighted_state (w : list (nat * dict)) (fuel : nat) : IDXVAL30 :=
  match _get_each_weight fuel limit_default (selected_state w) with
  | Ret s => s
  | _ => selected_state w
  end.

(** Two scores that [sort_values] does not tell apart. *)
Definition same_score (x y : f64) : bool := fle_sort x y && fle_sort y x.

(** The composite score of a row, given the position of the column. *)
Definition score_at (k : nat) (r : Row) : f64 := nth k (vals r) NaN.

(** A ticker with no blank in it. *)
Fixpoint no_space (s : string) : bool :=
  match s with
  | EmptyString => true
  | String c s' => negb (Ascii.eqb c " "%char) && no_space s'
  end.

(** The ticker names [_adjust_ticker] makes of the codes of the file. *)
Definition jk (kode : list string) : list string :=
  map (fun t => (t ++ ".JK")%string) kode.

(** The state of a fresh object after [_adjust_ticker] and [_query_data]. *)
Definition after_query (yf : string -> Tickers) (kode : list string)
  : IDXVAL30 :=
  with_obj (yf (String.concat " " (jk kode)))
           (with_tickers (jk kode) (init kode)).

(** The table [_generate_df_factors] leaves in [selection_df]. *)
Definition factor_table (yf : string -> Tickers) (kode : list string)
  : DataFrame :=
  reset_index (dropna (mkDF ["PE"; "PBV"]%string
                            (filled_rows (after_query yf kode)))).

(** No cell of the row is [nan]. *)
Definition complete (r : Row) : bool := negb (existsb is_nan (vals r)).

(** The ticker and the values of a row, without its label. *)
Definition content (r : Row) : string * list f64 := (ticker r, vals r).

(** What [_winsorisation] makes of a column ranked from the largest value
    down: the ranks below [lb] get the value at rank 3, the ranks from [ub]
    on the value at rank [ub], the ranks in between keep their value; the
    index labels stay where they are. *)
Definition winsorised_as (lb ub : nat) (ranked wins : Series) : Prop :=
  map fst wins = map fst ranked /\
  forall k, (k < List.length ranked)%nat ->
    snd (nth k wins (O, NaN))
    = if Nat.ltb k lb then snd (nth 3 ranked (O, NaN))
      else if Nat.ltb k ub then snd (nth k ranked (O, NaN))
      else snd (nth ub ranked (O, NaN)).

(** The two cutoff ranks [_winsorisation] computes for [n] rows when it is
    called as [_zscore] calls it, with the default alpha of 0.05:
    [int(0.05 * n)] and [int(0.95 * n)]. *)
Definition lower_rank (n : nat) : nat :=
  Z.to_nat (py_int (alpha_default * inject_Z (Z.of_nat n))).

Definition upper_rank (n : nat) : nat :=
  Z.to_nat (py_int ((1 - alpha_default) * inject_Z (Z.of_nat n))).

(** No two values of the column are equal: the ranking of the column is
    then the same for every sort, however it orders equal values. *)
Fixpoint no_ties (l : list f64) : bool :=
  match l with
  | [] => true
  | x :: l' => forallb (fun y => fgt x y || fgt y x) l' && no_ties l'
  end.

(** An entry of a Series whose value is above that of another. *)
Definition above (a b : nat * f64) : bool := fgt (snd a) (snd b).

(** Whether a dict lacks a field, and the first field it lacks among the
    three [_weight] reads, in the order in which it reads them. *)
Definition absent (f : string) (d : dict) : bool :=
  match dict_get f d with
  | Ret _ => false
  | _ => true
  end.

Definition first_absent (d : dict) : option string :=
  find (fun f => absent f d) cap_fields.

(** A factor column of the factor table, with its labels. *)
Definition factor_series (yf : string -> Tickers) (kode : list string)
  (factor : string) : Series :=
  match get_series factor (factor_table yf kode) with
  | Ret ser => ser
  | _ => []
  end.

(** The z-scores [_zscore] makes of a winsorised column. *)
Definition zscores (np_sqrt : Q -> Q) (w : list f64) : list f64 :=
  map (fun x => fdiv (fsub x (series_mean w)) (series_std np_sqrt w)) w.

(** The composite score [_agg_zscore] makes of two columns of z-scores: a
    column of zeros, to which each is added in turn, divided by their
    number. *)
Definition composite (z1 z2 : list f64) : list f64 :=
  map (fun ab => fdiv (fadd (fadd (Fin 0) (fst ab)) (snd ab)) (of_nat 2))
      (combine z1 z2).

(** The columns of the scored table, in the order they were created. *)
Definition scored_columns : list string :=
  ["PE"; "PBV"; "PE_wins"; "PBV_wins"; "PE_zscore"; "PBV_zscore";
   "agg_score"]%string.

(** The state of a universe after [_agg_zscore], and the scored table it
    holds. *)
Definition scored_state (w : list (nat * dict)) : IDXVAL30 :=
  match _agg_zscore sqrt9 (factor_state w) with
  | Ret s => s
  | _ => universe w
  end.

Definition scored_of (w : list (nat * dict)) : DataFrame :=
  match selection_df (scored_state w) with
  | Some df => df
  | None => mkDF [] []
  end.

(** The index [generate_index] returns for a universe within [fuel] rounds
    of the capping loop. *)
Definition index_within (w : list (nat * dict)) (fuel : nat) : DataFrame :=
  match generate_index (provider w) sqrt9 fuel (universe w) with
  | Ret out => out
  | _ => mkDF [] []
  end.

(** The adjusted market caps after a round of [_limit_cap]: a stock whose
    weight in [wcol] is over the limit gets [(1/n_over)] times what the
    round read as [rows[-1]], its value in [src]; the others keep their
    value in [adj]. *)
Definition rescaled (limit_weight : Q) (adj src wcol : list f64) : list f64 :=
  let n_over :=
    List.length (filter (fun w => fgt w (Fin limit_weight)) wcol) in
  map (fun x => if fgt (snd (snd x)) (Fin limit_weight)
                then fmul (fdiv (Fin 1) (of_nat n_over)) (fst (snd x))
                else fst x)
      (combine adj (combine src wcol)).

(** The shares of a column in its total, rounded to [d] decimals. *)
Definition shares (adj : list f64) (d : nat) : list f64 :=
  map (fun a => np_round (fdiv a (series_sum adj)) d) adj.

(** The state of a universe after [k] rounds of the capping loop, the
    selected stocks it holds, and the two frames the next round gets. *)
Definition round_state (w : list (nat * dict)) (k : nat) : IDXVAL30 :=
  match trace_of w k with
  | Ret r => fst r
  | _ => universe w
  end.

Definition round_frame (w : list (nat * dict)) (k : nat) : DataFrame :=
  match selected_stocks (round_state w k) with
  | Some df => df
  | None => mkDF [] []
  end.

Definition round_over (w : list (nat * dict)) (k : nat) : DataFrame :=
  match trace_of w k with
  | Ret (_, Some on) => fst on
  | _ => mkDF [] []
  end.

Definition round_under (w : list (nat * dict)) (k : nat) : DataFrame :=
  match trace_of w k with
  | Ret (_, Some on) => snd on
  | _ => mkDF [] []
  end.

(** A column of a frame, empty when the frame does not have it. *)
Definition col_of (name : string) (df : DataFrame) : list f64 :=
  match get_col name df with
  | Ret l => l
  | _ => []
  end.

(** The last character of a string, if it has one. *)
Fixpoint last_char (s : string) : option ascii :=
  match s with
  | EmptyString => None
  | String a EmptyString => Some a
  | String _ s' => last_char s'
  end.

(* ================================================================== *)
(** * The cutoff ranks in binary64 *)

(** Python's [int(x)] on a float64: the integer part, towards zero; it
    raises on [nan] and on an infinity, [None] here. *)
Definition f64_int (x : PrimFloat.float) : option Z :=
  match FloatOps.Prim2SF x with
  | SpecFloat.S754_zero _ => Some 0%Z
  | SpecFloat.S754_finite s m e =>
      let a := (if 0 <=? e then Z.shiftl (Zpos m) e
                else Z.shiftr (Zpos m) (- e))%Z in
      Some (if s then (- a)%Z else a)
  | _ => None
  end.

(** The default [alpha=0.05] as the interpreter reads it: the float64
    nearest to 0.05. *)
Definition alpha_f64 : PrimFloat.float := 0x1.999999999999ap-5%float.

(** A row count as a float64, exact below [2^53]. *)
Definition f64_of_nat (n : nat) : PrimFloat.float :=
  PrimFloat.of_uint63 (Uint63.of_Z (Z.of_nat n)).

(** [int(alpha*self.nticker)] and [int((1-alpha)*self.nticker)] in float64
    arithmetic, at the default alpha. *)
Definition lower_rank_f64 (n : nat) : option nat :=
  option_map Z.to_nat (f64_int (PrimFloat.mul alpha_f64 (f64_of_nat n))).

Definition upper_rank_f64 (n : nat) : option nat :=
  option_map Z.to_nat
    (f64_int (PrimFloat.mul (PrimFloat.sub 1%float alpha_f64)
                            (f64_of_nat n))).

(** Whether the float64 ranks of [n] rows are the ranks of the exact
    products, and whether they are for [n], [n + 1], ..., [n + k - 1]. *)
Definition ranks_agree (n : nat) : bool :=
  match lower_rank_f64 n, upper_rank_f64 n with
  | Some a, Some b => Nat.eqb a (lower_rank n) && Nat.eqb b (upper_rank n)
  | _, _ => false
  end.

Fixpoint ranks_agree_from (k n : nat) : bool :=
  match k with
  | O => true
  | S k' => ranks_agree n && ranks_agree_from k' (S n)
  end.

(* ================================================================== *)
(** * Outcomes *)

Open Scope string_scope.

(** Inversion of one [bind] in a run that returned. *)
Ltac bind_inv H :=
  match type of H with
  | bind ?m _ = Ret _ =>
      let a := fresh "a" in
      let E := fresh "E" in
      destruct m as [a| |] eqn:E; cbn [bind] in H;
      [|discriminate H|discriminate H]
  end.

Lemma bind_Ret_inv (A B : Type) (m : outcome A) (k : A -> outcome B) (b : B) :
  bind m k = Ret b -> exists a, m = Ret a /\ k a = Ret b.
Proof.
  destruct m as [a| |]; simpl; intros H; try discriminate.
  exists a; split; [reflexivity | exact H].
Qed.

Lemma bind_assoc (A B C : Type) (m : outcome A) (k : A -> outcome B)
  (h : B -> outcome C) :
  bind (bind m k) h = bind m (fun a => bind (k a) h).
Proof. destruct m; reflexivity. Qed.

Lemma generate_index_stages yf sq fuel self :
  generate_index yf sq fuel self =
  (self <- stages_1_5 yf sq self ;;
   self <- _get_each_weight fuel limit_default self ;;
   df <- attr "selected_stocks" (selected_stocks self) ;;
   df_index <- project "adj_mc_weight" df ;;
   Ret (mkDF ["weight"%string] (rows df_index))).
Proof.
  unfold generate_index, stages_1_5.
  destruct (_adjust_ticker self) as [s1| |]; simpl; try reflexivity.
  destruct (_generate_df_factors _) as [s3| |]; simpl; try reflexivity.
  destruct (_agg_zscore sq s3) as [s4| |]; simpl; reflexivity.
Qed.

(* ================================================================== *)
(** * The capping loop, round by round *)

Lemma get_each_weight_enters fuel limit self s0 o n :
  over_cap limit self = Ret true ->
  loop_entry limit self = Ret (s0, (o, n)) ->
  _get_each_weight fuel limit self = capping_loop fuel limit o n s0.
Proof.
  unfold over_cap, loop_entry, _get_each_weight.
  destruct (raw_weights self) as [df| |]; simpl; try discriminate.
  destruct (get_col "mc_weight" df) as [w| |]; simpl; try discriminate.
  intros Hw; injection Hw as ->.
  destruct (get_col "mc" df) as [mc| |]; simpl; try discriminate.
  destruct (split_over "mc_weight" limit (set_col "adj_mc" mc df))
    as [[o' n']| |]; simpl; try discriminate.
  intros H; injection H as <- <- <-. reflexivity.
Qed.

Lemma get_each_weight_skips fuel limit self :
  over_cap limit self = Ret false ->
  _get_each_weight fuel limit self =
  (df <- raw_weights self ;; Ret (with_selected df self)).
Proof.
  unfold over_cap, _get_each_weight.
  destruct (raw_weights self) as [df| |]; simpl; try discriminate.
  destruct (get_col "mc_weight" df) as [w| |]; simpl; try discriminate.
  intros Hw; injection Hw as ->. reflexivity.
Qed.

(** After [k] rounds without [break] the loop is where the trace says, or
    has already run out of fuel. *)
Lemma capping_loop_rounds k : forall fuel limit o n s s' o' n',
  rounds k limit o n s = Ret (s', Some (o', n')) ->
  capping_loop fuel limit o n s = OutOfFuel \/
  exists fuel', capping_loop fuel limit o n s = capping_loop fuel' limit o' n' s'.
Proof.
  induction k as [|k IH]; intros fuel limit o n s s' o' n' H.
  - simpl in H. injection H as <- <- <-. right. exists fuel. reflexivity.
  - destruct fuel as [|fuel]; [left; reflexivity|].
    simpl in H |- *.
    destruct (capping_round limit o n s) as [[s1 [[o1 n1]|]]| |]; simpl in *;
      try discriminate.
    apply IH with (fuel := fuel) in H. exact H.
Qed.

(** A round that leaves the state and the two frames as they were is
    repeated for ever. *)
Lemma capping_loop_fixed fuel : forall limit o n s,
  capping_round limit o n s = Ret (s, Some (o, n)) ->
  capping_loop fuel limit o n s = OutOfFuel.
Proof.
  induction fuel as [|fuel IH]; intros limit o n s H; [reflexivity|].
  simpl. rewrite H. simpl. apply IH. exact H.
Qed.

Lemma capping_loop_diverges k fuel limit o n s s' o' n' :
  rounds k limit o n s = Ret (s', Some (o', n')) ->
  capping_round limit o' n' s' = Ret (s', Some (o', n')) ->
  capping_loop fuel limit o n s = OutOfFuel.
Proof.
  intros Hk Hfix.
  destruct (capping_loop_rounds k fuel _ _ _ _ _ _ _ Hk) as [H | [fuel' H]].
  - exact H.
  - rewrite H. apply capping_loop_fixed. exact Hfix.
Qed.

Lemma rounds_snoc k : forall limit o n s,
  rounds (S k) limit o n s =
  (r <- rounds k limit o n s ;;
   match snd r with
   | None => Ret r
   | Some (o', n') => capping_round limit o' n' (fst r)
   end).
Proof.
  induction k as [|k IH]; intros limit o n s.
  - simpl. destruct (capping_round limit o n s) as [[s1 [[o1 n1]|]]| |];
      reflexivity.
  - change (rounds (S (S k)) limit o n s) with
      (r <- capping_round limit o n s ;;
       match snd r with
       | None => Ret r
       | Some (o', n') => rounds (S k) limit o' n' (fst r)
       end).
    simpl rounds at 2.
    destruct (capping_round limit o n s) as [[s1 [[o1 n1]|]]| |]; simpl;
      try reflexivity.
    apply IH.
Qed.

(** A universe whose trace repeats itself while still inside the loop never
    gets an index. *)
Lemma universe_diverges w k :
  enters w = Ret true ->
  running (trace_of w k) = true ->
  trace_of w (S k) = trace_of w k ->
  forall fuel, generate_index (provider w) sqrt9 fuel (universe w) = OutOfFuel.
Proof.
  unfold enters, trace_of, entry_of. intros He Hr Hfix fuel.
  rewrite generate_index_stages.
  destruct (stages_1_5 (provider w) sqrt9 (universe w)) as [s5| |];
    cbn [bind] in *; try discriminate.
  destruct (loop_entry limit_default s5) as [[s0 [o n]]| |] eqn:E0;
    cbn [bind fst snd] in *; try discriminate.
  rewrite (get_each_weight_enters fuel _ _ _ _ _ He E0).
  rewrite rounds_snoc in Hfix.
  destruct (rounds k limit_default o n s0) as [[s' [[o' n']|]]| |] eqn:Ek;
    cbn [bind fst snd running] in *; try discriminate.
  rewrite (capping_loop_diverges k fuel _ _ _ _ _ _ _ Ek Hfix). reflexivity.
Qed.

(* ================================================================== *)
(** * Lists, strings and positions *)

Lemma index_of_Some s l k :
  index_of s l = Some k -> nth_error l k = Some s.
Proof.
  revert k. induction l as [|x l IH]; intros k H; simpl in H; [discriminate|].
  destruct (String.eqb x s) eqn:E.
  - injection H as <-. apply String.eqb_eq in E. subst. reflexivity.
  - destruct (index_of s l) as [k'|]; simpl in H; [|discriminate].
    injection H as <-. simpl. apply IH. reflexivity.
Qed.

Lemma index_of_lt s l k : index_of s l = Some k -> (k < List.length l)%nat.
Proof.
  intros H. apply index_of_Some in H.
  apply nth_error_Some. rewrite H. discriminate.
Qed.

Lemma index_of_None s l : index_of s l = None <-> ~ In s l.
Proof.
  induction l as [|x l IH]; simpl.
  - split; [intros _ [] | reflexivity].
  - destruct (String.eqb x s) eqn:E.
    + apply String.eqb_eq in E. split; [discriminate | intros H; exfalso; auto].
    + apply String.eqb_neq in E.
      destruct (index_of s l); simpl.
      * split; [discriminate|]. intros H.
        assert (Hn : ~ In s l) by (intros Hin; apply H; right; exact Hin).
        apply IH in Hn. discriminate.
      * split; [|reflexivity]. intros _ [H | H]; [auto|].
        apply (proj1 IH); auto.
Qed.

Lemma index_of_app_old s l l' k :
  index_of s l = Some k -> index_of s (l ++ l') = Some k.
Proof.
  revert k. induction l as [|x l IH]; intros k H; simpl in *; [discriminate|].
  destruct (String.eqb x s); [exact H|].
  destruct (index_of s l) as [k'|]; simpl in H; [|discriminate].
  rewrite (IH k' eq_refl). exact H.
Qed.

Lemma index_of_app_new s l :
  index_of s l = None -> index_of s (l ++ [s]) = Some (List.length l).
Proof.
  induction l as [|x l IH]; intros H; simpl in *.
  - rewrite String.eqb_refl. reflexivity.
  - destruct (String.eqb x s); [discriminate|].
    destruct (index_of s l); simpl in H; [discriminate|].
    rewrite IH; reflexivity.
Qed.

Lemma index_of_app_other s t l :
  s <> t -> index_of s (l ++ [t]) = index_of s l.
Proof.
  intros Hne. induction l as [|x l IH]; simpl.
  - destruct (String.eqb t s) eqn:E; [|reflexivity].
    apply String.eqb_eq in E. congruence.
  - rewrite IH. reflexivity.
Qed.

Lemma length_set_nth (A : Type) k (v : A) l :
  List.length (set_nth k v l) = List.length l.
Proof.
  revert k. induction l as [|x l IH]; intros [|k]; simpl; auto.
Qed.

Lemma nth_set_nth_same (A : Type) k (v d : A) l :
  (k < List.length l)%nat -> nth k (set_nth k v l) d = v.
Proof.
  revert k. induction l as [|x l IH]; intros [|k] H; simpl in *; try lia.
  - reflexivity.
  - apply IH. lia.
Qed.

Lemma nth_set_nth_other (A : Type) k j (v d : A) l :
  k <> j -> nth j (set_nth k v l) d = nth j l d.
Proof.
  revert k j. induction l as [|x l IH]; intros [|k] [|j] H; simpl; try reflexivity.
  - congruence.
  - apply IH. congruence.
Qed.

Lemma string_length_append s t :
  String.length (s ++ t) = (String.length s + String.length t)%nat.
Proof. induction s as [|c s IH]; simpl; [reflexivity | rewrite IH; reflexivity]. Qed.

(** Appending the suffix is injective: distinct codes stay distinct. *)
Lemma append_suffix_inj s t suffix :
  (s ++ suffix)%string = (t ++ suffix)%string -> s = t.
Proof.
  revert t. induction s as [|c s IH]; intros [|d t] H; simpl in H.
  - reflexivity.
  - exfalso. apply (f_equal String.length) in H. simpl in H.
    rewrite string_length_append in H. lia.
  - exfalso. apply (f_equal String.length) in H. simpl in H.
    rewrite string_length_append in H. lia.
  - injection H as -> H. f_equal. apply IH. exact H.
Qed.

Lemma mem_str_In s l : mem_str s l = true <-> In s l.
Proof.
  unfold mem_str. rewrite existsb_exists. split.
  - intros [x [Hin E]]. apply String.eqb_eq in E. subst. exact Hin.
  - intros H. exists s. split; [exact H | apply String.eqb_refl].
Qed.

(** The insertion sort permutes its input. *)
Lemma insert_by_perm (A : Type) (leb : A -> A -> bool) x l :
  Permutation (insert_by leb x l) (x :: l).
Proof.
  induction l as [|y l IH]; simpl; [reflexivity|].
  destruct (leb x y); [reflexivity|].
  rewrite IH. apply perm_swap.
Qed.

Lemma sort_by_perm (A : Type) (leb : A -> A -> bool) l :
  Permutation (sort_by leb l) l.
Proof.
  induction l as [|x l IH]; simpl; [reflexivity|].
  rewrite insert_by_perm. constructor. exact IH.
Qed.

Lemma length_sort_by (A : Type) (leb : A -> A -> bool) l :
  List.length (sort_by leb l) = List.length l.
Proof. apply Permutation_length, sort_by_perm. Qed.

Lemma map_combine_fst (A B C : Type) (f : A * B -> C) (g : A -> C) l l' :
  List.length l = List.length l' ->
  (forall a b, In a l -> f (a, b) = g a) ->
  map f (combine l l') = map g l.
Proof.
  revert l'. induction l as [|a l IH]; intros [|b l'] Hlen Hf; simpl in *;
    try discriminate; [reflexivity|].
  rewrite Hf by (left; reflexivity). f_equal.
  apply IH; [lia | intros; apply Hf; right; assumption].
Qed.

Lemma map_combine_snd (A B C : Type) (f : A * B -> C) (g : B -> C) l l' :
  List.length l = List.length l' ->
  (forall a b, In a l -> f (a, b) = g b) ->
  map f (combine l l') = map g l'.
Proof.
  revert l'. induction l as [|a l IH]; intros [|b l'] Hlen Hf; simpl in *;
    try discriminate; [reflexivity|].
  rewrite Hf by (left; reflexivity). f_equal.
  apply IH; [lia | intros; apply Hf; right; assumption].
Qed.

Lemma incl_map_fst_combine (A B C : Type) (f : A -> C) (l : list A)
  (l' : list B) :
  incl (map (fun ab => f (fst ab)) (combine l l')) (map f l).
Proof.
  intros c Hc. apply in_map_iff in Hc. destruct Hc as [[a b] [<- Hin]].
  apply in_map. eapply in_combine_l. exact Hin.
Qed.

(* ================================================================== *)
(** * Data frames: what an assignment changes and what it keeps *)

Lemma ticker_row_put k v r : ticker (row_put k v r) = ticker r.
Proof. destruct k; reflexivity. Qed.

Lemma label_row_put k v r : label (row_put k v r) = label r.
Proof. destruct k; reflexivity. Qed.

Lemma rows_set_col name values df :
  rows (set_col name values df) =
  map (fun rv => row_put (index_of name (columns df)) (snd rv) (fst rv))
      (combine (rows df) values).
Proof. reflexivity. Qed.

Lemma tickers_set_col_incl name values df :
  incl (tickers_of (set_col name values df)) (tickers_of df).
Proof.
  unfold tickers_of. rewrite rows_set_col, map_map.
  intros t Ht. apply in_map_iff in Ht. destruct Ht as [[r v] [<- Hin]].
  simpl. rewrite ticker_row_put. apply in_map.
  eapply in_combine_l. exact Hin.
Qed.

Lemma tickers_set_col name values df :
  List.length values = nrows df ->
  tickers_of (set_col name values df) = tickers_of df.
Proof.
  intros Hlen. unfold tickers_of. rewrite rows_set_col, map_map.
  apply map_combine_fst; [symmetry; exact Hlen|].
  intros r v _. simpl. apply ticker_row_put.
Qed.

Lemma labels_set_col name values df :
  List.length values = nrows df ->
  map label (rows (set_col name values df)) = map label (rows df).
Proof.
  intros Hlen. rewrite rows_set_col, map_map.
  apply map_combine_fst; [symmetry; exact Hlen|].
  intros r v _. simpl. apply label_row_put.
Qed.

Lemma nrows_set_col name values df :
  List.length values = nrows df ->
  nrows (set_col name values df) = nrows df.
Proof.
  intros Hlen. unfold nrows. rewrite rows_set_col, length_map, length_combine.
  unfold nrows in Hlen. lia.
Qed.

Lemma columns_set_col name values df :
  columns (set_col name values df) =
  match index_of name (columns df) with
  | Some _ => columns df
  | None => (columns df ++ [name])%list
  end.
Proof. reflexivity. Qed.

Lemma wf_set_col name values df :
  wf_df df -> wf_df (set_col name values df).
Proof.
  unfold wf_df. intros Hwf. rewrite rows_set_col, columns_set_col.
  apply Forall_forall. intros r' Hr'.
  apply in_map_iff in Hr'. destruct Hr' as [[r v] [<- Hin]].
  apply in_combine_l in Hin.
  rewrite Forall_forall in Hwf. specialize (Hwf r Hin). simpl.
  destruct (index_of name (columns df)) as [k|]; simpl.
  - rewrite length_set_nth. exact Hwf.
  - rewrite !length_app. simpl. lia.
Qed.

Lemma index_of_set_col_same name values df :
  exists k, index_of name (columns (set_col name values df)) = Some k.
Proof.
  rewrite columns_set_col.
  destruct (index_of name (columns df)) as [k|] eqn:E.
  - exists k. exact E.
  - exists (List.length (columns df)). apply index_of_app_new. exact E.
Qed.

Lemma index_of_set_col_other name other values df :
  other <> name ->
  index_of other (columns (set_col name values df))
  = index_of other (columns df).
Proof.
  intros Hne. rewrite columns_set_col.
  destruct (index_of name (columns df)); [reflexivity|].
  apply index_of_app_other. exact Hne.
Qed.

(** Reading back the column that was just assigned. *)
Lemma get_col_set_col_same name values df :
  wf_df df -> List.length values = nrows df ->
  get_col name (set_col name values df) = Ret values.
Proof.
  intros Hwf Hlen.
  unfold wf_df in Hwf. rewrite Forall_forall in Hwf.
  destruct (index_of name (columns df)) as [k|] eqn:E.
  - assert (E' : index_of name (columns (set_col name values df)) = Some k)
      by (rewrite columns_set_col, E; exact E).
    unfold get_col. rewrite E'. f_equal.
    rewrite rows_set_col, map_map, E.
    rewrite <- (map_id values) at 2.
    apply map_combine_snd; [symmetry; exact Hlen|].
    intros r v Hin. simpl. apply nth_set_nth_same.
    rewrite (Hwf r Hin). eapply index_of_lt. exact E.
  - assert (E' : index_of name (columns (set_col name values df))
                 = Some (List.length (columns df)))
      by (rewrite columns_set_col, E; apply index_of_app_new; exact E).
    unfold get_col. rewrite E'. f_equal.
    rewrite rows_set_col, map_map, E.
    rewrite <- (map_id values) at 2.
    apply map_combine_snd; [symmetry; exact Hlen|].
    intros r v Hin. simpl.
    rewrite <- (Hwf r Hin). rewrite app_nth2 by lia.
    rewrite Nat.sub_diag. reflexivity.
Qed.

(** Assigning one column leaves the others as they were. *)
Lemma get_col_set_col_other name other values df :
  other <> name -> wf_df df -> List.length values = nrows df ->
  get_col other (set_col name values df) = get_col other df.
Proof.
  intros Hne Hwf Hlen.
  unfold wf_df in Hwf. rewrite Forall_forall in Hwf.
  unfold get_col.
  rewrite (index_of_set_col_other name other values df Hne).
  destruct (index_of other (columns df)) as [j|] eqn:Ej; [|reflexivity].
  f_equal. rewrite rows_set_col, map_map.
  apply map_combine_fst; [symmetry; exact Hlen|].
  intros r v Hin. simpl.
  destruct (index_of name (columns df)) as [k|] eqn:E; simpl.
  - apply nth_set_nth_other. intros ->.
    apply index_of_Some in E. apply index_of_Some in Ej. congruence.
  - apply app_nth1. rewrite (Hwf r Hin). eapply index_of_lt. exact Ej.
Qed.

Lemma length_get_col name df vs :
  get_col name df = Ret vs -> List.length vs = nrows df.
Proof.
  unfold get_col. destruct (index_of name (columns df)); [|discriminate].
  intros H. injection H as <-. apply length_map.
Qed.

Lemma foldM_inv {A S : Type} (P : S -> Prop) (f : S -> A -> outcome S) l :
  (forall s x s', P s -> f s x = Ret s' -> P s') ->
  forall s s', P s -> foldM f l s = Ret s' -> P s'.
Proof.
  intros Hf. induction l as [|x l IH]; intros s s' Hs H; simpl in H.
  - injection H as <-. exact Hs.
  - destruct (f s x) as [s1| |] eqn:E; simpl in H; try discriminate.
    apply (IH s1 s'); [eapply Hf; eassumption | exact H].
Qed.

Lemma columns_loc_set lbl name v df :
  columns (loc_set lbl name v df) =
  match index_of name (columns df) with
  | Some _ => columns df
  | None => (columns df ++ [name])%list
  end.
Proof.
  unfold loc_set. simpl.
  destruct (index_of name (columns df)) eqn:E; [reflexivity|].
  rewrite columns_set_col, E. reflexivity.
Qed.

Lemma loc_set_existing lbl name v df p :
  index_of name (columns df) = Some p ->
  loc_set lbl name v df =
  mkDF (columns df)
       (map (fun r => if Nat.eqb (label r) lbl then row_put (Some p) v r else r)
            (rows df)).
Proof. intros H. unfold loc_set. rewrite H, H. reflexivity. Qed.

Lemma tickers_loc_set lbl name v df :
  tickers_of (loc_set lbl name v df) = tickers_of df.
Proof.
  unfold loc_set, tickers_of. simpl. rewrite map_map.
  set (df' := match index_of name (columns df) with
              | Some _ => df
              | None => set_col name (repeat NaN (nrows df)) df
              end).
  assert (Hd : map ticker (rows df') = map ticker (rows df)).
  { subst df'. destruct (index_of name (columns df)); [reflexivity|].
    apply tickers_set_col. apply repeat_length. }
  rewrite <- Hd. apply map_ext. intros r.
  destruct (Nat.eqb (label r) lbl); [|reflexivity].
  destruct (index_of name (columns df')); [apply ticker_row_put | reflexivity].
Qed.

Lemma labels_loc_set lbl name v df :
  map label (rows (loc_set lbl name v df)) = map label (rows df).
Proof.
  unfold loc_set. simpl. rewrite map_map.
  set (df' := match index_of name (columns df) with
              | Some _ => df
              | None => set_col name (repeat NaN (nrows df)) df
              end).
  assert (Hd : map label (rows df') = map label (rows df)).
  { subst df'. destruct (index_of name (columns df)); [reflexivity|].
    apply labels_set_col. apply repeat_length. }
  rewrite <- Hd. apply map_ext. intros r.
  destruct (Nat.eqb (label r) lbl); [|reflexivity].
  destruct (index_of name (columns df')); [apply label_row_put | reflexivity].
Qed.

Lemma nrows_loc_set lbl name v df : nrows (loc_set lbl name v df) = nrows df.
Proof.
  unfold nrows. rewrite <- (length_map label), labels_loc_set.
  apply length_map.
Qed.

Lemma wf_loc_set lbl name v df : wf_df df -> wf_df (loc_set lbl name v df).
Proof.
  intros Hwf. unfold loc_set.
  set (df' := match index_of name (columns df) with
              | Some _ => df
              | None => set_col name (repeat NaN (nrows df)) df
              end).
  assert (Hwf' : wf_df df').
  { subst df'. destruct (index_of name (columns df)); [exact Hwf|].
    apply wf_set_col. exact Hwf. }
  unfold wf_df in *. simpl. rewrite Forall_forall in *.
  intros r' Hr'. apply in_map_iff in Hr'. destruct Hr' as [r [<- Hin]].
  specialize (Hwf' r Hin).
  destruct (Nat.eqb (label r) lbl); [|exact Hwf'].
  destruct (index_of name (columns df')) as [k|]; [|exact Hwf'].
  simpl. rewrite length_set_nth. exact Hwf'.
Qed.

Lemma tickers_reset_index df : tickers_of (reset_index df) = tickers_of df.
Proof.
  unfold tickers_of, reset_index. simpl. rewrite map_map.
  apply map_combine_snd; [apply length_seq | reflexivity].
Qed.

Lemma nrows_reset_index df : nrows (reset_index df) = nrows df.
Proof.
  unfold nrows, reset_index. simpl.
  rewrite length_map, length_combine, length_seq. unfold nrows. lia.
Qed.

Lemma labels_reset_index df :
  map label (rows (reset_index df)) = seq 0 (nrows df).
Proof.
  unfold reset_index. simpl. rewrite map_map.
  rewrite <- (map_id (seq 0 (nrows df))) at 2.
  apply map_combine_fst; [apply length_seq | reflexivity].
Qed.

Lemma wf_reset_index df : wf_df df -> wf_df (reset_index df).
Proof.
  unfold wf_df, reset_index. simpl. rewrite !Forall_forall.
  intros Hwf r' Hr'. apply in_map_iff in Hr'.
  destruct Hr' as [[k r] [<- Hin]]. simpl.
  apply Hwf. eapply in_combine_r. exact Hin.
Qed.

Lemma sort_values_rows name df df' :
  sort_values name df = Ret df' ->
  columns df' = columns df /\ Permutation (rows df') (rows df).
Proof.
  unfold sort_values. destruct (index_of name (columns df)); [|discriminate].
  intros H. injection H as <-. simpl. split; [reflexivity|].
  apply sort_by_perm.
Qed.

Lemma tickers_firstn_incl n df :
  incl (map ticker (firstn n (rows df))) (tickers_of df).
Proof.
  intros t Ht. apply in_map_iff in Ht. destruct Ht as [r [<- Hin]].
  apply in_map. rewrite <- (firstn_skipn n (rows df)).
  apply in_or_app. left. exact Hin.
Qed.

(* ================================================================== *)
(** * No stage adds a ticker *)

Lemma attr_Ret {A : Type} name (o : option A) a :
  attr name o = Ret a -> o = Some a.
Proof. destruct o; simpl; intros H; [injection H as -> | discriminate]; reflexivity. Qed.

Lemma winsorisation_tickers alpha s s' :
  _winsorisation alpha s = Ret s' ->
  incl (selection_tickers s') (selection_tickers s).
Proof.
  unfold _winsorisation.
  apply (foldM_inv (fun s' => incl (selection_tickers s') (selection_tickers s)));
    [|apply incl_refl].
  intros s0 factor s1 H0 H. unfold winsorise_factor in H.
  repeat bind_inv H. injection H as <-.
  apply attr_Ret in E. unfold selection_tickers at 1. simpl.
  unfold selection_tickers in H0 at 1. rewrite E in H0.
  eapply incl_tran; [apply tickers_set_col_incl | exact H0].
Qed.

Lemma zscore_tickers sq s s' :
  _zscore sq s = Ret s' ->
  incl (selection_tickers s') (selection_tickers s).
Proof.
  unfold _zscore. intros H. bind_inv H.
  apply winsorisation_tickers in E.
  revert H.
  apply (foldM_inv (fun s' => incl (selection_tickers s') (selection_tickers s)));
    [|exact E].
  intros s0 i s1 H0 H. unfold zscore_factor in H.
  repeat bind_inv H. injection H as <-.
  apply attr_Ret in E0. unfold selection_tickers at 1. simpl.
  unfold selection_tickers in H0 at 1. rewrite E0 in H0.
  eapply incl_tran; [apply tickers_set_col_incl | exact H0].
Qed.

Lemma agg_zscore_tickers sq s s' :
  _agg_zscore sq s = Ret s' ->
  incl (selection_tickers s') (selection_tickers s).
Proof.
  unfold _agg_zscore. intros H. bind_inv H.
  apply zscore_tickers in E. bind_inv H. apply attr_Ret in E0.
  destruct (negb (Nat.eqb (nticker a) (nrows a0))); [discriminate|].
  bind_inv H. bind_inv H. injection H as <-.
  unfold selection_tickers at 1. simpl.
  unfold selection_tickers in E at 1. rewrite E0 in E.
  eapply incl_tran; [apply tickers_set_col_incl|].
  eapply incl_tran; [|exact E].
  revert E1.
  apply (foldM_inv (fun df => incl (tickers_of df) (tickers_of a0)));
    [|apply tickers_set_col_incl].
  intros df i df' H0 H. unfold add_score in H.
  repeat bind_inv H. injection H as <-.
  eapply incl_tran; [apply tickers_set_col_incl | exact H0].
Qed.

Lemma select_stocks_tickers nstocks s s' :
  _select_stocks nstocks s = Ret s' ->
  incl (selected_tickers s') (selection_tickers s).
Proof.
  unfold _select_stocks. intros H. repeat bind_inv H. injection H as <-.
  apply attr_Ret in E. unfold selected_tickers, selection_tickers.
  cbn [selected_stocks with_selected]. rewrite E, tickers_reset_index.
  apply sort_values_rows in E0. destruct E0 as [_ Hp].
  eapply incl_tran; [apply (tickers_firstn_incl 30 a0)|].
  intros t Ht. unfold tickers_of in *.
  eapply Permutation_in; [apply Permutation_map; exact Hp | exact Ht].
Qed.

Lemma limit_cap_tickers over non_over limit s s' :
  _limit_cap over non_over limit s = Ret s' ->
  incl (selected_tickers s') (selected_tickers s).
Proof.
  unfold _limit_cap. intros H. repeat bind_inv H. injection H as <-.
  apply attr_Ret in E1. unfold selected_tickers. simpl. rewrite E1.
  eapply incl_tran; [apply tickers_set_col_incl|].
  revert E2.
  apply (foldM_inv (fun df => incl (tickers_of df) (tickers_of a1)));
    [|apply incl_refl].
  intros df r df' H0 H. repeat bind_inv H. injection H as <-.
  rewrite tickers_loc_set. exact H0.
Qed.

Lemma capping_round_tickers limit over non_over s s' next :
  capping_round limit over non_over s = Ret (s', next) ->
  incl (selected_tickers s') (selected_tickers s).
Proof.
  unfold capping_round. intros H. bind_inv H.
  apply limit_cap_tickers in E. repeat bind_inv H.
  destruct (negb _).
  - injection H as <- _. exact E.
  - bind_inv H. injection H as <- _. exact E.
Qed.

Lemma capping_loop_tickers fuel : forall limit over non_over s s',
  capping_loop fuel limit over non_over s = Ret s' ->
  incl (selected_tickers s') (selected_tickers s).
Proof.
  induction fuel as [|fuel IH]; intros limit over non_over s s' H;
    simpl in H; [discriminate|].
  bind_inv H. destruct a as [s1 next].
  apply capping_round_tickers in E. simpl in H.
  destruct next as [[o n]|].
  - apply IH in H. eapply incl_tran; eassumption.
  - injection H as <-. exact E.
Qed.

Lemma raw_weights_tickers s df :
  raw_weights s = Ret df ->
  incl (tickers_of df) (selected_tickers s).
Proof.
  unfold raw_weights. intros H. repeat bind_inv H. injection H as <-.
  apply attr_Ret in E0. unfold selected_tickers. rewrite E0.
  eapply incl_tran; [apply tickers_set_col_incl|].
  revert E1.
  apply (foldM_inv (fun df => incl (tickers_of df) (tickers_of a0)));
    [|apply tickers_set_col_incl].
  intros df it df' H0 H. repeat bind_inv H. injection H as <-.
  rewrite tickers_loc_set. exact H0.
Qed.

Lemma get_each_weight_tickers fuel limit s s' :
  _get_each_weight fuel limit s = Ret s' ->
  incl (selected_tickers s') (selected_tickers s).
Proof.
  unfold _get_each_weight. intros H. bind_inv H.
  apply raw_weights_tickers in E. bind_inv H.
  destruct (existsb _ a0).
  - repeat bind_inv H. apply capping_loop_tickers in H.
    eapply incl_tran; [exact H|].
    unfold selected_tickers at 1. simpl.
    eapply incl_tran; [apply tickers_set_col_incl | exact E].
  - injection H as <-. exact E.
Qed.

Lemma tickers_project name df df' :
  project name df = Ret df' -> tickers_of df' = tickers_of df.
Proof.
  unfold project. destruct (index_of name (columns df)); [|discriminate].
  intros H. injection H as <-. unfold tickers_of. simpl.
  rewrite map_map. reflexivity.
Qed.

(** Every ticker of the index is a ticker of the factor table. *)
Lemma generate_index_tickers yf sq fuel s s3 out :
  stages_1_3 yf s = Ret s3 ->
  generate_index yf sq fuel s = Ret out ->
  incl (tickers_of out) (selection_tickers s3).
Proof.
  unfold stages_1_3, generate_index. intros H3 H.
  bind_inv H. bind_inv H. cbn [bind] in H3. rewrite E0 in H3. cbn [bind] in H3.
  bind_inv H. injection H3 as ->.
  repeat bind_inv H. injection H as <-.
  apply agg_zscore_tickers in E2. apply select_stocks_tickers in E3.
  apply get_each_weight_tickers in E4. apply attr_Ret in E5.
  apply tickers_project in E6.
  unfold tickers_of at 1. simpl. fold (tickers_of a5). rewrite E6.
  unfold selected_tickers in E4 at 1. rewrite E5 in E4.
  eapply incl_tran; [exact E4|]. eapply incl_tran; eassumption.
Qed.

(* ================================================================== *)
(** * The factor table *)

(** Updating the rows label by label, each label once, updates every row
    whose label is in the list. *)
Lemma fold_left_update (g : nat -> Row -> Row) ks :
  (forall k r, label (g k r) = label r) ->
  NoDup ks ->
  forall rs,
    fold_left (fun rs k => map (fun r => if Nat.eqb (label r) k then g k r
                                         else r) rs) ks rs
    = map (fun r => if existsb (Nat.eqb (label r)) ks then g (label r) r
                    else r) rs.
Proof.
  intros Hg. induction ks as [|k ks IH]; intros Hnd rs; simpl.
  - symmetry. apply map_id.
  - inversion Hnd as [|? ? Hk Hnd']; subst.
    rewrite (IH Hnd'), map_map. apply map_ext. intros r.
    destruct (Nat.eqb (label r) k) eqn:E; simpl.
    + apply Nat.eqb_eq in E. rewrite Hg.
      destruct (existsb (Nat.eqb (label r)) ks) eqn:Ex.
      * exfalso. apply existsb_exists in Ex. destruct Ex as [x [Hin Hx]].
        apply Nat.eqb_eq in Hx. apply Hk. congruence.
      * rewrite E. reflexivity.
    + reflexivity.
Qed.

Lemma generate_df_factors_rows self f1 f2 :
  factors self = [f1; f2] ->
  col_name self = ["PE"; "PBV"]%string ->
  nticker self = List.length (ticker_idx80 self) ->
  _generate_df_factors self =
  Ret (let df := reset_index (dropna (mkDF ["PE"; "PBV"]%string
                                           (filled_rows self))) in
       with_nticker (nrows df) (with_selection df self)).
Proof.
  intros Hf Hc Hn. unfold _generate_df_factors.
  rewrite Hn, Nat.eqb_refl. cbn [negb]. rewrite <- Hn. rewrite Hf, Hc.
  cbn [combine fold_left fst snd].
  set (g := fun k r =>
              row_put (Some 1%nat) (factor_cell self k f2)
                      (row_put (Some 0%nat) (factor_cell self k f1) r)).
  assert (Hstep : forall ks df,
             columns df = ["PE"; "PBV"]%string ->
             fold_left
               (fun df each_ticker =>
                  loc_set each_ticker "PBV" (factor_cell self each_ticker f2)
                    (loc_set each_ticker "PE"
                             (factor_cell self each_ticker f1) df)) ks df
             = mkDF ["PE"; "PBV"]%string
                 (fold_left
                    (fun rs k => map (fun r => if Nat.eqb (label r) k
                                               then g k r else r) rs)
                    ks (rows df))).
  { induction ks as [|k ks IH]; intros df Hcols; simpl.
    - destruct df as [c r]. simpl in Hcols. subst c. reflexivity.
    - rewrite IH.
      + f_equal. f_equal.
        rewrite (loc_set_existing k "PE" _ df 0) by (rewrite Hcols; reflexivity).
        rewrite (loc_set_existing k "PBV" _ _ 1)
          by (cbn [columns]; rewrite Hcols; reflexivity).
        cbn [rows]. rewrite map_map. apply map_ext. intros r.
        destruct (Nat.eqb (label r) k) eqn:E.
        * rewrite label_row_put, E. reflexivity.
        * rewrite E. reflexivity.
      + rewrite (loc_set_existing k "PBV" _ _ 1).
        * rewrite (loc_set_existing k "PE" _ df 0) by (rewrite Hcols; reflexivity).
          cbn [columns]. exact Hcols.
        * rewrite columns_loc_set, Hcols. reflexivity. }
  rewrite Hstep by reflexivity. cbn [rows].
  rewrite fold_left_update;
    [| intros k r; unfold g; rewrite !label_row_put; reflexivity
     | apply seq_NoDup].
  rewrite map_map.
  match goal with
  | |- context [map ?f (combine ?a ?b)] =>
      replace (map f (combine a b)) with (filled_rows self)
  end; [reflexivity|].
  unfold filled_rows. rewrite Hf.
  apply map_ext_in. intros [k t] Hin. cbn [fst snd label map].
  apply in_combine_l in Hin.
  assert (Hex : existsb (Nat.eqb k) (seq 0 (nticker self)) = true).
  { apply existsb_exists. exists k. split; [exact Hin | apply Nat.eqb_refl]. }
  rewrite Hex. reflexivity.
Qed.

Lemma in_combine_seq (A : Type) (l : list A) : forall a n k x,
  In (k, x) (combine (seq a n) l) ->
  (a <= k)%nat /\ nth_error l (k - a) = Some x.
Proof.
  induction l as [|y l IH]; intros a n k x H.
  - destruct n; simpl in H; contradiction.
  - destruct n as [|n]; simpl in H; [contradiction|].
    destruct H as [H | H].
    + injection H as <- <-. rewrite Nat.sub_diag. split; [lia | reflexivity].
    + apply IH in H. destruct H as [Hle Hn]. split; [lia|].
      replace (k - a)%nat with (S (k - S a)) by lia. exact Hn.
Qed.

Lemma adjust_query_state yf kode s2 :
  (s <- _adjust_ticker (init kode) ;; _query_data yf s) = Ret s2 ->
  ticker_idx80 s2 = map (fun t => (t ++ ".JK")%string) kode /\
  nticker s2 = List.length kode /\
  factors s2 = ["trailingPE"; "priceToBook"]%string /\
  col_name s2 = ["PE"; "PBV"]%string.
Proof.
  unfold _adjust_ticker, _query_data, init. cbn [nticker ticker_idx80].
  rewrite Nat.leb_refl, firstn_all, skipn_all, app_nil_r. cbn [bind].
  intros H. injection H as <-. repeat split.
Qed.

Lemma not_supplied_nan self k f :
  not_supplied self k f -> factor_cell self k f = NaN.
Proof.
  unfold not_supplied, factor_cell. intros [[e H] | H]; rewrite H; reflexivity.
Qed.

Lemma tickers_of_factor_table self f1 f2 :
  factors self = [f1; f2] ->
  tickers_of (reset_index (dropna (mkDF ["PE"; "PBV"]%string
                                        (filled_rows self))))
  = survivors self.
Proof.
  intros Hf. rewrite tickers_reset_index.
  unfold tickers_of, dropna, filled_rows, survivors. cbn [rows].
  rewrite filter_map_swap, map_map. cbn [ticker].
  f_equal. apply filter_ext. intros [k t]. cbn [vals fst].
  unfold has_factors. rewrite Hf. cbn [map existsb forallb].
  destruct (is_nan (factor_cell self k f1)),
           (is_nan (factor_cell self k f2)); reflexivity.
Qed.

Lemma survivors_have_factors self k t :
  NoDup (ticker_idx80 self) ->
  nth_error (ticker_idx80 self) k = Some t ->
  In t (survivors self) -> has_factors self k = true.
Proof.
  intros Hnd Hk Hin. unfold survivors in Hin.
  apply in_map_iff in Hin. destruct Hin as [[j t'] [Ht' Hin]].
  simpl in Ht'. subst t'. apply filter_In in Hin. destruct Hin as [Hin Hj].
  apply in_combine_seq in Hin. destruct Hin as [_ Hn].
  rewrite Nat.sub_0_r in Hn. simpl in Hj.
  assert (k = j); [|subst; exact Hj].
  apply (proj1 (NoDup_nth_error _) Hnd).
  - apply nth_error_Some. rewrite Hk. discriminate.
  - rewrite Hk, Hn. reflexivity.
Qed.

(* ================================================================== *)
(** * The fetch of the market-cap data *)

Lemma dict_get_cases k d :
  (exists v, dict_get k d = Ret v) \/ dict_get k d = Raise (KeyError k).
Proof.
  induction d as [|[k' v] d IH]; simpl; [right; reflexivity|].
  destruct (String.eqb k' k); [left; exists v; reflexivity | exact IH].
Qed.

Lemma info_cases t : (exists d, info t = Ret d) \/ (exists e, info t = Raise e).
Proof.
  unfold info. destruct (info_result t) as [d | e];
    [left; exists d | right; exists e]; reflexivity.
Qed.

Lemma py_div_cases x y :
  (exists z, py_div x y = Ret z) \/ py_div x y = Raise ZeroDivisionError.
Proof.
  unfold py_div. destruct y as [b| | |];
    try (left; eexists; reflexivity).
  destruct (Qeq_bool b 0); [right | left; eexists]; reflexivity.
Qed.

(** [_weight] returns or raises; it has no loop to run out of fuel. *)
Lemma weight_cases t :
  (exists x, _weight t = Ret x) \/ (exists e, _weight t = Raise e).
Proof.
  unfold _weight.
  destruct (info_cases t) as [[d ->] | [e ->]]; cbn [bind];
    [|right; exists e; reflexivity].
  destruct (dict_get_cases "marketCap" d) as [[m ->] | ->]; cbn [bind];
    [|right; eexists; reflexivity].
  destruct (dict_get_cases "floatShares" d) as [[fs ->] | ->]; cbn [bind];
    [|right; eexists; reflexivity].
  destruct (dict_get_cases "sharesOutstanding" d) as [[so ->] | ->];
    cbn [bind]; [|right; eexists; reflexivity].
  destruct fs as [|a]; cbn [as_num bind]; [right; eexists; reflexivity|].
  destruct so as [|b]; cbn [as_num bind]; [right; eexists; reflexivity|].
  destruct (py_div_cases a b) as [[z ->] | ->]; cbn [bind];
    [|right; eexists; reflexivity].
  destruct m as [|c]; cbn [as_num bind]; [right | left]; eexists; reflexivity.
Qed.

Lemma fetch_mc_cases obj t :
  (exists x, fetch_mc obj t = Ret x) \/ (exists e, fetch_mc obj t = Raise e).
Proof.
  unfold fetch_mc.
  destruct (index_of t (symbols obj)) as [k|]; cbn [bind];
    [|right; eexists; reflexivity].
  unfold list_get. destruct (nth_error (tickers obj) k) as [tk|]; cbn [bind];
    [apply weight_cases | right; eexists; reflexivity].
Qed.

(** Missing market-cap data makes the fetch of that ticker raise. *)
Lemma cap_data_missing_raises obj t :
  cap_data_missing obj t -> exists e, fetch_mc obj t = Raise e.
Proof.
  intros [k [tk [Hk [Htk Hm]]]]. unfold fetch_mc, list_get.
  rewrite Hk. cbn [bind]. rewrite Htk. cbn [bind].
  destruct (weight_cases tk) as [[x Hx] | He]; [exfalso | exact He].
  unfold _weight in Hx.
  destruct Hm as [[e He] | [d [f [Hd [Hf Hg]]]]].
  - rewrite He in Hx. discriminate.
  - rewrite Hd in Hx. cbn [bind] in Hx.
    destruct (dict_get "marketCap" d) as [m| |] eqn:Em; cbn [bind] in Hx;
      try discriminate.
    destruct (dict_get "floatShares" d) as [fs| |] eqn:Ef; cbn [bind] in Hx;
      try discriminate.
    destruct (dict_get "sharesOutstanding" d) as [so| |] eqn:Es;
      cbn [bind] in Hx; try discriminate.
    destruct fs as [|a]; cbn [as_num bind] in Hx; try discriminate.
    destruct so as [|b]; cbn [as_num bind] in Hx; try discriminate.
    destruct (py_div a b) as [z| |]; cbn [bind] in Hx; try discriminate.
    destruct m as [|c]; cbn [as_num bind] in Hx; try discriminate.
    destruct Hf as [<- | [<- | [<- | []]]]; destruct Hg as [Hg | Hg];
      congruence.
Qed.

(** A loop whose body raises for one of the items raises: the exception
    is that of the first item that fails. *)
Lemma foldM_raises (A S B : Type) (g : A -> outcome B) (h : S -> A -> B -> S)
  (l : list A) :
  (forall x, (exists b, g x = Ret b) \/ (exists e, g x = Raise e)) ->
  (exists x e, In x l /\ g x = Raise e) ->
  forall s, exists x e,
    In x l /\ g x = Raise e /\
    foldM (fun s x => b <- g x ;; Ret (h s x b)) l s = Raise e.
Proof.
  intros Hg. induction l as [|a l IH]; intros [x [e [Hin He]]] s.
  - contradiction.
  - simpl. destruct (Hg a) as [[b Hb] | [e' He']].
    + rewrite Hb. cbn [bind].
      destruct Hin as [-> | Hin]; [congruence|].
      destruct (IH (ex_intro _ x (ex_intro _ e (conj Hin He))) (h s a b))
        as [x' [e' [Hin' [He' Hf]]]].
      exists x', e'. repeat split; [right; exact Hin' | exact He' | exact Hf].
    + rewrite He'. cbn [bind].
      exists a, e'. repeat split; [left; reflexivity | exact He'].
Qed.

Lemma raw_weights_raises self obj df :
  idx80_obj self = Some obj ->
  selected_stocks self = Some df ->
  (exists t e, In t (tickers_of df) /\ fetch_mc obj t = Raise e) ->
  exists t e, In t (tickers_of df) /\ fetch_mc obj t = Raise e /\
              raw_weights self = Raise e.
Proof.
  intros Ho Hd [t [e [Hin He]]]. unfold raw_weights.
  rewrite Ho, Hd. cbn [attr bind].
  set (df' := set_col "mc" (repeat (Fin 0) (nrows df)) df).
  assert (Htk : tickers_of df' = tickers_of df)
    by (apply tickers_set_col, repeat_length).
  assert (Hn : nrows df' = List.length (tickers_of df'))
    by (unfold nrows, tickers_of; rewrite length_map; reflexivity).
  destruct (foldM_raises _ _ _ (fun it : nat * string => fetch_mc obj (snd it))
              (fun df it mc_i => loc_set (fst it) "mc" mc_i df)
              (combine (seq 0 (nrows df')) (tickers_of df'))
              (fun it => fetch_mc_cases obj (snd it))) with (s := df')
    as [[k t'] [e' [Hin' [He' Hf]]]].
  - assert (Hex : In t (map snd (combine (seq 0 (nrows df')) (tickers_of df')))).
    { rewrite (map_combine_snd _ _ _ snd (fun x => x));
        [rewrite map_id, Htk; exact Hin | rewrite length_seq; exact Hn
         | reflexivity]. }
    apply in_map_iff in Hex. destruct Hex as [[k t0] [Ht0 Hin0]].
    simpl in Ht0. subst t0. exists (k, t), e. split; [exact Hin0 | exact He].
  - exists t', e'. simpl in He'. rewrite <- Htk.
    split; [eapply in_combine_r; exact Hin' |]. split; [exact He'|].
    rewrite Hf. reflexivity.
Qed.

Lemma exn_class_builtin e : exn_class e <> "MarketDataUnavailable"%string.
Proof. destruct e; discriminate. Qed.

(* ================================================================== *)
(** * The scorer *)

Lemma wf_dropna df : wf_df df -> wf_df (dropna df).
Proof.
  unfold wf_df, dropna. simpl. rewrite !Forall_forall.
  intros H r Hr. apply filter_In in Hr. apply H. tauto.
Qed.

Lemma nrows_set_col_aligned name ser df :
  nrows (set_col_aligned name ser df) = nrows df.
Proof. apply nrows_set_col. unfold nrows. apply length_map. Qed.

(** What one assignment of a column does to a well-formed frame. *)
Lemma set_col_frame name values df :
  wf_df df -> List.length values = nrows df ->
  wf_df (set_col name values df) /\
  nrows (set_col name values df) = nrows df /\
  get_col name (set_col name values df) = Ret values /\
  (forall other, other <> name ->
     get_col other (set_col name values df) = get_col other df).
Proof.
  intros Hwf Hlen. split; [apply wf_set_col; exact Hwf|].
  split; [apply nrows_set_col; exact Hlen|].
  split; [apply get_col_set_col_same; assumption|].
  intros other Hne. apply get_col_set_col_other; assumption.
Qed.

Lemma get_col_present name df k :
  index_of name (columns df) = Some k ->
  exists w, get_col name df = Ret w.
Proof. intros H. unfold get_col. rewrite H. eexists. reflexivity. Qed.

(** The state [_generate_df_factors] leaves behind. *)
Lemma stages_1_3_state yf kode s :
  stages_1_3 yf (init kode) = Ret s ->
  exists df,
    selection_df s = Some df /\
    columns df = ["PE"; "PBV"]%string /\
    wf_df df /\
    nticker s = nrows df /\
    col_name s = ["PE"; "PBV"]%string.
Proof.
  unfold stages_1_3. intros H.
  destruct (s1 <- _adjust_ticker (init kode) ;; _query_data yf s1)
    as [s2| |] eqn:E2.
  - destruct (adjust_query_state yf kode s2 E2) as [Ht [Hn [Hfs Hcs]]].
    assert (Hlen : nticker s2 = List.length (ticker_idx80 s2))
      by (rewrite Ht, length_map; exact Hn).
    destruct (_adjust_ticker (init kode)) as [s1| |]; cbn [bind] in *;
      try discriminate.
    rewrite E2 in H. cbn [bind] in H.
    rewrite (generate_df_factors_rows s2 _ _ Hfs Hcs Hlen) in H.
    injection H as <-. cbv zeta.
    eexists. split; [reflexivity|]. split; [reflexivity|].
    split; [|split; [reflexivity | exact Hcs]].
    apply wf_reset_index, wf_dropna. unfold wf_df, filled_rows. simpl.
    apply Forall_forall. intros r Hr. apply in_map_iff in Hr.
    destruct Hr as [kt [<- _]]. simpl. rewrite length_map, Hfs. reflexivity.
  - destruct (_adjust_ticker (init kode)) as [s1| |]; cbn [bind] in *;
      discriminate.
  - destruct (_adjust_ticker (init kode)) as [s1| |]; cbn [bind] in *;
      discriminate.
Qed.

Lemma winsorise_factor_result lb ub s factor s' df :
  selection_df s = Some df ->
  winsorise_factor lb ub s factor = Ret s' ->
  exists ser,
    s' = with_selection (set_col_aligned (factor ++ "_wins") ser df) s.
Proof.
  intros Hd. unfold winsorise_factor. rewrite Hd. cbn [attr bind].
  intros H. repeat bind_inv H. injection H as <-. eexists. reflexivity.
Qed.

(** What [_winsorisation] changes: two columns are added to the table. *)
Lemma winsorisation_result alpha s s1 df :
  col_name s = ["PE"; "PBV"]%string ->
  selection_df s = Some df ->
  _winsorisation alpha s = Ret s1 ->
  exists ser1 ser2,
    s1 = with_selection
           (set_col_aligned "PBV_wins" ser2
              (set_col_aligned "PE_wins" ser1 df)) s.
Proof.
  intros Hc Hd. unfold _winsorisation. rewrite Hc. cbn [foldM].
  intros H. bind_inv H.
  destruct (winsorise_factor_result _ _ _ _ _ _ Hd E) as [ser1 ->].
  bind_inv H. injection H as <-.
  destruct ((fun Hs => winsorise_factor_result _ _ _ _ _ _ Hs E0) eq_refl)
    as [ser2 ->].
  exists ser1, ser2. reflexivity.
Qed.

Lemma zscore_factor_run sq s df i w :
  selection_df s = Some df ->
  get_col (i ++ "_wins") df = Ret w ->
  zscore_factor sq s i =
  Ret (with_selection
         (set_col (i ++ "_zscore")
                  (map (fun x => fdiv (fsub x (series_mean w))
                                      (series_std sq w)) w) df) s).
Proof.
  intros Hd Hw. unfold zscore_factor. rewrite Hd. cbn [attr bind].
  rewrite Hw. reflexivity.
Qed.

Lemma add_score_run df i agg z :
  get_col "agg_score" df = Ret agg ->
  get_col i df = Ret z ->
  add_score df i =
  Ret (set_col "agg_score"
               (map (fun az => fadd (fst az) (snd az)) (combine agg z)) df).
Proof. intros Ha Hz. unfold add_score. rewrite Ha, Hz. reflexivity. Qed.

(** Non-finite values are absorbing for what the scorer does next. *)
Lemma fdiv_by_zero x y : is_zero y -> non_finite (fdiv x y).
Proof.
  destruct y as [q| | |]; simpl; try contradiction. intros Hq.
  unfold non_finite.
  destruct x as [a| | |]; simpl; try reflexivity.
  - apply Qeq_bool_iff in Hq. rewrite Hq.
    destruct (Z.sgn (Qnum a)); reflexivity.
  - destruct (Qlt_bool q 0); reflexivity.
  - destruct (Qlt_bool q 0); reflexivity.
Qed.

Lemma fadd_non_finite_l x y : non_finite x -> non_finite (fadd x y).
Proof. unfold non_finite. destruct x, y; simpl; congruence. Qed.

Lemma fadd_non_finite_r x y : non_finite y -> non_finite (fadd x y).
Proof. unfold non_finite. destruct x, y; simpl; congruence. Qed.

Lemma fdiv_count_non_finite x n :
  non_finite x -> non_finite (fdiv x (of_nat n)).
Proof.
  unfold non_finite, of_nat. destruct x as [a| | |]; simpl; try congruence;
    intros _.
  - assert (H : Qlt_bool (inject_Z (Z.of_nat n)) 0 = false).
    { unfold Qlt_bool. apply negb_false_iff, Qle_bool_iff.
      unfold Qle. simpl. lia. }
    rewrite H. reflexivity.
  - assert (H : Qlt_bool (inject_Z (Z.of_nat n)) 0 = false).
    { unfold Qlt_bool. apply negb_false_iff, Qle_bool_iff.
      unfold Qle. simpl. lia. }
    rewrite H. reflexivity.
Qed.

Lemma Forall_map_combine_l (A B C : Type) (P : A -> Prop) (Q : C -> Prop)
  (f : A * B -> C) l l' :
  (forall a b, P a -> Q (f (a, b))) ->
  Forall P l -> Forall Q (map f (combine l l')).
Proof.
  intros Hf Hl. apply Forall_forall. intros c Hc.
  apply in_map_iff in Hc. destruct Hc as [[a b] [<- Hin]].
  apply Hf. rewrite Forall_forall in Hl. apply Hl.
  eapply in_combine_l. exact Hin.
Qed.

Lemma Forall_map_combine_r (A B C : Type) (P : B -> Prop) (Q : C -> Prop)
  (f : A * B -> C) l l' :
  (forall a b, P b -> Q (f (a, b))) ->
  Forall P l' -> Forall Q (map f (combine l l')).
Proof.
  intros Hf Hl. apply Forall_forall. intros c Hc.
  apply in_map_iff in Hc. destruct Hc as [[a b] [<- Hin]].
  apply Hf. rewrite Forall_forall in Hl. apply Hl.
  eapply in_combine_r. exact Hin.
Qed.

(* ================================================================== *)
(** * Rounding and sums *)

Lemma Qlt_bool_iff a b : Qlt_bool a b = true <-> a < b.
Proof.
  unfold Qlt_bool. rewrite negb_true_iff. split.
  - intros H. apply Qnot_le_lt. intros Hle.
    apply Qle_bool_iff in Hle. congruence.
  - intros H. destruct (Qle_bool b a) eqn:E; [|reflexivity].
    apply Qle_bool_iff in E. exfalso. apply (Qlt_not_le _ _ H E).
Qed.

Lemma Qlt_bool_false a b : Qlt_bool a b = false <-> b <= a.
Proof.
  unfold Qlt_bool. rewrite negb_false_iff. apply Qle_bool_iff.
Qed.

(** Rounding half to even moves a number by at most one half. *)
Lemma round_half_even_error q :
  Qabs (inject_Z (round_half_even q) - q) <= 1 # 2.
Proof.
  unfold round_half_even.
  pose proof (Qfloor_le q) as Hlo. pose proof (Qlt_floor q) as Hhi.
  set (f := Qfloor q) in *.
  assert (Hf1 : inject_Z (f + 1) == inject_Z f + 1)
    by (rewrite inject_Z_plus; reflexivity).
  rewrite Hf1 in Hhi.
  destruct (Qlt_bool (q - inject_Z f) (1 # 2)) eqn:E1.
  - apply Qlt_bool_iff in E1. apply Qabs_Qle_condition. split; lra.
  - apply Qlt_bool_false in E1.
    destruct (Qlt_bool (1 # 2) (q - inject_Z f)) eqn:E2.
    + rewrite Hf1. apply Qabs_Qle_condition. split; lra.
    + apply Qlt_bool_false in E2.
      destruct (Z.even f); [|rewrite Hf1]; apply Qabs_Qle_condition;
        split; lra.
Qed.

Lemma np_round_3_error q :
  exists q', np_round (Fin q) 3 = Fin q' /\ Qabs (q' - q) <= 1 # 2000.
Proof.
  eexists. split; [reflexivity|].
  change (Z.pow 10 (Z.of_nat 3)) with 1000%Z.
  pose proof (round_half_even_error (q * inject_Z 1000)) as H.
  set (z := round_half_even (q * inject_Z 1000)) in *.
  change (Z.to_pos 1000) with 1000%positive.
  assert (Hz : z # 1000 == inject_Z z / inject_Z 1000).
  { unfold Qeq, Qdiv, Qmult, Qinv, inject_Z. simpl. lia. }
  rewrite Hz.
  apply Qabs_Qle_condition in H. destruct H as [H1 H2].
  apply Qabs_Qle_condition.
  change (inject_Z 1000) with (1000 # 1) in *.
  unfold Qdiv. change (/ (1000 # 1)) with (1 # 1000).
  set (x := inject_Z z) in *.
  split; lra.
Qed.

Lemma fold_left_Qplus l : forall a, fold_left Qplus l a == a + qsum l.
Proof.
  induction l as [|x l IH]; intros a; simpl.
  - ring.
  - rewrite IH. ring.
Qed.

Lemma nonneg_list l :
  Forall nonneg l ->
  exists qs, l = map Fin qs /\ Forall (fun q => 0 <= q) qs.
Proof.
  induction 1 as [|x l Hx _ [qs [-> Hqs]]].
  - exists []. split; [reflexivity | constructor].
  - destruct x as [q| | |]; simpl in Hx; try contradiction.
    exists (q :: qs). split; [reflexivity | constructor; assumption].
Qed.

(** The sum of finite values is the finite sum. *)
Lemma series_sum_Fin qs :
  exists q, series_sum (map Fin qs) = Fin q /\ q == qsum qs.
Proof.
  unfold series_sum.
  assert (Hf : filter (fun x => negb (is_nan x)) (map Fin qs) = map Fin qs).
  { induction qs as [|a qs IH]; simpl; [reflexivity | rewrite IH; reflexivity]. }
  rewrite Hf.
  assert (H : forall a, fold_left fadd (map Fin qs) (Fin a)
                        = Fin (fold_left Qplus qs a)).
  { clear. induction qs as [|b qs IH]; intros a; simpl;
      [reflexivity | apply IH]. }
  rewrite H. eexists. split; [reflexivity|].
  rewrite fold_left_Qplus. ring.
Qed.

Lemma qsum_nonneg qs : Forall (fun q => 0 <= q) qs -> 0 <= qsum qs.
Proof.
  induction 1 as [|q qs Hq _ IH]; simpl; [apply Qle_refl | lra].
Qed.

Lemma qsum_positive qs :
  Forall (fun q => 0 <= q) qs -> Exists (fun q => 0 < q) qs -> 0 < qsum qs.
Proof.
  intros Hall Hex. induction Hex as [q qs Hq | q qs _ IH]; simpl;
    inversion Hall as [|? ? Hq' Hqs]; subst.
  - pose proof (qsum_nonneg qs Hqs). lra.
  - specialize (IH Hqs). lra.
Qed.

Lemma qsum_scale qs t : qsum (map (fun a => a / t) qs) == qsum qs / t.
Proof.
  induction qs as [|a qs IH]; simpl.
  - unfold Qdiv. ring.
  - rewrite IH. unfold Qdiv. ring.
Qed.

(** Numbers that are pairwise within [eps] have sums within [n * eps]. *)
Lemma qsum_close eps : forall bs cs,
  Forall2 (fun b c => Qabs (b - c) <= eps) bs cs ->
  Qabs (qsum bs - qsum cs)
  <= inject_Z (Z.of_nat (List.length bs)) * eps.
Proof.
  induction 1 as [|b c bs cs Hbc _ IH].
  - cbn [List.length Z.of_nat]. rewrite Qmult_0_l. apply Qle_refl.
  - cbn [qsum fold_right List.length].
    rewrite Nat2Z.inj_succ, <- Z.add_1_r, inject_Z_plus.
    fold (qsum bs) (qsum cs).
    apply Qabs_Qle_condition in Hbc. apply Qabs_Qle_condition in IH.
    apply (proj2 (Qabs_Qle_condition _ _)).
    set (n := inject_Z (Z.of_nat (List.length bs))) in *.
    change (inject_Z 1) with 1.
    split; nra.
Qed.

(** The weights [_limit_cap] computes from non-negative adjusted market
    caps, one of them positive: finite, and adding up to 1 within the
    rounding slack. *)
Lemma weights_sum_bound adj :
  Forall nonneg adj -> Exists positive adj ->
  let ws := map (fun a => np_round (fdiv a (series_sum adj)) 3) adj in
  Forall nonneg ws /\
  exists q, series_sum ws = Fin q /\
            Qabs (q - 1) <= rounding_slack (List.length adj).
Proof.
  intros Hnn Hex.
  destruct (nonneg_list adj Hnn) as [qs [-> Hqs]].
  intros ws.
  assert (Hpos : Exists (fun q => 0 < q) qs).
  { apply Exists_exists in Hex. destruct Hex as [x [Hx Hp]].
    apply in_map_iff in Hx. destruct Hx as [q [<- Hq]].
    apply Exists_exists. exists q. split; [exact Hq | exact Hp]. }
  pose proof (qsum_positive qs Hqs Hpos) as HT.
  destruct (series_sum_Fin qs) as [t [Ht Hteq]].
  assert (Ht0 : 0 < t) by (rewrite Hteq; exact HT).
  assert (Hne : Qeq_bool t 0 = false).
  { destruct (Qeq_bool t 0) eqn:E; [|reflexivity].
    apply Qeq_bool_iff in E. lra. }
  set (rs := map (fun a => Qmake (round_half_even (a / t * inject_Z 1000)) 1000) qs).
  assert (Hws : ws = map Fin rs).
  { unfold ws, rs. rewrite Ht. rewrite !map_map.
    apply map_ext. intros a. simpl. rewrite Hne. reflexivity. }
  assert (Hclose : Forall2 (fun b c => Qabs (b - c) <= 1 # 2000) rs
                           (map (fun a => a / t) qs)).
  { unfold rs. clear. induction qs as [|a qs IH]; simpl; constructor; [|exact IH].
    destruct (np_round_3_error (a / t)) as [q' [Hq' Hb]].
    simpl in Hq'. injection Hq' as <-. exact Hb. }
  split.
  - rewrite Hws. apply Forall_forall. intros x Hx.
    apply in_map_iff in Hx. destruct Hx as [r [<- Hr]]. simpl.
    unfold rs in Hr. apply in_map_iff in Hr. destruct Hr as [a [<- Ha]].
    rewrite Forall_forall in Hqs. specialize (Hqs a Ha).
    assert (H0 : 0 <= a / t) by (apply Qle_shift_div_l; lra).
    assert (H1 : 0 <= a / t * inject_Z 1000).
    { change (inject_Z 1000) with (1000 # 1). nra. }
    unfold Qle. simpl. rewrite Z.mul_1_r.
    unfold round_half_even.
    pose proof (Qfloor_resp_le _ _ H1) as Hfl. change (Qfloor 0) with 0%Z in Hfl.
    destruct (Qlt_bool _ _); [lia|].
    destruct (Qlt_bool _ _); [lia|].
    destruct (Z.even _); lia.
  - destruct (series_sum_Fin rs) as [q [Hq Hqeq]].
    rewrite <- Hws in Hq. exists q. split; [exact Hq|].
    pose proof (qsum_close _ _ _ Hclose) as Hb.
    rewrite qsum_scale in Hb.
    assert (H1 : qsum qs / t == 1) by (rewrite <- Hteq; field; lra).
    rewrite H1 in Hb. rewrite Hqeq.
    unfold rounding_slack.
    replace (List.length (map Fin qs)) with (List.length rs); [exact Hb|].
    unfold rs. rewrite !length_map. reflexivity.
Qed.

(* ================================================================== *)
(** * The weighting stage: frames *)

Lemma foldM_inv_in {A S : Type} (P : S -> Prop) (f : S -> A -> outcome S) l :
  (forall s x s', In x l -> P s -> f s x = Ret s' -> P s') ->
  forall s s', P s -> foldM f l s = Ret s' -> P s'.
Proof.
  induction l as [|x l IH]; intros Hf s s' Hs H; simpl in H.
  - injection H as <-. exact Hs.
  - destruct (f s x) as [s1| |] eqn:E; simpl in H; try discriminate.
    apply (IH (fun s x s' Hin => Hf s x s' (or_intror Hin)) s1 s');
      [|exact H].
    apply (Hf s x s1); [left; reflexivity | exact Hs | exact E].
Qed.

Lemma combine_map_self (A B : Type) (h : A -> B) l :
  combine l (map h l) = map (fun x => (x, h x)) l.
Proof. induction l as [|x l IH]; simpl; [|rewrite IH]; reflexivity. Qed.

(** Assigning a column computed from another one, row by row. *)
Lemma rows_set_col_from_col name src f df ks :
  index_of src (columns df) = Some ks ->
  rows (set_col name (map (fun r => f (nth ks (vals r) NaN)) (rows df)) df)
  = map (fun r => row_put (index_of name (columns df))
                          (f (nth ks (vals r) NaN)) r)
        (rows df).
Proof.
  intros _. rewrite rows_set_col, combine_map_self, map_map. reflexivity.
Qed.

Lemma get_col_rows name df k :
  index_of name (columns df) = Some k ->
  get_col name df = Ret (map (fun r => nth k (vals r) NaN) (rows df)).
Proof. intros H. unfold get_col. rewrite H. reflexivity. Qed.

(** The column an assignment by label leaves behind. *)
Lemma get_col_loc_set_same lbl name v df k :
  wf_df df ->
  index_of name (columns df) = Some k ->
  get_col name (loc_set lbl name v df)
  = Ret (map (fun r => if Nat.eqb (label r) lbl then v
                       else nth k (vals r) NaN) (rows df)).
Proof.
  intros Hwf Hk. rewrite (loc_set_existing lbl name v df k Hk).
  unfold get_col. cbn [columns rows]. rewrite Hk, map_map. f_equal.
  apply map_ext_in. intros r Hr.
  destruct (Nat.eqb (label r) lbl); [|reflexivity].
  simpl. apply nth_set_nth_same.
  unfold wf_df in Hwf. rewrite Forall_forall in Hwf. rewrite (Hwf r Hr).
  eapply index_of_lt. exact Hk.
Qed.

Lemma row_last_nth r :
  vals r <> [] ->
  row_last r = Ret (nth (List.length (vals r) - 1) (vals r) NaN).
Proof.
  unfold row_last. intros Hne.
  destruct (vals r) as [|x l] using rev_ind; [congruence|].
  rewrite rev_app_distr. simpl. rewrite length_app. simpl.
  rewrite app_nth2 by lia.
  replace (List.length l + 1 - 1 - List.length l)%nat with 0%nat by lia.
  reflexivity.
Qed.

Lemma filter_nonempty (A : Type) (p : A -> bool) l :
  existsb p l = true -> filter p l <> [].
Proof.
  intros H. apply existsb_exists in H. destruct H as [x [Hin Hp]].
  intros Hnil.
  assert (Hx : In x (filter p l)) by (apply filter_In; split; assumption).
  rewrite Hnil in Hx. contradiction.
Qed.

Lemma existsb_map (A B : Type) (p : B -> bool) (g : A -> B) l :
  existsb p (map g l) = existsb (fun x => p (g x)) l.
Proof.
  induction l as [|x l IH]; simpl; [|rewrite IH]; reflexivity.
Qed.

(** A rounded share of a non-negative total is over a non-negative limit
    only for a positive amount. *)
Lemma over_limit_positive a tot limit d :
  nonneg a -> nonneg tot -> 0 <= limit ->
  fgt (np_round (fdiv a tot) d) (Fin limit) = true ->
  positive a.
Proof.
  destruct a as [a| | |]; simpl; try contradiction.
  destruct tot as [t| | |]; simpl; try contradiction.
  intros Ha Ht Hl H.
  destruct (Qlt_le_dec 0 a) as [Hpos | Hle]; [exact Hpos | exfalso].
  assert (Ha0 : a == 0) by lra.
  destruct (Qeq_bool t 0) eqn:E.
  - assert (Hn : Qnum a = 0%Z).
    { unfold Qeq in Ha0. simpl in Ha0. lia. }
    rewrite Hn in H. simpl in H. discriminate.
  - simpl in H. apply Qlt_bool_iff in H.
    assert (Hz : a / t * inject_Z (10 ^ Z.of_nat d) == 0)
      by (rewrite Ha0; unfold Qdiv; ring).
    assert (Hr : round_half_even (a / t * inject_Z (10 ^ Z.of_nat d)) = 0%Z).
    { unfold round_half_even.
      rewrite (Qfloor_comp _ _ Hz). change (Qfloor 0) with 0%Z.
      assert (H1 : Qlt_bool (a / t * inject_Z (10 ^ Z.of_nat d) - inject_Z 0)
                            (1 # 2) = true).
      { apply Qlt_bool_iff. rewrite Hz. reflexivity. }
      rewrite H1. reflexivity. }
    rewrite Hr in H. unfold Qlt in H. simpl in H.
    unfold Qle in Hl. simpl in Hl. lia.
Qed.

(* ================================================================== *)
(** * The weighting stage: what every round preserves *)

Lemma positive_nonneg x : positive x -> nonneg x.
Proof. destruct x; simpl; try contradiction. apply Qlt_le_weak. Qed.

(** [(1/n_over) * mc_s] is positive when [mc_s] is. *)
Lemma share_positive n v :
  (1 <= n)%nat -> positive v ->
  exists x, py_div (Fin 1) (of_nat n) = Ret x /\ positive (fmul x v).
Proof.
  intros Hn Hv. destruct v as [q| | |]; simpl in Hv; try contradiction.
  assert (Hpos : 0 < inject_Z (Z.of_nat n)).
  { unfold Qlt. simpl. lia. }
  assert (Hne : Qeq_bool (inject_Z (Z.of_nat n)) 0 = false).
  { destruct (Qeq_bool _ 0) eqn:E; [|reflexivity].
    apply Qeq_bool_iff in E. lra. }
  unfold py_div, of_nat. rewrite Hne. simpl. rewrite Hne.
  eexists. split; [reflexivity|]. simpl.
  apply Qmult_lt_0_compat; [|exact Hv].
  apply Qlt_shift_div_l; [exact Hpos | lra].
Qed.

Lemma get_col_index name df vs :
  get_col name df = Ret vs -> exists k, index_of name (columns df) = Some k.
Proof.
  unfold get_col. destruct (index_of name (columns df)) as [k|];
    [exists k; reflexivity | discriminate].
Qed.

(** One assignment [df.loc[lbl, 'adj_mc'] = v] with [v] positive. *)
Lemma loc_set_adj lbl v df k adj :
  wf_df df ->
  index_of "adj_mc" (columns df) = Some k ->
  get_col "adj_mc" df = Ret adj -> Forall nonneg adj ->
  positive v ->
  wf_df (loc_set lbl "adj_mc" v df) /\
  columns (loc_set lbl "adj_mc" v df) = columns df /\
  map label (rows (loc_set lbl "adj_mc" v df)) = map label (rows df) /\
  exists adj',
    get_col "adj_mc" (loc_set lbl "adj_mc" v df) = Ret adj' /\
    Forall nonneg adj' /\
    (In lbl (map label (rows df)) -> Exists positive adj').
Proof.
  intros Hwf Hk Hadj Hnn Hv.
  split; [apply wf_loc_set; exact Hwf|].
  split; [rewrite columns_loc_set, Hk; reflexivity|].
  split; [apply labels_loc_set|].
  rewrite (get_col_loc_set_same lbl "adj_mc" v df k Hwf Hk).
  eexists. split; [reflexivity|].
  rewrite (get_col_rows _ _ _ Hk) in Hadj. injection Hadj as <-.
  split.
  - apply Forall_forall. intros x Hx. apply in_map_iff in Hx.
    destruct Hx as [r [<- Hr]].
    destruct (Nat.eqb (label r) lbl); [apply positive_nonneg; exact Hv|].
    rewrite Forall_forall in Hnn. apply Hnn.
    apply in_map_iff. exists r. split; [reflexivity | exact Hr].
  - intros Hin. apply in_map_iff in Hin. destruct Hin as [r [Hl Hr]].
    apply Exists_exists. exists v. split; [|exact Hv].
    apply in_map_iff. exists r. split; [|exact Hr].
    rewrite Hl, Nat.eqb_refl. reflexivity.
Qed.

(** The [for] of [_limit_cap]. *)
Lemma adjust_over_rows n_over : forall rs df df1,
  (1 <= n_over)%nat ->
  wf_df df ->
  (exists adj, get_col "adj_mc" df = Ret adj /\ Forall nonneg adj) ->
  rs <> [] ->
  Forall (fun r => In (label r) (map label (rows df)) /\
                   exists v, row_last r = Ret v /\ positive v) rs ->
  foldM (fun df r =>
           mc_s <- row_last r ;;
           share <- py_div (Fin 1) (of_nat n_over) ;;
           Ret (loc_set (label r) "adj_mc" (fmul share mc_s) df)) rs df
  = Ret df1 ->
  wf_df df1 /\ columns df1 = columns df /\
  map label (rows df1) = map label (rows df) /\
  exists adj1, get_col "adj_mc" df1 = Ret adj1 /\ Forall nonneg adj1 /\
               Exists positive adj1.
Proof.
  induction rs as [|r rs IH]; intros df df1 Hn Hwf [adj [Hadj Hnn]] Hne Hrs H;
    [congruence|].
  inversion Hrs as [|? ? [Hlbl [v [Hv Hpos]]] Hrs']; subst.
  destruct (get_col_index _ _ _ Hadj) as [k Hk].
  destruct (share_positive n_over v Hn Hpos) as [x [Hx Hxv]].
  set (f := fun (df : DataFrame) (r : Row) =>
              mc_s <- row_last r ;;
              share <- py_div (Fin 1) (of_nat n_over) ;;
              Ret (loc_set (label r) "adj_mc" (fmul share mc_s) df)) in *.
  cbn [foldM] in H.
  assert (Hf : f df r = Ret (loc_set (label r) "adj_mc" (fmul x v) df)).
  { unfold f. rewrite Hv. cbn [bind]. rewrite Hx. reflexivity. }
  rewrite Hf in H. cbn [bind] in H.
  destruct (loc_set_adj (label r) (fmul x v) df k adj Hwf Hk Hadj Hnn Hxv)
    as [Hwf' [Hc' [Hl' [adj' [Hadj' [Hnn' Hex']]]]]].
  destruct rs as [|r' rs].
  - cbn [foldM] in H. injection H as <-.
    split; [exact Hwf'|]. split; [exact Hc'|]. split; [exact Hl'|].
    exists adj'. split; [exact Hadj'|]. split; [exact Hnn'|].
    apply Hex'. exact Hlbl.
  - destruct (IH _ df1 Hn Hwf') as [Hwf1 [Hc1 [Hl1 Hadj1]]].
    + exists adj'. split; assumption.
    + discriminate.
    + rewrite Hl'. exact Hrs'.
    + exact H.
    + split; [exact Hwf1|]. split; [congruence|]. split; [congruence|].
      exact Hadj1.
Qed.

(** What [_limit_cap] returns when a round starts as [capping_inv] says. *)
Lemma limit_cap_inv over non_over lw s s' df :
  selected_stocks s = Some df -> capping_inv df over ->
  _limit_cap over non_over lw s = Ret s' ->
  exists df' adj ws,
    selected_stocks s' = Some df' /\ wf_df df' /\
    map label (rows df') = map label (rows df) /\
    get_col "adj_mc" df' = Ret adj /\ Forall nonneg adj /\
    Exists positive adj /\
    get_col "adj_mc_weight" df' = Ret ws /\
    ws = map (fun a => np_round (fdiv a (series_sum adj)) 3) adj /\
    index_of "adj_mc_weight" (columns df')
    = Some (List.length (columns df') - 1)%nat.
Proof.
  intros Hd [Hwf [Hadj [Hlast [Hne Hrs]]]] H.
  unfold _limit_cap in H. bind_inv H. bind_inv H. rewrite Hd in H.
  cbn [attr bind] in H. bind_inv H. bind_inv H. injection H as <-.
  assert (Hn : (1 <= nrows over)%nat).
  { unfold nrows. destruct (rows over); [congruence | simpl; lia]. }
  destruct (adjust_over_rows (nrows over) (rows over) df a1 Hn Hwf Hadj Hne
              Hrs E1) as [Hwf1 [Hc1 [Hl1 [adj1 [Hadj1 [Hnn1 Hex1]]]]]].
  rewrite Hadj1 in E2. injection E2 as <-.
  set (ws := map (fun a => np_round (fdiv a (series_sum adj1)) 3) adj1).
  assert (Hlen : List.length ws = nrows a1).
  { unfold ws. rewrite length_map. eapply length_get_col. exact Hadj1. }
  destruct (set_col_frame "adj_mc_weight" ws a1 Hwf1 Hlen)
    as [Hwf' [Hn' [Hsame Hother]]].
  exists (set_col "adj_mc_weight" ws a1), adj1, ws.
  split; [reflexivity|]. split; [exact Hwf'|].
  split; [rewrite labels_set_col by exact Hlen; exact Hl1|].
  split; [rewrite Hother by discriminate; exact Hadj1|].
  split; [exact Hnn1|]. split; [exact Hex1|].
  split; [exact Hsame|]. split; [reflexivity|].
  rewrite columns_set_col, Hc1.
  destruct Hlast as [Hnone | Hsome].
  - rewrite Hnone, (index_of_app_new _ _ Hnone), length_app. simpl.
    f_equal. lia.
  - rewrite Hsome. exact Hsome.
Qed.

Lemma not_over_limit w limit :
  nonneg w -> fgt w (Fin limit) = false -> qval w <= limit.
Proof.
  destruct w as [q| | |]; simpl; try contradiction.
  intros _ H. apply Qlt_bool_false in H. exact H.
Qed.

Lemma over_limit w limit :
  nonneg w -> 0 <= limit -> fgt w (Fin limit) = true -> positive w.
Proof.
  destruct w as [q| | |]; simpl; try contradiction.
  intros _ Hl H. apply Qlt_bool_iff in H. lra.
Qed.

(** The frames of the next round satisfy [capping_inv] again. *)
Lemma split_over_inv limit df ws over non_over :
  wf_df df ->
  (exists adj, get_col "adj_mc" df = Ret adj /\ Forall nonneg adj) ->
  get_col "adj_mc_weight" df = Ret ws -> Forall nonneg ws ->
  index_of "adj_mc_weight" (columns df)
  = Some (List.length (columns df) - 1)%nat ->
  0 <= limit ->
  existsb (fun x => fgt x (Fin limit)) ws = true ->
  split_over "adj_mc_weight" limit df = Ret (over, non_over) ->
  capping_inv df over.
Proof.
  intros Hwf Hadj Hws Hnn Hk Hl Hex H.
  unfold split_over, loc_mask in H. rewrite Hk in H. cbn [bind] in H.
  injection H as <- _.
  rewrite (get_col_rows _ _ _ Hk) in Hws. injection Hws as <-.
  split; [exact Hwf|]. split; [exact Hadj|].
  split; [right; exact Hk|].
  cbn [rows]. split.
  - apply filter_nonempty. rewrite existsb_map in Hex. exact Hex.
  - apply Forall_forall. intros r Hr. apply filter_In in Hr.
    destruct Hr as [Hr Hp]. split; [apply in_map; exact Hr|].
    unfold wf_df in Hwf. rewrite Forall_forall in Hwf.
    pose proof (Hwf r Hr) as Hlen.
    pose proof (index_of_lt _ _ _ Hk) as Hlt.
    assert (Hne : vals r <> []).
    { intros Hnil. rewrite Hnil in Hlen. simpl in Hlen. lia. }
    rewrite (row_last_nth r Hne), Hlen.
    eexists. split; [reflexivity|].
    apply over_limit with (limit := limit); [|exact Hl | exact Hp].
    rewrite Forall_forall in Hnn. apply Hnn.
    apply in_map_iff. exists r. split; [reflexivity | exact Hr].
Qed.

Lemma existsb_false_Forall (A : Type) (p : A -> bool) l :
  existsb p l = false -> Forall (fun x => p x = false) l.
Proof.
  induction l as [|x l IH]; simpl; intros H; constructor.
  - apply orb_false_iff in H. tauto.
  - apply IH. apply orb_false_iff in H. tauto.
Qed.

(** One round of the loop. *)
Lemma capping_round_inv limit over non_over s s' next df :
  selected_stocks s = Some df -> capping_inv df over -> 0 <= limit ->
  capping_round limit over non_over s = Ret (s', next) ->
  exists df',
    selected_stocks s' = Some df' /\ nrows df' = nrows df /\
    match next with
    | Some (over', _) => capping_inv df' over'
    | None => exists ws, get_col "adj_mc_weight" df' = Ret ws /\
                         capped_weights limit (nrows df) ws
    end.
Proof.
  intros Hd Hinv Hl H. unfold capping_round in H. bind_inv H.
  destruct (limit_cap_inv _ _ _ _ _ _ Hd Hinv E)
    as [df' [adj [ws [Hd' [Hwf' [Hl' [Hadj [Hnn [Hex [Hws [Hwsdef Hk]]]]]]]]]]].
  rewrite Hd' in H. cbn [attr bind] in H. rewrite Hws in H. cbn [bind] in H.
  assert (Hn : nrows df' = nrows df).
  { unfold nrows. rewrite <- (length_map label), Hl'. apply length_map. }
  destruct (weights_sum_bound adj Hnn Hex) as [Hwnn [q [Hq Hb]]].
  rewrite <- Hwsdef in Hwnn, Hq.
  assert (Hlen : List.length ws = nrows df).
  { rewrite <- Hn. eapply length_get_col. exact Hws. }
  assert (Hlen' : List.length adj = nrows df).
  { rewrite <- Hn. eapply length_get_col. exact Hadj. }
  destruct (existsb (fun x => fgt x (Fin limit)) ws) eqn:Eo; cbn [negb] in H.
  - bind_inv H. injection H as <- <-. destruct a0 as [over' non'].
    exists df'. split; [exact Hd'|]. split; [exact Hn|].
    apply (split_over_inv limit df' ws over' non'); try assumption.
    exists adj. split; assumption.
  - injection H as <- <-.
    exists df'. split; [exact Hd'|]. split; [exact Hn|].
    exists ws. split; [exact Hws|].
    split; [exact Hlen|]. split.
    + apply existsb_false_Forall in Eo.
      rewrite Forall_forall in *. intros w Hw.
      split; [apply Hwnn; exact Hw|].
      apply not_over_limit; [apply Hwnn | apply Eo]; exact Hw.
    + exists q. split; [exact Hq|]. rewrite <- Hlen'. exact Hb.
Qed.

(** The loop, whenever it ends. *)
Lemma capping_loop_inv fuel : forall limit over non_over s s' df,
  selected_stocks s = Some df -> capping_inv df over -> 0 <= limit ->
  capping_loop fuel limit over non_over s = Ret s' ->
  exists ws, selected_col "adj_mc_weight" s' = Ret ws /\
             capped_weights limit (nrows df) ws.
Proof.
  induction fuel as [|fuel IH]; intros limit over non_over s s' df Hd Hinv Hl H;
    simpl in H; [discriminate|].
  bind_inv H. destruct a as [s1 next]. cbn [fst snd] in H.
  destruct (capping_round_inv _ _ _ _ _ _ _ Hd Hinv Hl E)
    as [df' [Hd' [Hn Hnext]]].
  destruct next as [[over' non']|].
  - rewrite <- Hn. eapply IH; eassumption.
  - injection H as <-. destruct Hnext as [ws [Hws Hcap]].
    exists ws. split; [|exact Hcap].
    unfold selected_col. rewrite Hd'. exact Hws.
Qed.

(* ================================================================== *)
(** * The weighting stage: entering the loop *)

(** One assignment [df.loc[lbl, name] = v], for a property [P] of the
    values of the column that [v] has too. *)
Lemma loc_set_col (P : f64 -> Prop) lbl name v df k vs :
  wf_df df ->
  index_of name (columns df) = Some k ->
  get_col name df = Ret vs -> Forall P vs -> P v ->
  wf_df (loc_set lbl name v df) /\
  columns (loc_set lbl name v df) = columns df /\
  map label (rows (loc_set lbl name v df)) = map label (rows df) /\
  exists vs',
    get_col name (loc_set lbl name v df) = Ret vs' /\ Forall P vs'.
Proof.
  intros Hwf Hk Hvs HP Hv.
  split; [apply wf_loc_set; exact Hwf|].
  split; [rewrite columns_loc_set, Hk; reflexivity|].
  split; [apply labels_loc_set|].
  rewrite (get_col_loc_set_same lbl name v df k Hwf Hk).
  eexists. split; [reflexivity|].
  rewrite (get_col_rows _ _ _ Hk) in Hvs. injection Hvs as <-.
  apply Forall_forall. intros x Hx. apply in_map_iff in Hx.
  destruct Hx as [r [<- Hr]].
  destruct (Nat.eqb (label r) lbl); [exact Hv|].
  rewrite Forall_forall in HP. apply HP.
  apply in_map_iff. exists r. split; [reflexivity | exact Hr].
Qed.

Lemma series_sum_nonneg l : Forall nonneg l -> nonneg (series_sum l).
Proof.
  intros H. destruct (nonneg_list l H) as [qs [-> Hqs]].
  destruct (series_sum_Fin qs) as [q [-> Hq]]. simpl.
  rewrite Hq. apply qsum_nonneg. exact Hqs.
Qed.

(** The frame [raw_weights] builds: the column [mc] holds what the
    provider gave, the column [mc_weight] the rounded shares. *)
Lemma raw_weights_frame self df0 obj dfr :
  selected_stocks self = Some df0 ->
  wf_df df0 ->
  index_of "mc" (columns df0) = None ->
  idx80_obj self = Some obj ->
  (forall t x, In t (tickers_of df0) -> fetch_mc obj t = Ret x -> nonneg x) ->
  raw_weights self = Ret dfr ->
  exists dfm mcs,
    wf_df dfm /\
    columns dfm = (columns df0 ++ ["mc"%string])%list /\
    map label (rows dfm) = map label (rows df0) /\
    get_col "mc" dfm = Ret mcs /\ Forall nonneg mcs /\
    dfr = set_col "mc_weight"
                  (map (fun m => np_round (fdiv m (series_sum mcs)) 2) mcs) dfm.
Proof.
  intros Hd Hwf Hmc Ho Hpos H. unfold raw_weights in H.
  rewrite Ho, Hd in H. cbn [attr bind] in H.
  set (dfz := set_col "mc" (repeat (Fin 0) (nrows df0)) df0) in *.
  assert (Hlz : List.length (repeat (Fin 0) (nrows df0)) = nrows df0)
    by apply repeat_length.
  destruct (set_col_frame "mc" _ df0 Hwf Hlz) as [Hwfz [Hnz [Hsz _]]].
  fold dfz in Hwfz, Hnz, Hsz.
  assert (Hcz : columns dfz = (columns df0 ++ ["mc"%string])%list)
    by (unfold dfz; rewrite columns_set_col, Hmc; reflexivity).
  assert (Htz : tickers_of dfz = tickers_of df0)
    by (apply tickers_set_col; exact Hlz).
  assert (Hlabz : map label (rows dfz) = map label (rows df0))
    by (apply labels_set_col; exact Hlz).
  bind_inv H. bind_inv H. injection H as <-.
  assert (Hinv : wf_df a /\ columns a = columns dfz /\
                 map label (rows a) = map label (rows dfz) /\
                 exists mcs, get_col "mc" a = Ret mcs /\ Forall nonneg mcs).
  { revert E.
    apply (foldM_inv_in
             (fun df => wf_df df /\ columns df = columns dfz /\
                        map label (rows df) = map label (rows dfz) /\
                        exists mcs, get_col "mc" df = Ret mcs /\
                                    Forall nonneg mcs)).
    - intros df [k t] df' Hin [Hw [Hc [Hl [mcs [Hm Hnn]]]]] Hstep.
      cbn [fst snd] in Hstep. bind_inv Hstep. injection Hstep as <-.
      assert (Ht : In t (tickers_of df0)).
      { rewrite <- Htz. eapply in_combine_r. exact Hin. }
      pose proof (Hpos t a1 Ht E) as Hv.
      destruct (get_col_index _ _ _ Hm) as [km Hkm].
      destruct (loc_set_col nonneg k "mc" a1 df km mcs Hw Hkm Hm Hnn Hv)
        as [Hw' [Hc' [Hl' Hm']]].
      split; [exact Hw'|]. split; [congruence|]. split; [congruence|].
      exact Hm'.
    - split; [exact Hwfz|]. split; [reflexivity|]. split; [reflexivity|].
      exists (repeat (Fin 0) (nrows df0)). split; [exact Hsz|].
      apply Forall_forall. intros x Hx. apply repeat_spec in Hx. subst x.
      simpl. apply Qle_refl. }
  destruct Hinv as [Hwa [Hca [Hla [mcs [Hm Hnn]]]]].
  rewrite Hm in E0. injection E0 as <-.
  exists a, mcs. split; [exact Hwa|]. split; [congruence|].
  split; [congruence|]. split; [exact Hm|]. split; [exact Hnn | reflexivity].
Qed.

(** The first pair of frames satisfies [capping_inv]: a stock whose rounded
    raw weight is over the limit has a positive market cap, and that is what
    the first round reads as [rows[-1]]. *)
Lemma entry_inv limit dfm mcs over non_over :
  wf_df dfm ->
  index_of "mc_weight" (columns dfm) = None ->
  index_of "adj_mc" (columns dfm) = None ->
  index_of "adj_mc_weight" (columns dfm) = None ->
  get_col "mc" dfm = Ret mcs -> Forall nonneg mcs -> 0 <= limit ->
  let f := fun m => np_round (fdiv m (series_sum mcs)) 2 in
  let dfr := set_col "mc_weight" (map f mcs) dfm in
  existsb (fun x => fgt x (Fin limit)) (map f mcs) = true ->
  split_over "mc_weight" limit (set_col "adj_mc" mcs dfr)
  = Ret (over, non_over) ->
  capping_inv (set_col "adj_mc" mcs dfr) over.
Proof.
  intros Hwf Hw0 Ha0 Haw0 Hmc Hnn Hl f dfr Hex H.
  destruct (get_col_index _ _ _ Hmc) as [km Hkm].
  pose proof (index_of_lt _ _ _ Hkm) as Hkmlt.
  pose proof (length_get_col _ _ _ Hmc) as Hlen.
  assert (Hmcs : mcs = map (fun r => nth km (vals r) NaN) (rows dfm)).
  { rewrite (get_col_rows _ _ _ Hkm) in Hmc. injection Hmc as <-. reflexivity. }
  assert (Hflen : List.length (map f mcs) = nrows dfm)
    by (rewrite length_map; exact Hlen).
  destruct (set_col_frame "mc_weight" (map f mcs) dfm Hwf Hflen)
    as [Hwfr [Hnr [Hsr Hor]]]. fold dfr in Hwfr, Hnr, Hsr, Hor.
  assert (Hcr : columns dfr = (columns dfm ++ ["mc_weight"%string])%list)
    by (unfold dfr; rewrite columns_set_col, Hw0; reflexivity).
  assert (Hrr : rows dfr
                = map (fun r => row_put None (f (nth km (vals r) NaN)) r)
                      (rows dfm)).
  { unfold dfr. rewrite Hmcs at 1. rewrite map_map.
    rewrite (rows_set_col_from_col "mc_weight" "mc" f dfm km Hkm), Hw0.
    reflexivity. }
  assert (Hkmr : index_of "mc" (columns dfr) = Some km)
    by (rewrite Hcr; apply index_of_app_old; exact Hkm).
  assert (Hmcr : get_col "mc" dfr = Ret mcs)
    by (rewrite Hor by discriminate; exact Hmc).
  assert (Hmcs' : mcs = map (fun r => (fun x => x) (nth km (vals r) NaN))
                            (rows dfr)).
  { rewrite (get_col_rows _ _ _ Hkmr) in Hmcr. injection Hmcr as <-.
    reflexivity. }
  assert (Har : index_of "adj_mc" (columns dfr) = None).
  { rewrite Hcr, index_of_app_other by discriminate. exact Ha0. }
  set (dfe := set_col "adj_mc" mcs dfr) in *.
  assert (Hlen' : List.length mcs = nrows dfr) by (rewrite Hnr; exact Hlen).
  destruct (set_col_frame "adj_mc" mcs dfr Hwfr Hlen')
    as [Hwfe [Hne [Hse Hoe]]]. fold dfe in Hwfe, Hne, Hse, Hoe.
  assert (Hce : columns dfe
                = ((columns dfm ++ ["mc_weight"%string])
                   ++ ["adj_mc"%string])%list)
    by (unfold dfe; rewrite columns_set_col, Har, Hcr; reflexivity).
  assert (Hre : rows dfe
                = map (fun r => row_put None (nth km (vals r) NaN) r)
                      (rows dfr)).
  { unfold dfe. rewrite Hmcs' at 1.
    rewrite (rows_set_col_from_col "adj_mc" "mc" (fun x => x) dfr km Hkmr), Har.
    reflexivity. }
  assert (Hkw : index_of "mc_weight" (columns dfe)
                = Some (List.length (columns dfm))).
  { rewrite Hce. apply index_of_app_old, index_of_app_new. exact Hw0. }
  (* the rows of [dfe], one by one *)
  assert (Hrow : forall re, In re (rows dfe) ->
             exists r, In r (rows dfm) /\ label re = label r /\
               nth (List.length (columns dfm)) (vals re) NaN
               = f (nth km (vals r) NaN) /\
               row_last re = Ret (nth km (vals r) NaN)).
  { intros re Hre'. rewrite Hre, Hrr, map_map in Hre'.
    apply in_map_iff in Hre'. destruct Hre' as [r [<- Hr]].
    exists r. split; [exact Hr|]. split; [reflexivity|].
    unfold wf_df in Hwf. rewrite Forall_forall in Hwf.
    pose proof (Hwf r Hr) as Hvl. cbn [row_put vals].
    assert (Hm : nth km (vals r ++ [f (nth km (vals r) NaN)]) NaN
                 = nth km (vals r) NaN)
      by (apply app_nth1; rewrite Hvl; exact Hkmlt).
    rewrite Hm. split.
    - rewrite app_nth1 by (rewrite length_app; simpl; lia).
      rewrite app_nth2 by lia. rewrite Hvl, Nat.sub_diag. reflexivity.
    - unfold row_last. cbn [vals]. rewrite rev_app_distr. reflexivity. }
  unfold split_over, loc_mask in H. rewrite Hkw in H. cbn [bind] in H.
  injection H as <- _.
  split; [exact Hwfe|].
  split; [exists mcs; split; [exact Hse | exact Hnn]|].
  split.
  { left. rewrite Hce, !index_of_app_other by discriminate. exact Haw0. }
  cbn [rows]. split.
  - apply existsb_exists in Hex. destruct Hex as [x [Hx Hp]].
    rewrite Hmcs, map_map in Hx. apply in_map_iff in Hx.
    destruct Hx as [r [<- Hr]].
    set (re := row_put None (nth km (vals (row_put None (f (nth km (vals r) NaN)) r)) NaN)
                       (row_put None (f (nth km (vals r) NaN)) r)).
    assert (Hin : In re (rows dfe)).
    { rewrite Hre, Hrr, map_map. apply in_map_iff. exists r.
      split; [reflexivity | exact Hr]. }
    destruct (Hrow re Hin) as [r' [Hr' [_ [Hv _]]]].
    intros Hnil.
    assert (Hf : In re (filter (fun r0 => fgt (nth (List.length (columns dfm))
                                                   (vals r0) NaN) (Fin limit))
                               (rows dfe))).
    { apply filter_In. split; [exact Hin|].
      unfold re at 1. cbn [row_put vals].
      unfold wf_df in Hwf. rewrite Forall_forall in Hwf.
      pose proof (Hwf r Hr) as Hvl.
      rewrite app_nth1 by (rewrite length_app; simpl; lia).
      rewrite app_nth2 by lia. rewrite Hvl, Nat.sub_diag. exact Hp. }
    apply (in_nil (a := re)). rewrite <- Hnil. exact Hf.
  - apply Forall_forall. intros re Hre'. apply filter_In in Hre'.
    destruct Hre' as [Hin Hp].
    destruct (Hrow re Hin) as [r [Hr [_ [Hv Hlast]]]].
    split; [apply in_map; exact Hin|].
    exists (nth km (vals r) NaN). split; [exact Hlast|].
    rewrite Hv in Hp.
    apply (over_limit_positive _ (series_sum mcs) limit 2);
      [| apply series_sum_nonneg; exact Hnn | exact Hl | exact Hp].
    rewrite Forall_forall in Hnn. apply Hnn. rewrite Hmcs.
    apply in_map_iff. exists r. split; [reflexivity | exact Hr].
Qed.

Lemma rounding_slack_30 n : (n <= 30)%nat -> rounding_slack n <= 15 # 1000.
Proof.
  intros H. unfold rounding_slack.
  assert (Hn : inject_Z (Z.of_nat n) <= 30).
  { unfold Qle. simpl. lia. }
  lra.
Qed.

(* ================================================================== *)
(** * What the defects look like in general *)

Lemma length_sort_desc ser : List.length (sort_desc ser) = List.length ser.
Proof. apply length_sort_by. Qed.

(** [_winsorisation] reads rank 3 of every column: with fewer than four
    rows it raises, whatever alpha is. *)
Lemma winsorisation_needs_four_rows alpha s df c cs :
  selection_df s = Some df ->
  col_name s = c :: cs ->
  index_of c (columns df) <> None ->
  (nrows df < 4)%nat ->
  _winsorisation alpha s = Raise IndexError.
Proof.
  intros Hd Hc Hk Hn. unfold _winsorisation. rewrite Hc. cbn [foldM].
  unfold winsorise_factor at 1. rewrite Hd. cbn [attr bind].
  unfold get_series. destruct (index_of c (columns df)) as [k|]; [|congruence].
  cbn [bind]. unfold iloc_get at 1.
  rewrite length_sort_desc, length_map. fold (nrows df).
  unfold iloc_pos.
  replace (3 <? Z.of_nat (nrows df))%Z with false
    by (symmetry; apply Z.ltb_ge; lia).
  rewrite andb_false_r. cbn [Z.ltb Z.compare andb]. rewrite andb_false_r.
  reflexivity.
Qed.

(** A universe with fewer than four stocks that have both factors gets no
    index. *)
Lemma small_universe_gets_no_index yf sq fuel kode s :
  stages_1_3 yf (init kode) = Ret s ->
  (List.length (selection_tickers s) < 4)%nat ->
  generate_index yf sq fuel (init kode) = Raise IndexError.
Proof.
  intros H3 Hn.
  destruct (stages_1_3_state yf kode s H3) as [df [Hd [Hcols [_ [_ Hcn]]]]].
  assert (Hw : _winsorisation alpha_default s = Raise IndexError).
  { apply (winsorisation_needs_four_rows _ s df "PE"%string ["PBV"%string]);
      try assumption.
    - rewrite Hcols. discriminate.
    - unfold selection_tickers in Hn. rewrite Hd in Hn.
      unfold tickers_of in Hn. rewrite length_map in Hn. exact Hn. }
  unfold generate_index. unfold stages_1_3 in H3.
  destruct (_adjust_ticker (init kode)) as [s1| |]; cbn [bind] in *;
    try discriminate.
  destruct (_query_data yf s1) as [s2| |]; cbn [bind] in *; try discriminate.
  rewrite H3. cbn [bind]. unfold _agg_zscore, _zscore. rewrite Hw. reflexivity.
Qed.

(** Outside the columns it assigns, [raw_weights] leaves the header as it
    was. *)
Lemma raw_weights_columns self df0 dfr c :
  selected_stocks self = Some df0 ->
  raw_weights self = Ret dfr ->
  c <> "mc"%string -> c <> "mc_weight"%string ->
  index_of c (columns dfr) = index_of c (columns df0).
Proof.
  intros Hd H Hc1 Hc2. unfold raw_weights in H. bind_inv H.
  rewrite Hd in H. cbn [attr bind] in H. bind_inv H. bind_inv H.
  injection H as <-.
  rewrite index_of_set_col_other by exact Hc2.
  revert E0.
  apply (foldM_inv (fun df => index_of c (columns df)
                              = index_of c (columns df0))).
  - intros df it df' Hdf Hstep. bind_inv Hstep. injection Hstep as <-.
    rewrite columns_loc_set.
    destruct (index_of "mc" (columns df)); [exact Hdf|].
    rewrite index_of_app_other by exact Hc1. exact Hdf.
  - apply index_of_set_col_other. exact Hc1.
Qed.

(** Whenever no rounded raw weight is over the limit, the weighting stage
    returns without the column [adj_mc_weight], and reading it, as
    [generate_index] does next, raises. *)
Lemma uncapped_run_has_no_adjusted_weight fuel limit self df0 :
  selected_stocks self = Some df0 ->
  index_of "adj_mc_weight" (columns df0) = None ->
  over_cap limit self = Ret false ->
  exists dfr,
    _get_each_weight fuel limit self = Ret (with_selected dfr self) /\
    project "adj_mc_weight" dfr = Raise (KeyError "adj_mc_weight").
Proof.
  intros Hd Hfresh Hover.
  rewrite (get_each_weight_skips fuel limit self Hover).
  unfold over_cap in Hover.
  destruct (raw_weights self) as [dfr| |] eqn:E; cbn [bind] in *;
    try discriminate.
  exists dfr. split; [reflexivity|].
  unfold project.
  rewrite (raw_weights_columns self df0 dfr _ Hd E) by discriminate.
  rewrite Hfresh. reflexivity.
Qed.

(* ================================================================== *)
(** * The selector *)

Lemma fle_sort_total x y : fle_sort x y = true \/ fle_sort y x = true.
Proof.
  destruct x as [a| | |], y as [b| | |]; simpl; auto.
  unfold Qlt_bool. rewrite !negb_involutive.
  destruct (Qle_bool a b) eqn:E; [left; reflexivity | right].
  apply Qle_bool_iff. apply Qlt_le_weak. apply Qnot_le_lt.
  intros H. apply Qle_bool_iff in H. congruence.
Qed.

Lemma fle_sort_trans x y z :
  fle_sort x y = true -> fle_sort y z = true -> fle_sort x z = true.
Proof.
  destruct x as [a| | |], y as [b| | |], z as [c| | |]; simpl; auto;
    try discriminate.
  unfold Qlt_bool. rewrite !negb_involutive.
  intros H1 H2. apply Qle_bool_iff in H1. apply Qle_bool_iff in H2.
  apply Qle_bool_iff. eapply Qle_trans; eassumption.
Qed.

(** The insertion sort sorts, for a total order. *)
Lemma insert_by_sorted (A : Type) (leb : A -> A -> bool) x l :
  (forall a b, leb a b = true \/ leb b a = true) ->
  Sorted (fun a b => leb a b = true) l ->
  Sorted (fun a b => leb a b = true) (insert_by leb x l).
Proof.
  intros Htot. induction 1 as [|y l Hs IH Hhd]; simpl.
  - repeat constructor.
  - destruct (leb x y) eqn:E.
    + constructor; [constructor; assumption | constructor; exact E].
    + constructor; [exact IH|].
      destruct l as [|z l]; simpl.
      * constructor. destruct (Htot x y); congruence.
      * destruct (leb x z).
        -- constructor. destruct (Htot x y); congruence.
        -- inversion Hhd; subst. constructor. assumption.
Qed.

Lemma sort_by_sorted (A : Type) (leb : A -> A -> bool) l :
  (forall a b, leb a b = true \/ leb b a = true) ->
  Sorted (fun a b => leb a b = true) (sort_by leb l).
Proof.
  intros Htot. induction l as [|x l IH]; simpl; [constructor|].
  apply insert_by_sorted; assumption.
Qed.

(** ... and it is stable: the elements of one class, which the order does
    not tell apart, stay in the order they had. *)
Lemma insert_by_filter (A : Type) (leb : A -> A -> bool) (p : A -> bool) x l :
  (p x = true -> forall y, p y = true -> leb x y = true) ->
  filter p (insert_by leb x l) = filter p (x :: l).
Proof.
  intros Hp. induction l as [|y l IH]; simpl; [reflexivity|].
  destruct (leb x y) eqn:E; [reflexivity|].
  simpl. rewrite IH. simpl.
  destruct (p x) eqn:Ex; [|reflexivity].
  destruct (p y) eqn:Ey; [|reflexivity].
  rewrite (Hp eq_refl y Ey) in E. discriminate.
Qed.

Lemma sort_by_stable (A : Type) (leb : A -> A -> bool) (p : A -> bool) l :
  (forall x y, p x = true -> p y = true -> leb x y = true) ->
  filter p (sort_by leb l) = filter p l.
Proof.
  intros Hp. induction l as [|x l IH]; simpl; [reflexivity|].
  rewrite insert_by_filter by (intros Hx y Hy; apply Hp; assumption).
  simpl. rewrite IH. reflexivity.
Qed.

(** What [_select_stocks] returns, whatever [nstocks] is: the first thirty
    rows of the table sorted by composite score, relabelled. The sort is
    ascending with [nan] last, and rows of equal score keep the order they
    had in the table. *)
Lemma select_stocks_spec nstocks s df k :
  selection_df s = Some df ->
  index_of "agg_score" (columns df) = Some k ->
  exists sorted,
    _select_stocks nstocks s
    = Ret (with_selected (reset_index (mkDF (columns df) (firstn 30 sorted))) s)
    /\ Permutation sorted (rows df)
    /\ Sorted (fun r1 r2 => fle_sort (score_at k r1) (score_at k r2) = true)
              sorted
    /\ (forall c, filter (fun r => same_score (score_at k r) c) sorted
                  = filter (fun r => same_score (score_at k r) c) (rows df))
    /\ selected_tickers
         (with_selected (reset_index (mkDF (columns df) (firstn 30 sorted))) s)
       = firstn 30 (map ticker sorted)
    /\ List.length (firstn 30 sorted) = Nat.min 30 (nrows df).
Proof.
  intros Hd Hk.
  set (leb := fun r1 r2 : Row => fle_sort (score_at k r1) (score_at k r2)).
  exists (sort_by leb (rows df)).
  split; [|split; [|split; [|split; [|split]]]].
  - unfold _select_stocks, sort_values. rewrite Hd. cbn [attr bind].
    rewrite Hk. reflexivity.
  - apply sort_by_perm.
  - apply (sort_by_sorted Row leb). intros a b. apply fle_sort_total.
  - intros c. apply (sort_by_stable Row leb). intros x y Hx Hy.
    unfold same_score in Hx, Hy.
    apply andb_true_iff in Hx. apply andb_true_iff in Hy.
    unfold leb. eapply fle_sort_trans; [apply Hx | apply Hy].
  - unfold selected_tickers. cbn [with_selected selected_stocks].
    rewrite tickers_reset_index. unfold tickers_of. cbn [rows].
    symmetry. apply firstn_map.
  - rewrite length_firstn, length_sort_by. reflexivity.
Qed.

(* ================================================================== *)
(** * The winsoriser, rank by rank *)

Lemma iloc_pos_nat n k : (k < n)%nat -> iloc_pos n (Z.of_nat k) = Ret k.
Proof.
  intros H. unfold iloc_pos.
  replace (0 <=? Z.of_nat k)%Z with true by (symmetry; apply Z.leb_le; lia).
  replace (Z.of_nat k <? Z.of_nat n)%Z with true
    by (symmetry; apply Z.ltb_lt; lia).
  cbn [andb]. rewrite Nat2Z.id. reflexivity.
Qed.

Lemma py_range_nat cnt : forall lo,
  map (fun k => (Z.of_nat lo + Z.of_nat k)%Z) (seq 0 cnt)
  = map Z.of_nat (seq lo cnt).
Proof.
  induction cnt as [|cnt IH]; intros lo; [reflexivity|].
  cbn [seq map]. rewrite Z.add_0_r. f_equal.
  rewrite <- seq_shift, map_map, <- (IH (S lo)).
  apply map_ext. intros k. lia.
Qed.

Lemma py_range_of_nat lo hi :
  (lo <= hi)%nat ->
  py_range (Z.of_nat lo) (Z.of_nat hi) = map Z.of_nat (seq lo (hi - lo)).
Proof.
  intros H. unfold py_range.
  replace (Z.to_nat (Z.of_nat hi - Z.of_nat lo)) with (hi - lo)%nat by lia.
  apply py_range_nat.
Qed.

Lemma map_fst_set_nth (s : Series) k v :
  map fst (set_nth k (fst (nth k s (O, NaN)), v) s) = map fst s.
Proof.
  revert k. induction s as [|x s IH]; intros [|k]; simpl; try reflexivity.
  rewrite IH. reflexivity.
Qed.

(** [series.iloc[start : start + cnt] = v]. *)
Lemma iloc_set_seq v : forall cnt start (s : Series),
  (start + cnt <= List.length s)%nat ->
  exists s',
    iloc_set (map Z.of_nat (seq start cnt)) v s = Ret s' /\
    List.length s' = List.length s /\
    map fst s' = map fst s /\
    forall k, snd (nth k s' (O, NaN))
              = if Nat.leb start k && Nat.ltb k (start + cnt) then v
                else snd (nth k s (O, NaN)).
Proof.
  induction cnt as [|cnt IH]; intros start s Hlen.
  - exists s. split; [reflexivity|]. split; [reflexivity|].
    split; [reflexivity|]. intros k.
    destruct (Nat.leb start k) eqn:E1; [|reflexivity].
    apply Nat.leb_le in E1.
    replace (Nat.ltb k (start + 0)) with false
      by (symmetry; apply Nat.ltb_ge; lia).
    reflexivity.
  - cbn [seq map]. unfold iloc_set. cbn [foldM].
    rewrite iloc_pos_nat by lia. cbn [bind].
    set (s1 := set_nth start (fst (nth start s (O, NaN)), v) s).
    assert (Hl1 : List.length s1 = List.length s) by apply length_set_nth.
    destruct (IH (S start) s1) as [s' [Hs' [Hl' [Hf' Hv']]]]; [lia|].
    exists s'. split; [exact Hs'|]. split; [congruence|].
    split; [rewrite Hf'; apply map_fst_set_nth|].
    intros k. rewrite Hv'.
    destruct (Nat.eq_dec k start) as [-> | Hne].
    + replace (Nat.leb (S start) start) with false
        by (symmetry; apply Nat.leb_gt; lia).
      rewrite Nat.leb_refl.
      replace (Nat.ltb start (start + S cnt)) with true
        by (symmetry; apply Nat.ltb_lt; lia).
      cbn [andb]. unfold s1. rewrite nth_set_nth_same by lia. reflexivity.
    + unfold s1. rewrite nth_set_nth_other by congruence.
      replace (S start + cnt)%nat with (start + S cnt)%nat by lia.
      destruct (Nat.ltb k (start + S cnt)); [|rewrite !andb_false_r; reflexivity].
      rewrite !andb_true_r.
      destruct (Nat.leb (S start) k) eqn:E1, (Nat.leb start k) eqn:E2;
        try reflexivity.
      * apply Nat.leb_le in E1. apply Nat.leb_gt in E2. lia.
      * apply Nat.leb_gt in E1. apply Nat.leb_le in E2. lia.
Qed.

(** The two assignments of [_winsorisation] on a column of at least four
    values, sorted or not: ranks below [lb] get the value at rank 3, ranks
    from [ub] on the value at rank [ub], the ranks in between keep theirs. *)
Lemma winsorised_ranks (ser : Series) (lb ub : nat) :
  (4 <= List.length ser)%nat -> (lb <= ub)%nat -> (ub < List.length ser)%nat ->
  exists s1 s2,
    iloc_get ser 3 = Ret (snd (nth 3 ser (O, NaN))) /\
    iloc_set (py_range 0 (Z.of_nat lb)) (snd (nth 3 ser (O, NaN))) ser
      = Ret s1 /\
    iloc_get s1 (Z.of_nat ub) = Ret (snd (nth ub ser (O, NaN))) /\
    iloc_set (py_range (Z.of_nat ub) (Z.of_nat (List.length ser)))
             (snd (nth ub ser (O, NaN))) s1 = Ret s2 /\
    map fst s2 = map fst ser /\
    forall k, (k < List.length ser)%nat ->
      snd (nth k s2 (O, NaN))
      = if Nat.ltb k lb then snd (nth 3 ser (O, NaN))
        else if Nat.ltb k ub then snd (nth k ser (O, NaN))
        else snd (nth ub ser (O, NaN)).
Proof.
  intros Hn Hle Hub.
  destruct (iloc_set_seq (snd (nth 3 ser (O, NaN))) lb 0 ser)
    as [s1 [Hs1 [Hl1 [Hf1 Hv1]]]]; [simpl; lia|].
  destruct (iloc_set_seq (snd (nth ub ser (O, NaN)))
              (List.length ser - ub) ub s1)
    as [s2 [Hs2 [Hl2 [Hf2 Hv2]]]]; [lia|].
  exists s1, s2.
  split.
  { unfold iloc_get. change 3%Z with (Z.of_nat 3).
    rewrite iloc_pos_nat by lia. reflexivity. }
  split.
  { change 0%Z with (Z.of_nat 0). rewrite py_range_of_nat by lia.
    rewrite Nat.sub_0_r. exact Hs1. }
  split.
  { unfold iloc_get. rewrite iloc_pos_nat by lia. cbn [bind].
    rewrite Hv1. simpl.
    replace (Nat.ltb ub lb) with false by (symmetry; apply Nat.ltb_ge; lia).
    reflexivity. }
  split.
  { rewrite py_range_of_nat by lia. exact Hs2. }
  split; [congruence|].
  intros k Hk. rewrite Hv2, Hv1. simpl.
  replace (ub + (List.length ser - ub))%nat with (List.length ser) by lia.
  replace (Nat.ltb k (List.length ser)) with true
    by (symmetry; apply Nat.ltb_lt; lia).
  rewrite andb_true_r.
  destruct (Nat.ltb k lb) eqn:E1.
  - apply Nat.ltb_lt in E1.
    replace (Nat.leb ub k) with false by (symmetry; apply Nat.leb_gt; lia).
    reflexivity.
  - destruct (Nat.ltb k ub) eqn:E2.
    + apply Nat.ltb_lt in E2.
      replace (Nat.leb ub k) with false by (symmetry; apply Nat.leb_gt; lia).
      reflexivity.
    + apply Nat.ltb_ge in E2.
      replace (Nat.leb ub k) with true by (symmetry; apply Nat.leb_le; lia).
      reflexivity.
Qed.

(** For alpha in (0, 1/2) the two cutoff ranks are in range and in order. *)
Lemma cutoffs_in_range alpha (n : nat) :
  0 < alpha -> alpha < 1 # 2 -> (1 <= n)%nat ->
  let x := inject_Z (Z.of_nat n) in
  (0 <= py_int (alpha * x) <= py_int ((1 - alpha) * x))%Z /\
  (py_int ((1 - alpha) * x) < Z.of_nat n)%Z.
Proof.
  intros Ha Hb Hn x.
  assert (Hx : 1 <= x) by (unfold x, Qle; simpl; lia).
  assert (Hfloor : forall q, 0 <= q -> py_int q = Qfloor q).
  { intros [a b] Hq. unfold py_int, Qfloor. simpl.
    apply Z.quot_div_nonneg; [|lia].
    unfold Qle in Hq. simpl in Hq. lia. }
  assert (H1 : 0 <= alpha * x) by nra.
  assert (H2 : 0 <= (1 - alpha) * x) by nra.
  rewrite (Hfloor _ H1), (Hfloor _ H2).
  split; [split|].
  - change 0%Z with (Qfloor 0). apply Qfloor_resp_le. exact H1.
  - apply Qfloor_resp_le. nra.
  - assert (H3 : (1 - alpha) * x < x) by nra.
    pose proof (Qfloor_le ((1 - alpha) * x)) as H4.
    assert (H5 : inject_Z (Qfloor ((1 - alpha) * x)) < inject_Z (Z.of_nat n))
      by (fold x; lra).
    rewrite <- Zlt_Qlt in H5. exact H5.
Qed.

Lemma length_get_series name df ser :
  get_series name df = Ret ser -> List.length ser = nrows df.
Proof.
  unfold get_series. destruct (index_of name (columns df)); [|discriminate].
  intros H. injection H as <-. apply length_map.
Qed.

(** With four rows or more and alpha in (0, 1/2), the body of
    [_winsorisation] returns, and the winsorised column is, by rank in the
    descending order: the value at rank 3 below [lb], the value at rank [ub]
    from [ub] on, and the ranked value itself in between. *)
Lemma winsorise_factor_ranks alpha s df factor ser :
  0 < alpha -> alpha < 1 # 2 ->
  selection_df s = Some df ->
  get_series factor df = Ret ser ->
  nticker s = nrows df -> (4 <= nrows df)%nat ->
  let n := inject_Z (Z.of_nat (nticker s)) in
  let lb := Z.to_nat (py_int (alpha * n)) in
  let ub := Z.to_nat (py_int ((1 - alpha) * n)) in
  let ranked := sort_desc ser in
  exists wins,
    winsorise_factor (py_int (alpha * n)) (py_int ((1 - alpha) * n)) s factor
    = Ret (with_selection (set_col_aligned (factor ++ "_wins") wins df) s) /\
    map fst wins = map fst ranked /\
    (lb <= ub < nrows df)%nat /\
    forall k, (k < nrows df)%nat ->
      snd (nth k wins (O, NaN))
      = if Nat.ltb k lb then snd (nth 3 ranked (O, NaN))
        else if Nat.ltb k ub then snd (nth k ranked (O, NaN))
        else snd (nth ub ranked (O, NaN)).
Proof.
  intros Ha Hb Hd Hser Hnt Hn n lb ub ranked.
  pose proof (length_get_series _ _ _ Hser) as Hlen.
  assert (Hlr : List.length ranked = nrows df)
    by (unfold ranked; rewrite length_sort_desc; exact Hlen).
  destruct (cutoffs_in_range alpha (nticker s) Ha Hb) as [[H0 H1] H2]; [lia|].
  fold n in H0, H1, H2.
  assert (Hlb : py_int (alpha * n) = Z.of_nat lb) by (unfold lb; lia).
  assert (Hub : py_int ((1 - alpha) * n) = Z.of_nat ub) by (unfold ub; lia).
  assert (Hle : (lb <= ub)%nat) by lia.
  assert (Hlt : (ub < List.length ranked)%nat) by lia.
  destruct (winsorised_ranks ranked lb ub) as [s1 [s2 [E1 [E2 [E3 [E4 [Hf Hv]]]]]]];
    [lia | exact Hle | exact Hlt |].
  exists s2. split.
  - unfold winsorise_factor. rewrite Hd. cbn [attr bind]. rewrite Hser.
    cbn [bind]. fold ranked. rewrite E1. cbn [bind].
    rewrite Hlb, E2. cbn [bind]. rewrite Hub, E3. cbn [bind].
    rewrite Hnt, <- Hlr, E4. reflexivity.
  - split; [exact Hf|]. split; [lia|].
    intros k Hk. apply Hv. lia.
Qed.

(* ================================================================== *)
(** * The ticker names and the query *)

Lemma append_nil_r s : (s ++ "")%string = s.
Proof. induction s as [|c s IH]; simpl; [|rewrite IH]; reflexivity. Qed.

Lemma append_assoc s t u : ((s ++ t) ++ u)%string = (s ++ (t ++ u))%string.
Proof. induction s as [|c s IH]; simpl; [|rewrite IH]; reflexivity. Qed.

(** [_adjust_ticker] on a state whose count is the length of its list. *)
Lemma adjust_ticker_run self :
  nticker self = List.length (ticker_idx80 self) ->
  _adjust_ticker self = Ret (with_tickers (jk (ticker_idx80 self)) self).
Proof.
  intros H. unfold _adjust_ticker. rewrite H, Nat.leb_refl.
  rewrite firstn_all, skipn_all, app_nil_r. reflexivity.
Qed.

Lemma NoDup_jk kode : NoDup kode -> NoDup (jk kode).
Proof.
  intros H. unfold jk. apply NoDup_map_NoDup_ForallPairs; [|exact H].
  intros x y _ _. apply append_suffix_inj.
Qed.

(** A word without blanks is read up to the end of the word. *)
Lemma split_spaces_word t : forall cur rest,
  no_space t = true ->
  split_spaces cur (t ++ rest) = split_spaces (cur ++ t) rest.
Proof.
  induction t as [|c t IH]; intros cur rest H; simpl in *.
  - rewrite append_nil_r. reflexivity.
  - apply andb_true_iff in H. destruct H as [Hc Ht].
    apply negb_true_iff in Hc. rewrite Hc.
    rewrite (IH _ _ Ht), append_assoc. reflexivity.
Qed.

Lemma split_spaces_join l : forall t,
  no_space t = true -> Forall (fun x => no_space x = true) l ->
  split_spaces "" (String.concat " " (t :: l)) = t :: l.
Proof.
  induction l as [|u l IH]; intros t Ht Hl.
  - simpl. rewrite <- (append_nil_r t) at 1.
    rewrite (split_spaces_word t "" "" Ht). reflexivity.
  - change (String.concat " " (t :: u :: l))
      with (t ++ (" " ++ String.concat " " (u :: l)))%string.
    rewrite (split_spaces_word t "" _ Ht).
    inversion Hl as [|? ? Hu Hl']; subst.
    simpl. f_equal. apply IH; assumption.
Qed.

(* ================================================================== *)
(** * The first three stages, for every provider *)

Lemma stages_1_2_run yf kode :
  (s <- _adjust_ticker (init kode) ;; _query_data yf s)
  = Ret (after_query yf kode).
Proof.
  rewrite (adjust_ticker_run (init kode)) by reflexivity. reflexivity.
Qed.

Lemma stages_1_3_run yf kode :
  stages_1_3 yf (init kode)
  = Ret (with_nticker (nrows (factor_table yf kode))
           (with_selection (factor_table yf kode) (after_query yf kode))).
Proof.
  unfold stages_1_3.
  rewrite (adjust_ticker_run (init kode)) by reflexivity. cbn [bind].
  unfold _query_data. cbn [bind]. fold (jk kode).
  change (with_obj _ _) with (after_query yf kode).
  rewrite (generate_df_factors_rows (after_query yf kode)
             "trailingPE" "priceToBook"); try reflexivity.
  simpl. unfold jk. rewrite length_map. reflexivity.
Qed.

Lemma content_reset_index df :
  map content (rows (reset_index df)) = map content (rows df).
Proof.
  unfold reset_index. simpl. rewrite map_map.
  apply map_combine_snd; [apply length_seq | reflexivity].
Qed.

Lemma length_filter_le (A : Type) (p : A -> bool) l :
  (List.length (filter p l) <= List.length l)%nat.
Proof.
  induction l as [|x l IH]; simpl; [lia|]. destruct (p x); simpl; lia.
Qed.

Lemma filter_none (A : Type) (p : A -> bool) l :
  (forall x, In x l -> p x = false) -> filter p l = [].
Proof.
  induction l as [|x l IH]; intros H; simpl; [reflexivity|].
  rewrite (H x) by (left; reflexivity). apply IH.
  intros y Hy. apply H. right. exact Hy.
Qed.

Lemma length_filled_rows self :
  nticker self = List.length (ticker_idx80 self) ->
  List.length (filled_rows self) = nticker self.
Proof.
  intros H. unfold filled_rows.
  rewrite length_map, length_combine, length_seq. lia.
Qed.

Lemma tickers_filled_rows self :
  incl (map ticker (filled_rows self)) (ticker_idx80 self).
Proof.
  unfold filled_rows. rewrite map_map. cbn [ticker].
  intros t Ht. apply in_map_iff in Ht. destruct Ht as [[k t'] [<- Hin]].
  eapply in_combine_r. exact Hin.
Qed.

(** The shape of the factor table. *)
Lemma factor_table_shape yf kode :
  columns (factor_table yf kode) = ["PE"; "PBV"]%string /\
  wf_df (factor_table yf kode) /\
  map label (rows (factor_table yf kode)) = seq 0 (nrows (factor_table yf kode)) /\
  (nrows (factor_table yf kode) <= List.length kode)%nat /\
  incl (tickers_of (factor_table yf kode)) (jk kode) /\
  Forall (fun r => complete r = true) (rows (factor_table yf kode)).
Proof.
  unfold factor_table.
  split; [reflexivity|].
  split.
  { apply wf_reset_index, wf_dropna. unfold wf_df, filled_rows. simpl.
    apply Forall_forall. intros r Hr. apply in_map_iff in Hr.
    destruct Hr as [kt [<- _]]. simpl. reflexivity. }
  split; [rewrite nrows_reset_index; apply labels_reset_index|].
  split.
  { rewrite nrows_reset_index. unfold nrows, dropna. cbn [rows].
    eapply Nat.le_trans; [apply length_filter_le|].
    rewrite length_filled_rows; simpl; unfold jk; rewrite ?length_map;
      reflexivity. }
  split.
  { rewrite tickers_reset_index. unfold tickers_of, dropna. cbn [rows].
    intros t Ht. apply in_map_iff in Ht. destruct Ht as [r [<- Hr]].
    apply filter_In in Hr. destruct Hr as [Hr _].
    apply (tickers_filled_rows (after_query yf kode)).
    apply in_map. exact Hr. }
  apply Forall_forall. intros r Hr.
  assert (Hc : In (content r)
                  (map content (rows (dropna (mkDF ["PE"; "PBV"]%string
                                     (filled_rows (after_query yf kode))))))).
  { rewrite <- content_reset_index. apply in_map. exact Hr. }
  apply in_map_iff in Hc. destruct Hc as [r' [Hc Hr']].
  unfold dropna in Hr'. cbn [rows] in Hr'. apply filter_In in Hr'.
  destruct Hr' as [_ Hn]. unfold complete.
  injection Hc as _ Hv. rewrite <- Hv. exact Hn.
Qed.

(** A ticker whose two factors the provider supplies is a row of the
    table, with the two values. *)
Lemma factor_table_keeps yf kode i t x y :
  nth_error kode i = Some t ->
  factor_cell (after_query yf kode) i "trailingPE" = x ->
  factor_cell (after_query yf kode) i "priceToBook" = y ->
  is_nan x = false -> is_nan y = false ->
  In ((t ++ ".JK")%string, [x; y]) (map content (rows (factor_table yf kode))).
Proof.
  intros Hi Hx Hy Hnx Hny. unfold factor_table.
  rewrite content_reset_index. unfold dropna. cbn [rows].
  apply in_map_iff.
  exists (mkRow i (t ++ ".JK")%string [x; y]). split; [reflexivity|].
  apply filter_In. split.
  - unfold filled_rows. apply in_map_iff.
    exists (i, (t ++ ".JK")%string). split.
    + cbn [fst snd after_query with_obj with_tickers factors init map].
      unfold factors. simpl. rewrite Hx, Hy. reflexivity.
    + assert (Hlt : (i < List.length kode)%nat)
        by (apply nth_error_Some; rewrite Hi; discriminate).
      cbn [after_query with_obj with_tickers nticker ticker_idx80 init].
      simpl nticker. simpl ticker_idx80.
      assert (Hn : forall a,
                 nth_error (combine (seq a (List.length kode)) (jk kode)) i
                 = Some ((a + i)%nat, (t ++ ".JK")%string)).
      { clear - Hi. revert i Hi.
        induction kode as [|c kode IH]; intros i Hi a;
          [destruct i; discriminate|].
        destruct i as [|i]; simpl in *.
        - injection Hi as ->. rewrite Nat.add_0_r. reflexivity.
        - rewrite (IH i Hi (S a)). f_equal. f_equal. lia. }
      specialize (Hn 0%nat). rewrite Nat.add_0_l in Hn.
      eapply nth_error_In. exact Hn.
  - cbn [vals existsb]. rewrite Hnx, Hny. reflexivity.
Qed.

(* ================================================================== *)
(** * The winsoriser on the factor table *)

Lemma get_series_rows name df k :
  index_of name (columns df) = Some k ->
  get_series name df
  = Ret (map (fun r => (label r, nth k (vals r) NaN)) (rows df)).
Proof. intros H. unfold get_series. rewrite H. reflexivity. Qed.

(** A Series is the column and the labels of the frame, side by side. *)
Lemma get_series_get_col name df :
  get_series name df
  = (c <- get_col name df ;; Ret (combine (map label (rows df)) c)).
Proof.
  unfold get_series, get_col.
  destruct (index_of name (columns df)) as [k|]; [|reflexivity].
  cbn [bind]. f_equal. induction (rows df) as [|r l IH]; simpl;
    [|rewrite IH]; reflexivity.
Qed.

Lemma get_series_set_col_other name other values df :
  other <> name -> wf_df df -> List.length values = nrows df ->
  get_series other (set_col name values df) = get_series other df.
Proof.
  intros Hne Hwf Hlen. rewrite !get_series_get_col.
  rewrite (get_col_set_col_other _ _ _ _ Hne Hwf Hlen).
  rewrite (labels_set_col _ _ _ Hlen). reflexivity.
Qed.

Lemma length_aligned (ser : Series) df :
  List.length (map (fun r => series_find (label r) ser) (rows df)) = nrows df.
Proof. apply length_map. Qed.

Lemma series_find_nth (s : Series) : forall k,
  NoDup (map fst s) -> (k < List.length s)%nat ->
  series_find (fst (nth k s (O, NaN))) s = snd (nth k s (O, NaN)).
Proof.
  induction s as [|[l v] s IH]; intros k Hnd Hk; simpl in Hk; [lia|].
  inversion Hnd as [|? ? Hl Hnd']; subst.
  destruct k as [|k]; simpl.
  - rewrite Nat.eqb_refl. reflexivity.
  - destruct (Nat.eqb l (fst (nth k s (O, NaN)))) eqn:E.
    + exfalso. apply Nat.eqb_eq in E. apply Hl. rewrite E.
      apply in_map. apply nth_In. lia.
    + apply IH; [exact Hnd' | lia].
Qed.

(** The column an aligned assignment leaves, read at a label. *)
Lemma nth_aligned (ser : Series) df i :
  map label (rows df) = seq 0 (nrows df) -> (i < nrows df)%nat ->
  nth i (map (fun r => series_find (label r) ser) (rows df)) NaN
  = series_find i ser.
Proof.
  intros Hl Hi.
  rewrite <- (map_map label (fun l => series_find l ser)), Hl.
  rewrite (nth_indep _ NaN (series_find 0 ser))
    by (rewrite length_map, length_seq; exact Hi).
  rewrite (map_nth (fun l => series_find l ser) (seq 0 (nrows df)) 0%nat i).
  rewrite seq_nth by exact Hi. reflexivity.
Qed.

Lemma Permutation_sort_desc ser : Permutation (sort_desc ser) ser.
Proof. apply sort_by_perm. Qed.

(** Both factors, one after the other, at the default alpha. *)
Lemma winsorisation_run s df ser1 ser2 :
  selection_df s = Some df ->
  col_name s = ["PE"; "PBV"] ->
  wf_df df ->
  nticker s = nrows df -> (4 <= nrows df)%nat ->
  get_series "PE" df = Ret ser1 ->
  get_series "PBV" df = Ret ser2 ->
  exists wins1 wins2,
    _winsorisation alpha_default s
    = Ret (with_selection
             (set_col_aligned "PBV_wins" wins2
                (set_col_aligned "PE_wins" wins1 df)) s) /\
    winsorised_as (lower_rank (nrows df)) (upper_rank (nrows df))
                  (sort_desc ser1) wins1 /\
    winsorised_as (lower_rank (nrows df)) (upper_rank (nrows df))
                  (sort_desc ser2) wins2 /\
    (lower_rank (nrows df) <= upper_rank (nrows df) < nrows df)%nat.
Proof.
  intros Hd Hc Hwf Hn H4 H1 H2.
  assert (Ha : 0 < alpha_default) by reflexivity.
  assert (Hb : alpha_default < 1 # 2) by reflexivity.
  destruct (winsorise_factor_ranks alpha_default s df "PE" ser1 Ha Hb Hd H1
              Hn H4)
    as [wins1 [E1 [Hf1 [Hr Hv1]]]].
  set (df' := set_col_aligned "PE_wins" wins1 df) in *.
  assert (Hn' : nrows df' = nrows df) by apply nrows_set_col_aligned.
  assert (Hwf' : wf_df df') by (apply wf_set_col; exact Hwf).
  assert (H2' : get_series "PBV" df' = Ret ser2).
  { unfold df', set_col_aligned.
    rewrite get_series_set_col_other;
      [exact H2 | discriminate | exact Hwf | apply length_aligned]. }
  destruct (winsorise_factor_ranks alpha_default (with_selection df' s) df'
              "PBV" ser2 Ha Hb eq_refl H2')
    as [wins2 [E2 [Hf2 [_ Hv2]]]].
  { cbn [nticker with_selection]. rewrite Hn'. exact Hn. }
  { rewrite Hn'. exact H4. }
  cbn [nticker with_selection] in E2, Hv2.
  exists wins1, wins2. rewrite Hn in *.
  split.
  - unfold _winsorisation. rewrite Hc, Hn. cbn [foldM].
    change ("PE" ++ "_wins") with "PE_wins" in E1.
    change ("PBV" ++ "_wins") with "PBV_wins" in E2.
    rewrite E1. cbn [bind]. fold df'. rewrite E2. reflexivity.
  - pose proof (length_get_series _ _ _ H1) as L1.
    pose proof (length_get_series _ _ _ H2) as L2.
    split; [|split].
    + split; [exact Hf1|]. intros k Hk. apply Hv1.
      rewrite length_sort_desc, L1 in Hk. exact Hk.
    + split; [exact Hf2|]. intros k Hk. apply Hv2.
      rewrite length_sort_desc, L2 in Hk. rewrite Hn'. exact Hk.
    + exact Hr.
Qed.

(** The winsorised column of a ranked Series, row by row. *)
Lemma winsorised_as_aligned lb ub ser wins df k i x :
  map label (rows df) = seq 0 (nrows df) ->
  map fst ser = map label (rows df) ->
  winsorised_as lb ub (sort_desc ser) wins ->
  (k < nrows df)%nat ->
  nth k (sort_desc ser) (O, NaN) = (i, x) ->
  nth i (map (fun r => series_find (label r) wins) (rows df)) NaN
  = if Nat.ltb k lb then snd (nth 3 (sort_desc ser) (O, NaN))
    else if Nat.ltb k ub then x
    else snd (nth ub (sort_desc ser) (O, NaN)).
Proof.
  intros Hl Hs [Hf Hv] Hk Hnth.
  assert (Hlen : List.length (sort_desc ser) = nrows df).
  { rewrite length_sort_desc, <- (length_map fst), Hs, length_map.
    reflexivity. }
  assert (Hperm : Permutation (map fst (sort_desc ser)) (seq 0 (nrows df))).
  { rewrite <- Hl, <- Hs. apply Permutation_map, Permutation_sort_desc. }
  assert (Hnd : NoDup (map fst wins)).
  { rewrite Hf. eapply Permutation_NoDup;
      [apply Permutation_sym; exact Hperm | apply seq_NoDup]. }
  assert (Hlw : List.length wins = nrows df).
  { rewrite <- (length_map fst), Hf, length_map. exact Hlen. }
  assert (Hi : fst (nth k wins (O, NaN)) = i).
  { rewrite <- (map_nth fst wins (O, NaN) k).
    rewrite Hf, (map_nth fst (sort_desc ser) (O, NaN) k), Hnth. reflexivity. }
  assert (Hin : (i < nrows df)%nat).
  { assert (In i (seq 0 (nrows df))).
    { eapply Permutation_in; [exact Hperm|].
      replace i with (fst (nth k (sort_desc ser) (O, NaN)))
        by (rewrite Hnth; reflexivity).
      apply in_map, nth_In. lia. }
    apply in_seq in H. lia. }
  rewrite (nth_aligned wins df i Hl Hin), <- Hi.
  rewrite (series_find_nth wins k Hnd) by lia.
  rewrite Hv by lia. rewrite Hnth. reflexivity.
Qed.

Lemma labels_get_series name df ser :
  get_series name df = Ret ser -> map fst ser = map label (rows df).
Proof.
  unfold get_series. destruct (index_of name (columns df)); [|discriminate].
  intros H. injection H as <-. rewrite map_map. reflexivity.
Qed.

(** The state after the first three stages, spelled out. *)
Lemma stages_1_3_table yf kode :
  exists s3,
    stages_1_3 yf (init kode) = Ret s3 /\
    selection_df s3 = Some (factor_table yf kode) /\
    col_name s3 = ["PE"; "PBV"] /\
    nticker s3 = nrows (factor_table yf kode) /\
    idx80_obj s3 = Some (yf (String.concat " " (jk kode))) /\
    selected_stocks s3 = None.
Proof.
  eexists. split; [apply stages_1_3_run|]. repeat split.
Qed.

(* ================================================================== *)
(** * The scorer on a winsorised table *)

Lemma length_zscores sq w : List.length (zscores sq w) = List.length w.
Proof. apply length_map. Qed.

(** The three assignments of [_agg_zscore], as one. *)
Lemma composite_steps z1 z2 :
  map (fun a => fdiv a (of_nat 2))
      (map (fun az => fadd (fst az) (snd az))
           (combine (map (fun az => fadd (fst az) (snd az))
                         (combine (repeat (Fin 0) (List.length z1)) z1))
                    z2))
  = composite z1 z2.
Proof.
  unfold composite. revert z2.
  induction z1 as [|a z1 IH]; intros [|b z2];
    cbn [map combine repeat List.length fst snd]; try reflexivity.
  f_equal. apply IH.
Qed.

Lemma set_col_full name values df :
  wf_df df -> List.length values = nrows df ->
  wf_df (set_col name values df) /\
  nrows (set_col name values df) = nrows df /\
  tickers_of (set_col name values df) = tickers_of df /\
  map label (rows (set_col name values df)) = map label (rows df) /\
  get_col name (set_col name values df) = Ret values /\
  (forall other, other <> name ->
     get_col other (set_col name values df) = get_col other df).
Proof.
  intros Hwf Hlen.
  destruct (set_col_frame name values df Hwf Hlen) as [H1 [H2 [H3 H4]]].
  repeat split; try assumption.
  - apply tickers_set_col. exact Hlen.
  - apply labels_set_col. exact Hlen.
Qed.

(** [_agg_zscore] on a state whose winsorisation returns. *)
Lemma agg_zscore_run sq s dfw w1 w2 :
  col_name s = ["PE"; "PBV"] ->
  _winsorisation alpha_default s = Ret (with_selection dfw s) ->
  wf_df dfw -> nticker s = nrows dfw ->
  columns dfw = ["PE"; "PBV"; "PE_wins"; "PBV_wins"] ->
  get_col "PE_wins" dfw = Ret w1 ->
  get_col "PBV_wins" dfw = Ret w2 ->
  exists dff,
    _agg_zscore sq s = Ret (with_selection dff s) /\
    wf_df dff /\ columns dff = scored_columns /\
    nrows dff = nrows dfw /\
    tickers_of dff = tickers_of dfw /\
    map label (rows dff) = map label (rows dfw) /\
    get_col "PE_zscore" dff = Ret (zscores sq w1) /\
    get_col "PBV_zscore" dff = Ret (zscores sq w2) /\
    get_col "agg_score" dff = Ret (composite (zscores sq w1) (zscores sq w2)) /\
    (forall c, In c ["PE"; "PBV"; "PE_wins"; "PBV_wins"] ->
               get_col c dff = get_col c dfw).
Proof.
  intros Hcn Hw Hwfw Hn Hcw Hw1 Hw2.
  pose proof (length_get_col _ _ _ Hw1) as Hl1.
  pose proof (length_get_col _ _ _ Hw2) as Hl2.
  set (z1 := zscores sq w1). set (z2 := zscores sq w2).
  assert (Hz1 : List.length z1 = nrows dfw)
    by (unfold z1; rewrite length_zscores; exact Hl1).
  assert (Hz2 : List.length z2 = nrows dfw)
    by (unfold z2; rewrite length_zscores; exact Hl2).
  set (dfa := set_col "PE_zscore" z1 dfw).
  destruct (set_col_full "PE_zscore" z1 dfw Hwfw Hz1)
    as [Hwfa [Hna [Hta [Hla [Hsa Hoa]]]]].
  fold dfa in Hwfa, Hna, Hta, Hla, Hsa, Hoa.
  set (dfb := set_col "PBV_zscore" z2 dfa).
  assert (Hz2a : List.length z2 = nrows dfa) by (rewrite Hna; exact Hz2).
  destruct (set_col_full "PBV_zscore" z2 dfa Hwfa Hz2a)
    as [Hwfb [Hnb [Htb [Hlb [Hsb Hob]]]]].
  fold dfb in Hwfb, Hnb, Htb, Hlb, Hsb, Hob.
  assert (Hcb : columns dfb = ["PE"; "PBV"; "PE_wins"; "PBV_wins";
                               "PE_zscore"; "PBV_zscore"]).
  { unfold dfb, dfa. rewrite !columns_set_col, Hcw. reflexivity. }
  assert (Hzs : _zscore sq s = Ret (with_selection dfb s)).
  { unfold _zscore. rewrite Hw. cbn [bind with_selection col_name].
    rewrite Hcn. cbn [foldM].
    rewrite (zscore_factor_run sq (with_selection dfw s) dfw "PE" w1
               eq_refl Hw1).
    cbn [bind]. change ("PE" ++ "_zscore") with "PE_zscore".
    fold (zscores sq w1). fold z1. fold dfa.
    rewrite (zscore_factor_run sq (with_selection dfa (with_selection dfw s))
               dfa "PBV" w2 eq_refl);
      [reflexivity|].
    rewrite Hoa by discriminate. exact Hw2. }
  set (n := nticker s).
  set (df0 := set_col "agg_score" (repeat (Fin 0) n) dfb).
  assert (Hr0 : List.length (repeat (Fin 0) n) = nrows dfb).
  { rewrite repeat_length. unfold n. rewrite Hn, Hnb, Hna. reflexivity. }
  destruct (set_col_full "agg_score" _ dfb Hwfb Hr0)
    as [Hwf0 [Hn0 [Ht0 [Hl0 [Hs0 Ho0]]]]].
  fold df0 in Hwf0, Hn0, Ht0, Hl0, Hs0, Ho0.
  set (a1 := map (fun az => fadd (fst az) (snd az))
                 (combine (repeat (Fin 0) n) z1)).
  set (df1 := set_col "agg_score" a1 df0).
  assert (Ha1 : List.length a1 = nrows df0).
  { unfold a1. rewrite length_map, length_combine, Hr0, Hz1, Hn0, Hnb, Hna.
    apply Nat.min_id. }
  destruct (set_col_full "agg_score" a1 df0 Hwf0 Ha1)
    as [Hwf1 [Hn1 [Ht1 [Hl1' [Hs1 Ho1]]]]].
  fold df1 in Hwf1, Hn1, Ht1, Hl1', Hs1, Ho1.
  set (a2 := map (fun az => fadd (fst az) (snd az)) (combine a1 z2)).
  set (df2 := set_col "agg_score" a2 df1).
  assert (Ha2 : List.length a2 = nrows df1).
  { unfold a2. rewrite length_map, length_combine, Ha1, Hz2, Hn1, Hn0, Hnb, Hna.
    apply Nat.min_id. }
  destruct (set_col_full "agg_score" a2 df1 Hwf1 Ha2)
    as [Hwf2 [Hn2 [Ht2 [Hl2' [Hs2 Ho2]]]]].
  fold df2 in Hwf2, Hn2, Ht2, Hl2', Hs2, Ho2.
  set (ag := map (fun a => fdiv a (of_nat 2)) a2).
  set (dff := set_col "agg_score" ag df2).
  assert (Hag : List.length ag = nrows df2)
    by (unfold ag; rewrite length_map, Ha2, Hn2; reflexivity).
  destruct (set_col_full "agg_score" ag df2 Hwf2 Hag)
    as [Hwff [Hnf [Htf [Hlf [Hsf Hof]]]]].
  fold dff in Hwff, Hnf, Htf, Hlf, Hsf, Hof.
  assert (Hagg : _agg_zscore sq s = Ret (with_selection dff s)).
  { unfold _agg_zscore. rewrite Hzs.
    cbn [bind with_selection selection_df attr nticker].
    rewrite Hcb.
    change (filter (contains "_zscore")
                   ["PE"; "PBV"; "PE_wins"; "PBV_wins"; "PE_zscore";
                    "PBV_zscore"])
      with ["PE_zscore"; "PBV_zscore"].
    fold n. replace (Nat.eqb n (nrows dfb)) with true
      by (symmetry; apply Nat.eqb_eq; rewrite <- Hr0, repeat_length;
          reflexivity).
    cbn [negb foldM]. fold df0.
    rewrite (add_score_run df0 "PE_zscore" (repeat (Fin 0) n) z1 Hs0).
    2:{ rewrite Ho0, Hob by discriminate. exact Hsa. }
    cbn [bind]. fold a1. fold df1.
    rewrite (add_score_run df1 "PBV_zscore" a1 z2 Hs1).
    2:{ rewrite Ho1, Ho0 by discriminate. exact Hsb. }
    cbn [bind]. fold a2. fold df2. rewrite Hs2. reflexivity. }
  exists dff.
  split; [exact Hagg|]. split; [exact Hwff|].
  split.
  { unfold dff, df2, df1, df0. rewrite !columns_set_col, Hcb. reflexivity. }
  split; [rewrite Hnf, Hn2, Hn1, Hn0, Hnb, Hna; reflexivity|].
  split; [rewrite Htf, Ht2, Ht1, Ht0, Htb, Hta; reflexivity|].
  split; [rewrite Hlf, Hl2', Hl1', Hl0, Hlb, Hla; reflexivity|].
  split; [rewrite Hof, Ho2, Ho1, Ho0, Hob by discriminate; exact Hsa|].
  split; [rewrite Hof, Ho2, Ho1, Ho0 by discriminate; exact Hsb|].
  split.
  { rewrite Hsf. f_equal. unfold ag, a2, a1.
    replace n with (List.length z1)
      by (rewrite Hz1; unfold n; symmetry; exact Hn).
    apply composite_steps. }
  intros c Hc.
  rewrite Hof, Ho2, Ho1, Ho0, Hob, Hoa;
    [reflexivity | | | | | | ];
    intros ->; simpl in Hc; intuition discriminate.
Qed.

(** The table [_winsorisation] leaves when the factor table has four rows
    or more. *)
Lemma winsorised_table yf kode :
  (4 <= nrows (factor_table yf kode))%nat ->
  exists s3 dfw w1 w2,
    stages_1_3 yf (init kode) = Ret s3 /\
    selection_df s3 = Some (factor_table yf kode) /\
    col_name s3 = ["PE"; "PBV"] /\
    idx80_obj s3 = Some (yf (String.concat " " (jk kode))) /\
    _winsorisation alpha_default s3 = Ret (with_selection dfw s3) /\
    wf_df dfw /\ nticker s3 = nrows dfw /\
    columns dfw = ["PE"; "PBV"; "PE_wins"; "PBV_wins"] /\
    nrows dfw = nrows (factor_table yf kode) /\
    tickers_of dfw = tickers_of (factor_table yf kode) /\
    map label (rows dfw) = map label (rows (factor_table yf kode)) /\
    get_col "PE_wins" dfw = Ret w1 /\
    get_col "PBV_wins" dfw = Ret w2.
Proof.
  intros H4.
  destruct (stages_1_3_table yf kode) as [s3 [H3 [Hd [Hc [Hn [Ho _]]]]]].
  destruct (factor_table_shape yf kode) as [Hcols [Hwf _]].
  set (df := factor_table yf kode) in *.
  destruct (get_col_present "PE" df 0) as [c1 G1'];
    [rewrite Hcols; reflexivity|].
  assert (G1 : exists ser1, get_series "PE" df = Ret ser1)
    by (rewrite get_series_get_col, G1'; eexists; reflexivity).
  destruct (get_col_present "PBV" df 1) as [c2 G2'];
    [rewrite Hcols; reflexivity|].
  assert (G2 : exists ser2, get_series "PBV" df = Ret ser2)
    by (rewrite get_series_get_col, G2'; eexists; reflexivity).
  destruct G1 as [ser1 G1]. destruct G2 as [ser2 G2].
  destruct (winsorisation_run s3 df ser1 ser2 Hd Hc Hwf Hn H4 G1 G2)
    as [wins1 [wins2 [Hw _]]].
  set (df1 := set_col_aligned "PE_wins" wins1 df) in *.
  set (dfw := set_col_aligned "PBV_wins" wins2 df1) in *.
  destruct (set_col_full "PE_wins" _ df Hwf (length_aligned wins1 df))
    as [Hwf1 [Hn1 [Ht1 [Hl1 [Hs1 Ho1]]]]].
  fold (set_col_aligned "PE_wins" wins1 df) in Hwf1, Hn1, Ht1, Hl1, Hs1, Ho1.
  fold df1 in Hwf1, Hn1, Ht1, Hl1, Hs1, Ho1.
  destruct (set_col_full "PBV_wins" _ df1 Hwf1 (length_aligned wins2 df1))
    as [Hwf2 [Hn2 [Ht2 [Hl2 [Hs2 Ho2]]]]].
  fold (set_col_aligned "PBV_wins" wins2 df1) in Hwf2, Hn2, Ht2, Hl2, Hs2, Ho2.
  fold dfw in Hwf2, Hn2, Ht2, Hl2, Hs2, Ho2.
  exists s3, dfw. eexists. eexists.
  split; [exact H3|]. split; [exact Hd|]. split; [exact Hc|].
  split; [exact Ho|]. split; [exact Hw|]. split; [exact Hwf2|].
  split; [rewrite Hn2, Hn1; exact Hn|].
  split.
  { unfold dfw, df1, set_col_aligned. rewrite !columns_set_col, Hcols.
    reflexivity. }
  split; [rewrite Hn2, Hn1; reflexivity|].
  split; [rewrite Ht2, Ht1; reflexivity|].
  split; [rewrite Hl2, Hl1; reflexivity|].
  split; [rewrite Ho2 by discriminate; exact Hs1 | exact Hs2].
Qed.

(** The state [_agg_zscore] leaves when the factor table has four rows or
    more. *)
Lemma scored_table yf sq kode :
  (4 <= nrows (factor_table yf kode))%nat ->
  exists s3 dff w1 w2,
    stages_1_3 yf (init kode) = Ret s3 /\
    selection_df s3 = Some (factor_table yf kode) /\
    idx80_obj s3 = Some (yf (String.concat " " (jk kode))) /\
    _agg_zscore sq s3 = Ret (with_selection dff s3) /\
    wf_df dff /\ columns dff = scored_columns /\
    nrows dff = nrows (factor_table yf kode) /\
    tickers_of dff = tickers_of (factor_table yf kode) /\
    get_col "PE_wins" dff = Ret w1 /\
    get_col "PBV_wins" dff = Ret w2 /\
    get_col "PE_zscore" dff = Ret (zscores sq w1) /\
    get_col "PBV_zscore" dff = Ret (zscores sq w2) /\
    get_col "agg_score" dff
    = Ret (composite (zscores sq w1) (zscores sq w2)).
Proof.
  intros H4.
  destruct (winsorised_table yf kode H4)
    as (s3 & dfw & w1 & w2 & H3 & Hd & Hc & Ho & Hw & Hwf & Hn & Hcols & Hnr
        & Ht & Hl & G1 & G2).
  destruct (agg_zscore_run sq s3 dfw w1 w2 Hc Hw Hwf Hn Hcols G1 G2)
    as (dff & Ha & Hwff & Hcf & Hnf & Htf & Hlf & Z1 & Z2 & Ag & Hrest).
  exists s3, dff, w1, w2.
  split; [exact H3|]. split; [exact Hd|]. split; [exact Ho|].
  split; [exact Ha|]. split; [exact Hwff|]. split; [exact Hcf|].
  split; [rewrite Hnf; exact Hnr|]. split; [rewrite Htf; exact Ht|].
  split; [rewrite Hrest by (simpl; tauto); exact G1|].
  split; [rewrite Hrest by (simpl; tauto); exact G2|].
  split; [exact Z1|]. split; [exact Z2 | exact Ag].
Qed.

(* ================================================================== *)
(** * The selector on a scored table *)

Lemma stages_1_5_split yf sq self :
  stages_1_5 yf sq self
  = (s3 <- stages_1_3 yf self ;;
     s4 <- _agg_zscore sq s3 ;;
     _select_stocks 30 s4).
Proof.
  unfold stages_1_5, stages_1_3.
  destruct (_adjust_ticker self) as [s1| |]; simpl; try reflexivity.
Qed.

Lemma In_firstn (A : Type) n (l : list A) x : In x (firstn n l) -> In x l.
Proof.
  intros H. rewrite <- (firstn_skipn n l). apply in_or_app. left. exact H.
Qed.

Lemma In_skipn (A : Type) n (l : list A) x : In x (skipn n l) -> In x l.
Proof.
  intros H. rewrite <- (firstn_skipn n l). apply in_or_app. right. exact H.
Qed.

(** In a list sorted by a transitive order, what comes first is below what
    comes after. *)
Lemma Sorted_app_le (A : Type) (R : A -> A -> Prop) (l1 l2 : list A) :
  (forall x y z, R x y -> R y z -> R x z) ->
  Sorted R (l1 ++ l2) ->
  forall x y, In x l1 -> In y l2 -> R x y.
Proof.
  intros Htr Hs.
  apply Sorted_StronglySorted in Hs; [|intros x y z; apply Htr].
  induction l1 as [|a l1 IH]; intros x y Hx Hy; [contradiction|].
  simpl in Hs. apply StronglySorted_inv in Hs. destruct Hs as [Hs Ha].
  destruct Hx as [<- | Hx].
  - rewrite Forall_forall in Ha. apply Ha. apply in_or_app. right. exact Hy.
  - apply IH; assumption.
Qed.

(** What [_select_stocks] leaves in [selected_stocks]. *)
Lemma select_stocks_frame nstocks s df k :
  selection_df s = Some df ->
  index_of "agg_score" (columns df) = Some k ->
  wf_df df ->
  exists sorted top,
    _select_stocks nstocks s = Ret (with_selected top s) /\
    Permutation sorted (rows df) /\
    Sorted (fun r1 r2 => fle_sort (score_at k r1) (score_at k r2) = true)
           sorted /\
    map content (rows top) = map content (firstn 30 sorted) /\
    columns top = columns df /\
    wf_df top /\
    map label (rows top) = seq 0 (nrows top) /\
    nrows top = Nat.min 30 (nrows df) /\
    incl (tickers_of top) (tickers_of df).
Proof.
  intros Hd Hk Hwf.
  destruct (select_stocks_spec nstocks s df k Hd Hk)
    as (sorted & Hrun & Hperm & Hsorted & _ & _ & Hlen).
  set (cut := mkDF (columns df) (firstn 30 sorted)) in *.
  exists sorted, (reset_index cut).
  split; [exact Hrun|]. split; [exact Hperm|]. split; [exact Hsorted|].
  assert (Hin : forall r, In r (rows cut) -> In r (rows df)).
  { intros r Hr. eapply Permutation_in; [exact Hperm|].
    eapply In_firstn. exact Hr. }
  split; [apply content_reset_index|].
  split; [reflexivity|].
  split.
  { apply wf_reset_index. unfold wf_df in *. rewrite Forall_forall in *.
    intros r Hr. apply Hwf, Hin, Hr. }
  split; [rewrite nrows_reset_index; apply labels_reset_index|].
  split; [rewrite nrows_reset_index; exact Hlen|].
  rewrite tickers_reset_index. intros t Ht.
  apply in_map_iff in Ht. destruct Ht as [r [<- Hr]].
  apply in_map, Hin, Hr.
Qed.

(** The state after the first five stages when the factor table has four
    rows or more. *)
Lemma selected_table yf sq kode :
  (4 <= nrows (factor_table yf kode))%nat ->
  exists s5 df5,
    stages_1_5 yf sq (init kode) = Ret s5 /\
    selected_stocks s5 = Some df5 /\
    idx80_obj s5 = Some (yf (String.concat " " (jk kode))) /\
    wf_df df5 /\ columns df5 = scored_columns /\
    map label (rows df5) = seq 0 (nrows df5) /\
    nrows df5 = Nat.min 30 (nrows (factor_table yf kode)) /\
    incl (tickers_of df5) (tickers_of (factor_table yf kode)).
Proof.
  intros H4.
  destruct (scored_table yf sq kode H4)
    as (s3 & dff & w1 & w2 & H3 & Hd & Ho & Ha & Hwf & Hc & Hn & Ht & _).
  destruct (select_stocks_frame 30 (with_selection dff s3) dff 6 eq_refl)
    as (sorted & top & Hrun & _ & _ & _ & Hct & Hwft & Hlt & Hnt & Hit);
    [rewrite Hc; reflexivity | exact Hwf |].
  exists (with_selected top (with_selection dff s3)), top.
  split.
  { rewrite stages_1_5_split, H3. cbn [bind]. rewrite Ha. cbn [bind].
    exact Hrun. }
  split; [reflexivity|]. split; [exact Ho|]. split; [exact Hwft|].
  split; [rewrite Hct; exact Hc|]. split; [exact Hlt|].
  split; [rewrite Hnt, Hn; reflexivity|].
  rewrite <- Ht. exact Hit.
Qed.

(* ================================================================== *)
(** * The weighting stage on the selected set *)

(** With fewer than four rows in the factor table the first five stages
    raise. *)
Lemma stages_1_5_small yf sq kode :
  (nrows (factor_table yf kode) < 4)%nat ->
  stages_1_5 yf sq (init kode) = Raise IndexError.
Proof.
  intros Hn.
  destruct (stages_1_3_table yf kode) as (s3 & H3 & Hd & Hc & _).
  destruct (factor_table_shape yf kode) as (Hcols & _).
  rewrite stages_1_5_split, H3. cbn [bind].
  unfold _agg_zscore, _zscore.
  rewrite (winsorisation_needs_four_rows alpha_default s3
             (factor_table yf kode) "PE" ["PBV"] Hd Hc);
    [reflexivity | rewrite Hcols; discriminate | exact Hn].
Qed.

(** The first five stages return exactly when the factor table has four
    rows or more. *)
Lemma stages_1_5_returns yf sq kode s5 :
  stages_1_5 yf sq (init kode) = Ret s5 ->
  (4 <= nrows (factor_table yf kode))%nat /\
  exists df5,
    selected_stocks s5 = Some df5 /\
    idx80_obj s5 = Some (yf (String.concat " " (jk kode))) /\
    wf_df df5 /\ columns df5 = scored_columns /\
    map label (rows df5) = seq 0 (nrows df5) /\
    nrows df5 = Nat.min 30 (nrows (factor_table yf kode)) /\
    incl (tickers_of df5) (tickers_of (factor_table yf kode)).
Proof.
  intros H5.
  destruct (Nat.ltb (nrows (factor_table yf kode)) 4) eqn:E.
  - apply Nat.ltb_lt in E.
    rewrite (stages_1_5_small yf sq kode E) in H5. discriminate.
  - apply Nat.ltb_ge in E. split; [exact E|].
    destruct (selected_table yf sq kode E) as (s5' & df5 & H5' & Hrest).
    rewrite H5 in H5'. injection H5' as <-. exists df5. exact Hrest.
Qed.

(** The weights the weighting stage leaves whenever its loop is entered and
    ends. *)
Lemma weighting_postcondition fuel limit self self' df0 obj :
  selected_stocks self = Some df0 ->
  wf_df df0 -> fresh_for_weights df0 ->
  idx80_obj self = Some obj ->
  (forall t x, In t (tickers_of df0) -> fetch_mc obj t = Ret x -> nonneg x) ->
  0 <= limit ->
  over_cap limit self = Ret true ->
  _get_each_weight fuel limit self = Ret self' ->
  exists ws,
    selected_col "adj_mc_weight" self' = Ret ws /\
    capped_weights limit (nrows df0) ws.
Proof.
  intros Hd Hwf Hfresh Ho Hpos Hl Hover H.
  unfold over_cap in Hover. bind_inv Hover. bind_inv Hover.
  injection Hover as Hex.
  destruct (raw_weights_frame self df0 obj a Hd Hwf
              (Hfresh "mc" (or_introl eq_refl)) Ho Hpos E)
    as [dfm [mcs [Hwfm [Hcm [Hlm [Hmc [Hnn ->]]]]]]].
  assert (Hw0 : index_of "mc_weight" (columns dfm) = None).
  { rewrite Hcm, index_of_app_other by discriminate.
    apply Hfresh. right. left. reflexivity. }
  assert (Ha0 : index_of "adj_mc" (columns dfm) = None).
  { rewrite Hcm, index_of_app_other by discriminate.
    apply Hfresh. right. right. left. reflexivity. }
  assert (Haw0 : index_of "adj_mc_weight" (columns dfm) = None).
  { rewrite Hcm, index_of_app_other by discriminate.
    apply Hfresh. right. right. right. left. reflexivity. }
  set (f := fun m => np_round (fdiv m (series_sum mcs)) 2) in *.
  set (dfr := set_col "mc_weight" (map f mcs) dfm) in *.
  pose proof (length_get_col _ _ _ Hmc) as Hlen.
  assert (Hflen : List.length (map f mcs) = nrows dfm)
    by (rewrite length_map; exact Hlen).
  destruct (set_col_frame "mc_weight" (map f mcs) dfm Hwfm Hflen)
    as [Hwfr [Hnr [Hsr Hor]]]. fold dfr in Hwfr, Hnr, Hsr, Hor.
  rewrite Hsr in E0. injection E0 as <-.
  unfold _get_each_weight in H. rewrite E in H. cbn [bind] in H.
  rewrite Hsr in H. cbn [bind] in H. rewrite Hex in H.
  rewrite Hor in H by discriminate. rewrite Hmc in H. cbn [bind] in H.
  bind_inv H. destruct a as [over non_over]. cbn [fst snd] in H.
  pose proof (entry_inv limit dfm mcs over non_over Hwfm Hw0 Ha0 Haw0 Hmc
                Hnn Hl Hex E0) as Hinv.
  fold f in Hinv. fold dfr in Hinv.
  destruct (capping_loop_inv fuel limit over non_over
              (with_selected (set_col "adj_mc" mcs dfr) self) self'
              (set_col "adj_mc" mcs dfr) eq_refl Hinv Hl H)
    as [ws [Hws Hcap]].
  assert (Hn : nrows (set_col "adj_mc" mcs dfr) = nrows df0).
  { rewrite nrows_set_col by (rewrite Hnr; exact Hlen).
    rewrite Hnr. unfold nrows.
    rewrite <- (length_map label), Hlm. apply length_map. }
  rewrite Hn in Hcap. exists ws. split; assumption.
Qed.

Lemma fresh_scored_columns df :
  columns df = scored_columns -> fresh_for_weights df.
Proof.
  intros Hc c Hin. rewrite Hc. simpl in Hin.
  destruct Hin as [<- | [<- | [<- | [<- | []]]]]; reflexivity.
Qed.

Lemma qsum_le_count qs L :
  Forall (fun q => q <= L) qs ->
  qsum qs <= inject_Z (Z.of_nat (List.length qs)) * L.
Proof.
  induction 1 as [|q qs Hq _ IH].
  - cbn [qsum fold_right List.length].
    change (inject_Z (Z.of_nat 0)) with 0. lra.
  - cbn [qsum fold_right List.length]. fold (qsum qs).
    rewrite Nat2Z.inj_succ. unfold Z.succ. rewrite inject_Z_plus.
    change (inject_Z 1) with 1. lra.
Qed.

(** Weights that are not over the limit and add up to 1 within the
    rounding slack are seven or more. *)
Lemma capped_weights_count n ws :
  capped_weights limit_default n ws -> (7 <= n)%nat.
Proof.
  intros [Hlen [Hall [q [Hq Hb]]]].
  assert (Hnn : Forall nonneg ws)
    by (eapply Forall_impl; [|exact Hall]; intros w [H _]; exact H).
  destruct (nonneg_list ws Hnn) as [qs [-> Hqs]].
  destruct (series_sum_Fin qs) as [q' [Hq' Heq]].
  rewrite Hq in Hq'. injection Hq' as <-.
  assert (Hle : Forall (fun x => x <= limit_default) qs).
  { rewrite Forall_forall in *. intros x Hx.
    destruct (Hall (Fin x)) as [_ H]; [apply in_map; exact Hx | exact H]. }
  pose proof (qsum_le_count qs limit_default Hle) as Hs.
  rewrite length_map in Hlen. rewrite Hlen in Hs.
  apply Qabs_Qle_condition in Hb. destruct Hb as [Hb _].
  unfold rounding_slack in Hb. unfold limit_default in Hs.
  destruct (Nat.ltb n 7) eqn:E; [|apply Nat.ltb_ge in E; exact E].
  exfalso. apply Nat.ltb_lt in E.
  assert (Hn : inject_Z (Z.of_nat n) <= 6).
  { change 6 with (inject_Z 6). rewrite <- Zle_Qle. lia. }
  lra.
Qed.

Lemma get_col_project name df dfi :
  project name df = Ret dfi ->
  get_col "weight" (mkDF ["weight"] (rows dfi)) = get_col name df.
Proof.
  unfold project, get_col. destruct (index_of name (columns df)) as [k|];
    [|discriminate].
  intros H. injection H as <-. cbn [columns rows].
  change (index_of "weight" ["weight"]) with (Some 0%nat).
  cbv beta iota. f_equal. rewrite map_map. reflexivity.
Qed.

(* ================================================================== *)
(** * One round of [_limit_cap], in closed form *)

(** [adjust_rate]: the division raises only when [n_over * limit] is 1. *)
Lemma adjust_rate_run n lw :
  ~ inject_Z (Z.of_nat n) * lw == 1 ->
  exists x,
    py_div (fmul (of_nat n) (Fin lw))
           (fsub (Fin 1) (fmul (of_nat n) (Fin lw))) = Ret x.
Proof.
  intros H. unfold of_nat. cbn [fmul fsub fneg fadd py_div].
  destruct (Qeq_bool (1 + - (inject_Z (Z.of_nat n) * lw)) 0) eqn:E.
  - exfalso. apply H. apply Qeq_bool_iff in E. lra.
  - eexists. reflexivity.
Qed.

(** With the default limit it never does: 15 n = 100 has no solution. *)
Lemma default_limit_rate n : ~ inject_Z (Z.of_nat n) * limit_default == 1.
Proof.
  unfold limit_default, Qeq. simpl. rewrite Z.mul_1_r. lia.
Qed.

Lemma share_run n :
  (1 <= n)%nat ->
  py_div (Fin 1) (of_nat n) = Ret (fdiv (Fin 1) (of_nat n)).
Proof.
  intros Hn. unfold py_div, of_nat.
  destruct (Qeq_bool (inject_Z (Z.of_nat n)) 0) eqn:E; [|reflexivity].
  exfalso. apply Qeq_bool_iff in E. unfold Qeq in E. simpl in E. lia.
Qed.

(** The [for] of [_limit_cap] as a fold over the rows. *)
Lemma adjust_loop_fold share n p (val : Row -> f64) rs : forall df,
  index_of "adj_mc" (columns df) = Some p ->
  (forall r, In r rs -> row_last r = Ret (val r)) ->
  (rs <> [] -> py_div (Fin 1) (of_nat n) = Ret share) ->
  foldM (fun df r =>
           mc_s <- row_last r ;;
           share <- py_div (Fin 1) (of_nat n) ;;
           Ret (loc_set (label r) "adj_mc" (fmul share mc_s) df)) rs df
  = Ret (mkDF (columns df)
           (fold_left
              (fun rows r =>
                 map (fun r0 => if Nat.eqb (label r0) (label r)
                                then row_put (Some p) (fmul share (val r)) r0
                                else r0) rows)
              rs (rows df))).
Proof.
  set (f := fun (df : DataFrame) (r : Row) =>
              mc_s <- row_last r ;;
              share <- py_div (Fin 1) (of_nat n) ;;
              Ret (loc_set (label r) "adj_mc" (fmul share mc_s) df)).
  induction rs as [|r rs IH]; intros df Hp Hval Hshare.
  - destruct df. reflexivity.
  - cbn [foldM fold_left].
    assert (Hf : f df r
                 = Ret (loc_set (label r) "adj_mc" (fmul share (val r)) df)).
    { unfold f. rewrite (Hval r) by (left; reflexivity). cbn [bind].
      rewrite Hshare by discriminate. reflexivity. }
    rewrite Hf. cbn [bind].
    rewrite (loc_set_existing _ _ _ _ _ Hp).
    rewrite IH; [reflexivity | exact Hp | |].
    + intros r' Hr'. apply Hval. right. exact Hr'.
    + intros _. apply Hshare. discriminate.
Qed.

(** Updating by label, for rows with distinct labels: every row is updated
    by the one row of the list that bears its label, if any. *)
Lemma fold_update_find (g : Row -> Row -> Row) rs :
  (forall r r0, label (g r r0) = label r0) ->
  NoDup (map label rs) ->
  forall rows,
    fold_left (fun rows r => map (fun r0 => if Nat.eqb (label r0) (label r)
                                            then g r r0 else r0) rows)
              rs rows
    = map (fun r0 => match find (fun r => Nat.eqb (label r0) (label r)) rs with
                     | Some r => g r r0
                     | None => r0
                     end) rows.
Proof.
  intros Hg. induction rs as [|r rs IH]; intros Hnd rows; cbn [fold_left find].
  - symmetry. apply map_id.
  - cbn [map] in Hnd. inversion Hnd as [|? ? Hr Hnd']; subst.
    rewrite (IH Hnd'), map_map. apply map_ext. intros r0.
    destruct (Nat.eqb (label r0) (label r)) eqn:E.
    + rewrite Hg.
      destruct (find (fun r1 => Nat.eqb (label r0) (label r1)) rs) as [r1|]
        eqn:F; [|reflexivity].
      exfalso. apply find_some in F. destruct F as [Hin Heq].
      apply Nat.eqb_eq in E. apply Nat.eqb_eq in Heq. apply Hr.
      rewrite <- E, Heq. apply in_map. exact Hin.
    + reflexivity.
Qed.

(** Among rows with distinct labels, the row of a filtered list that bears
    the label of a row is that row, if it passed the filter. *)
Lemma find_label_filter (P : Row -> bool) l : forall r0,
  NoDup (map label l) -> In r0 l ->
  find (fun r => Nat.eqb (label r0) (label r)) (filter P l)
  = if P r0 then Some r0 else None.
Proof.
  induction l as [|r l IH]; intros r0 Hnd Hin; [contradiction|].
  cbn [map] in Hnd. inversion Hnd as [|? ? Hr Hnd']; subst.
  cbn [filter]. destruct Hin as [-> | Hin].
  - destruct (P r0) eqn:E.
    + cbn [find]. rewrite Nat.eqb_refl. reflexivity.
    + destruct (find _ (filter P l)) as [r1|] eqn:F; [|reflexivity].
      exfalso. apply find_some in F. destruct F as [Hin Heq].
      apply filter_In in Hin. apply Nat.eqb_eq in Heq. apply Hr.
      rewrite Heq. apply in_map. tauto.
  - assert (Hne : Nat.eqb (label r0) (label r) = false).
    { apply Nat.eqb_neq. intros Heq. apply Hr. rewrite <- Heq.
      apply in_map. exact Hin. }
    destruct (P r); cbn [find]; rewrite ?Hne; apply IH; assumption.
Qed.

Lemma length_filter_map (A B : Type) (f : A -> B) (p : B -> bool) l :
  List.length (filter p (map f l))
  = List.length (filter (fun x => p (f x)) l).
Proof.
  induction l as [|x l IH]; simpl; [reflexivity|].
  destruct (p (f x)); simpl; rewrite IH; reflexivity.
Qed.

Lemma map_combine_maps (A B C D E : Type) (f : A -> B) (g : A -> C)
  (k : A -> D) (h : B * (C * D) -> E) l :
  map h (combine (map f l) (combine (map g l) (map k l)))
  = map (fun x => h (f x, (g x, k x))) l.
Proof. induction l as [|x l IH]; simpl; [|rewrite IH]; reflexivity. Qed.

(** A round of [_limit_cap], whatever the last column of the frame is. *)
Lemma limit_cap_round name lastname limit lw s df over non adj src wcol :
  selected_stocks s = Some df ->
  wf_df df -> NoDup (map label (rows df)) ->
  index_of lastname (columns df) = Some (List.length (columns df) - 1)%nat ->
  get_col lastname df = Ret src ->
  get_col "adj_mc" df = Ret adj ->
  get_col name df = Ret wcol ->
  split_over name limit df = Ret (over, non) ->
  ~ inject_Z (Z.of_nat (nrows over)) * lw == 1 ->
  let adj' := rescaled limit adj src wcol in
  nrows over
  = List.length (filter (fun w => fgt w (Fin limit)) wcol) /\
  exists df',
    _limit_cap over non lw s = Ret (with_selected df' s) /\
    get_col "adj_mc" df' = Ret adj' /\
    get_col "adj_mc_weight" df' = Ret (shares adj' 3) /\
    tickers_of df' = tickers_of df.
Proof.
  intros Hd Hwf Hnd Hq Hsrc Hadj Hw Hsplit Hrate adj'.
  set (q := (List.length (columns df) - 1)%nat) in *.
  destruct (get_col_index _ _ _ Hw) as [kw Hkw].
  destruct (get_col_index _ _ _ Hadj) as [p Hp].
  rewrite (get_col_rows _ _ _ Hkw) in Hw. injection Hw as <-.
  rewrite (get_col_rows _ _ _ Hp) in Hadj. injection Hadj as <-.
  rewrite (get_col_rows _ _ _ Hq) in Hsrc. injection Hsrc as <-.
  set (P := fun r : Row => fgt (nth kw (vals r) NaN) (Fin limit)).
  unfold split_over, loc_mask in Hsplit. rewrite Hkw in Hsplit.
  cbn [bind] in Hsplit. injection Hsplit as <- <-.
  cbn [nrows rows] in *. fold P in Hrate |- *.
  set (rs := filter P (rows df)) in *.
  assert (Hcount : List.length rs
                   = List.length (filter (fun w => fgt w (Fin limit))
                                   (map (fun r => nth kw (vals r) NaN) (rows df))))
    by (rewrite length_filter_map; reflexivity).
  split; [exact Hcount|].
  set (n := List.length rs) in *.
  set (share := fdiv (Fin 1) (of_nat n)).
  set (val := fun r : Row => nth q (vals r) NaN).
  assert (Hlenv : forall r, In r (rows df) -> (p < List.length (vals r))%nat).
  { intros r Hr. unfold wf_df in Hwf. rewrite Forall_forall in Hwf.
    rewrite (Hwf r Hr). eapply index_of_lt. exact Hp. }
  assert (Hval : forall r, In r rs -> row_last r = Ret (val r)).
  { intros r Hr. apply filter_In in Hr. destruct Hr as [Hr _].
    pose proof (Hlenv r Hr) as Hl.
    rewrite row_last_nth by (destruct (vals r); [simpl in Hl; lia | discriminate]).
    unfold val, q. unfold wf_df in Hwf. rewrite Forall_forall in Hwf.
    rewrite (Hwf r Hr). reflexivity. }
  assert (Hshare : rs <> [] -> py_div (Fin 1) (of_nat n) = Ret share).
  { intros Hne. apply share_run. unfold n.
    destruct rs; [congruence | simpl; lia]. }
  set (g := fun r r0 : Row => row_put (Some p) (fmul share (val r)) r0).
  set (rows1 := map (fun r0 => if P r0 then g r0 r0 else r0) (rows df)).
  assert (Hfold : foldM (fun df r =>
                           mc_s <- row_last r ;;
                           share <- py_div (Fin 1) (of_nat n) ;;
                           Ret (loc_set (label r) "adj_mc" (fmul share mc_s) df))
                        rs df
                  = Ret (mkDF (columns df) rows1)).
  { rewrite (adjust_loop_fold share n p val rs df Hp Hval Hshare).
    f_equal. f_equal.
    rewrite (fold_update_find g rs).
    - unfold rows1. apply map_ext_in. intros r0 Hr0.
      unfold rs. rewrite (find_label_filter P (rows df) r0 Hnd Hr0).
      destruct (P r0); reflexivity.
    - intros r r0. apply label_row_put.
    - unfold rs. clear - Hnd. induction (rows df) as [|r l IH]; [constructor|].
      cbn [map] in Hnd. inversion Hnd as [|? ? Hr Hnd']; subst.
      cbn [filter]. destruct (P r); [|apply IH; exact Hnd'].
      cbn [map]. constructor; [|apply IH; exact Hnd'].
      intros Hin. apply Hr. apply in_map_iff in Hin.
      destruct Hin as [x [Hx Hin]]. apply filter_In in Hin.
      rewrite <- Hx. apply in_map. tauto. }
  set (df1 := mkDF (columns df) rows1).
  assert (Hwf1 : wf_df df1).
  { unfold wf_df, df1, rows1. cbn [rows columns]. apply Forall_forall.
    intros r Hr. apply in_map_iff in Hr. destruct Hr as [r0 [<- Hr0]].
    unfold wf_df in Hwf. rewrite Forall_forall in Hwf.
    destruct (P r0); [|apply Hwf; exact Hr0].
    unfold g. cbn [row_put vals]. rewrite length_set_nth. apply Hwf, Hr0. }
  assert (Hadj1 : get_col "adj_mc" df1 = Ret adj').
  { rewrite (get_col_rows "adj_mc" df1 p Hp). f_equal.
    unfold df1, rows1. cbn [rows]. rewrite map_map.
    unfold adj', rescaled. rewrite map_combine_maps.
    cbn [fst snd]. rewrite <- Hcount. fold n. fold share.
    apply map_ext_in. intros r0 Hr0. fold (P r0).
    destruct (P r0); [|reflexivity].
    unfold g. cbn [row_put vals]. apply nth_set_nth_same, Hlenv, Hr0. }
  destruct (get_col_present "adj_mc" (isin_tickers (non_over_tickers df (mkDF (columns df) rs)) df) p Hp)
    as [under Hunder].
  destruct (adjust_rate_run n lw Hrate) as [rate Hr].
  assert (Hlen : List.length (shares adj' 3) = nrows df1).
  { unfold shares. rewrite length_map. eapply length_get_col. exact Hadj1. }
  destruct (set_col_full "adj_mc_weight" (shares adj' 3) df1 Hwf1 Hlen)
    as (_ & _ & Ht & _ & Hsame & Hother).
  exists (set_col "adj_mc_weight" (shares adj' 3) df1).
  split.
  { unfold _limit_cap. cbv zeta.
    change (nrows {| columns := columns df; rows := rs |}) with n.
    rewrite Hr. cbn [bind].
    rewrite Hunder. cbn [bind]. rewrite Hd. cbn [attr bind rows].
    rewrite Hfold. cbn [bind]. fold df1. rewrite Hadj1. reflexivity. }
  split; [rewrite Hother by discriminate; exact Hadj1|].
  split; [exact Hsame|].
  rewrite Ht. unfold df1, rows1, tickers_of. cbn [rows]. rewrite map_map.
  apply map_ext. intros r0. destruct (P r0); reflexivity.
Qed.

(* ================================================================== *)
(** * The scores of finite columns *)

Lemma finite_list l :
  Forall (fun x => is_finite x = true) l -> exists qs, l = map Fin qs.
Proof.
  induction 1 as [|x l Hx _ [qs ->]].
  - exists []. reflexivity.
  - destruct x as [q| | |]; try discriminate. exists (q :: qs). reflexivity.
Qed.

Lemma count_valid_Fin qs : count_valid (map Fin qs) = List.length qs.
Proof.
  unfold count_valid. induction qs as [|a qs IH]; simpl;
    [reflexivity | rewrite IH; reflexivity].
Qed.

Lemma nth_map_Fin qs k :
  (k < List.length qs)%nat -> nth k (map Fin qs) NaN = Fin (nth k qs 0).
Proof.
  intros Hk. rewrite (nth_indep _ NaN (Fin 0)) by (rewrite length_map; exact Hk).
  apply (map_nth Fin qs 0 k).
Qed.

(** The mean of a non-empty column of finite values is finite. *)
Lemma series_mean_Fin qs :
  qs <> [] -> exists m, series_mean (map Fin qs) = Fin m.
Proof.
  intros Hne. unfold series_mean.
  destruct (series_sum_Fin qs) as [q [-> _]].
  rewrite count_valid_Fin. unfold of_nat, fdiv.
  destruct (Qeq_bool (inject_Z (Z.of_nat (List.length qs))) 0) eqn:E.
  - exfalso. apply Qeq_bool_iff in E. unfold Qeq in E. simpl in E.
    destruct qs; [congruence | simpl in E; lia].
  - eexists. reflexivity.
Qed.

(** A z-score of a finite column with a positive deviation. *)
Lemma zscores_nth sq qs i :
  positive (series_std sq (map Fin qs)) -> (i < List.length qs)%nat ->
  exists m p,
    0 < p /\
    forall k, (k < List.length qs)%nat ->
      nth k (zscores sq (map Fin qs)) NaN = Fin ((nth k qs 0 + - m) / p).
Proof.
  intros Hp Hi.
  destruct (series_mean_Fin qs) as [m Hm];
    [destruct qs; [simpl in Hi; lia | discriminate]|].
  destruct (series_std sq (map Fin qs)) as [p| | |] eqn:Es;
    simpl in Hp; try contradiction.
  exists m, p. split; [exact Hp|]. intros k Hk.
  unfold zscores. rewrite Es, Hm.
  rewrite (nth_indep _ NaN (fdiv (fsub (Fin 0) (Fin m)) (Fin p)))
    by (rewrite !length_map; exact Hk).
  rewrite (map_nth (fun x => fdiv (fsub x (Fin m)) (Fin p)) (map Fin qs)
             (Fin 0) k).
  rewrite (map_nth Fin qs 0 k).
  cbn [fsub fneg fadd fdiv].
  destruct (Qeq_bool p 0) eqn:E; [|reflexivity].
  exfalso. apply Qeq_bool_iff in E. rewrite E in Hp.
  apply (Qlt_irrefl 0). exact Hp.
Qed.

(** The composite score is monotone in both winsorised factors. *)
Lemma composite_monotone sq w1 w2 i j :
  Forall (fun x => is_finite x = true) w1 ->
  Forall (fun x => is_finite x = true) w2 ->
  List.length w1 = List.length w2 ->
  positive (series_std sq w1) -> positive (series_std sq w2) ->
  (i < List.length w1)%nat -> (j < List.length w1)%nat ->
  qval (nth i w1 NaN) <= qval (nth j w1 NaN) ->
  qval (nth i w2 NaN) <= qval (nth j w2 NaN) ->
  exists a b,
    nth i (composite (zscores sq w1) (zscores sq w2)) NaN = Fin a /\
    nth j (composite (zscores sq w1) (zscores sq w2)) NaN = Fin b /\
    a <= b.
Proof.
  intros F1 F2 Hlen P1 P2 Hi Hj L1 L2.
  destruct (finite_list w1 F1) as [q1 ->].
  destruct (finite_list w2 F2) as [q2 ->].
  rewrite !length_map in *.
  destruct (zscores_nth sq q1 i P1 Hi) as (m1 & p1 & Hp1 & Z1).
  destruct (zscores_nth sq q2 i P2) as (m2 & p2 & Hp2 & Z2);
    [rewrite <- Hlen; exact Hi|].
  assert (Hc : forall k, (k < List.length q1)%nat ->
             nth k (composite (zscores sq (map Fin q1))
                              (zscores sq (map Fin q2))) NaN
             = Fin ((0 + (nth k q1 0 + - m1) / p1 + (nth k q2 0 + - m2) / p2)
                    / inject_Z 2)).
  { intros k Hk. unfold composite.
    set (f := fun ab : f64 * f64 =>
                fdiv (fadd (fadd (Fin 0) (fst ab)) (snd ab)) (of_nat 2)).
    rewrite (nth_indep _ NaN (f (NaN, NaN)))
      by (rewrite length_map, length_combine, !length_zscores, !length_map;
          lia).
    rewrite (map_nth f _ (NaN, NaN) k), combine_nth
      by (rewrite !length_zscores, !length_map; exact Hlen).
    rewrite (Z1 k Hk), (Z2 k) by (rewrite <- Hlen; exact Hk).
    reflexivity. }
  rewrite !nth_map_Fin in L1 by assumption.
  rewrite !nth_map_Fin in L2 by (rewrite <- Hlen; assumption).
  cbn [qval] in L1, L2.
  eexists. eexists. split; [apply Hc; exact Hi|].
  split; [apply Hc; exact Hj|].
  assert (H1 : (nth i q1 0 + - m1) / p1 <= (nth j q1 0 + - m1) / p1).
  { unfold Qdiv. apply Qmult_le_compat_r; [lra|].
    apply Qlt_le_weak, Qinv_lt_0_compat. exact Hp1. }
  assert (H2 : (nth i q2 0 + - m2) / p2 <= (nth j q2 0 + - m2) / p2).
  { unfold Qdiv. apply Qmult_le_compat_r; [lra|].
    apply Qlt_le_weak, Qinv_lt_0_compat. exact Hp2. }
  unfold Qdiv at 1 4. apply Qmult_le_compat_r; [lra|].
  apply Qlt_le_weak, Qinv_lt_0_compat. reflexivity.
Qed.

(* ================================================================== *)
(** * Running the stages a second time, and the first fetch that fails *)

(** A loop whose body returns for the first items and raises for the next
    one raises that exception. *)
Lemma foldM_first_raise (A S B : Type) (g : A -> outcome B)
  (h : S -> A -> B -> S) (pre : list A) (x : A) (post : list A) (e : exn) :
  (forall u, In u pre -> exists b, g u = Ret b) ->
  g x = Raise e ->
  forall s,
    foldM (fun s x => b <- g x ;; Ret (h s x b)) (pre ++ x :: post) s = Raise e.
Proof.
  intros Hpre Hx. induction pre as [|u pre IH]; intros s; cbn [app foldM].
  - rewrite Hx. reflexivity.
  - destruct (Hpre u (or_introl eq_refl)) as [b Hb]. rewrite Hb. cbn [bind].
    apply IH. intros v Hv. apply Hpre. right. exact Hv.
Qed.

Lemma combine_seq_app (A : Type) (l1 l2 : list A) a :
  combine (seq a (List.length (l1 ++ l2))) (l1 ++ l2)
  = (combine (seq a (List.length l1)) l1
     ++ combine (seq (a + List.length l1) (List.length l2)) l2)%list.
Proof.
  revert a. induction l1 as [|x l1 IH]; intros a.
  - simpl. rewrite Nat.add_0_r. reflexivity.
  - cbn [List.length app seq combine]. rewrite IH.
    replace (a + S (List.length l1))%nat with (S a + List.length l1)%nat
      by lia.
    reflexivity.
Qed.

(** The fetch loop of [_get_each_weight] stops at the first ticker whose
    fetch raises. *)
Lemma raw_weights_first_raise self obj df pre t post e :
  idx80_obj self = Some obj ->
  selected_stocks self = Some df ->
  tickers_of df = (pre ++ t :: post)%list ->
  (forall u, In u pre -> exists x, fetch_mc obj u = Ret x) ->
  fetch_mc obj t = Raise e ->
  raw_weights self = Raise e.
Proof.
  intros Ho Hd Ht Hpre He. unfold raw_weights.
  rewrite Ho, Hd. cbn [attr bind].
  set (df0 := set_col "mc" (repeat (Fin 0) (nrows df)) df).
  assert (Hn : nrows df0 = nrows df)
    by (apply nrows_set_col, repeat_length).
  assert (Htk : tickers_of df0 = tickers_of df)
    by (apply tickers_set_col, repeat_length).
  rewrite Htk, Ht.
  assert (Hlen : nrows df0 = List.length (pre ++ t :: post)).
  { rewrite Hn. unfold nrows. rewrite <- Ht. unfold tickers_of.
    rewrite length_map. reflexivity. }
  rewrite Hlen, combine_seq_app.
  cbn [List.length seq combine].
  rewrite (foldM_first_raise (nat * string) DataFrame f64
             (fun it => fetch_mc obj (snd it))
             (fun df it mc_i => loc_set (fst it) "mc" mc_i df)
             _ _ _ e); [reflexivity | | exact He].
  intros [k u] Hu. apply Hpre. eapply in_combine_r. exact Hu.
Qed.

(* ================================================================== *)
(** * The ranking of a column without ties *)

(** [sort_desc] sorts: every entry is followed by one that is not above
    it, [nan] last. *)
Lemma sort_desc_sorted ser :
  Sorted (fun a b : nat * f64 =>
            match snd a, snd b with
            | NaN, NaN => true
            | NaN, _ => false
            | _, NaN => true
            | x, y => negb (fgt y x)
            end = true) (sort_desc ser).
Proof.
  unfold sort_desc. apply sort_by_sorted. intros [i x] [j y]. cbn [snd].
  destruct x as [a| | |], y as [b| | |]; cbn [fgt negb]; auto.
  unfold Qlt_bool. rewrite !negb_involutive.
  destruct (Qle_bool a b) eqn:E; [right; reflexivity | left].
  apply Qle_bool_iff. apply Qlt_le_weak. apply Qnot_le_lt.
  intros H. apply Qle_bool_iff in H. congruence.
Qed.

(** In a column without ties, two entries are the same entry or one is
    above the other. *)
Lemma no_ties_above (ser : Series) :
  no_ties (map snd ser) = true ->
  forall a b, In a ser -> In b ser ->
    a = b \/ above a b = true \/ above b a = true.
Proof.
  induction ser as [|c ser IH]; intros H a b Ha Hb; [contradiction|].
  cbn [map no_ties] in H. apply andb_true_iff in H. destruct H as [Hc Hrest].
  rewrite forallb_forall in Hc.
  assert (Hhead : forall d, In d ser ->
                            above c d = true \/ above d c = true).
  { intros d Hd. apply orb_true_iff. apply (Hc (snd d)).
    apply in_map. exact Hd. }
  destruct Ha as [<- | Ha], Hb as [<- | Hb].
  - left. reflexivity.
  - right. apply Hhead. exact Hb.
  - right. destruct (Hhead a Ha) as [H | H]; [right | left]; exact H.
  - apply IH; assumption.
Qed.

(** A sorted list of distinct entries without ties is strictly
    descending. *)
Lemma sorted_strict (l : list (nat * f64)) :
  Sorted (fun a b : nat * f64 =>
            match snd a, snd b with
            | NaN, NaN => true
            | NaN, _ => false
            | _, NaN => true
            | x, y => negb (fgt y x)
            end = true) l ->
  NoDup l ->
  (forall a b, In a l -> In b l ->
     a = b \/ above a b = true \/ above b a = true) ->
  Sorted (fun a b => above a b = true) l.
Proof.
  induction l as [|a l IH]; intros Hs Hnd Hu; [constructor|].
  apply Sorted_inv in Hs. destruct Hs as [Hs Hhd].
  inversion Hnd as [|? ? Hnotin Hnd']; subst.
  constructor.
  - apply IH; [exact Hs | exact Hnd' |].
    intros x y Hx Hy. apply Hu; right; assumption.
  - destruct l as [|b l]; [constructor|]. constructor.
    apply HdRel_inv in Hhd.
    destruct (Hu a b (or_introl eq_refl) (or_intror (or_introl eq_refl)))
      as [Heq | [H | H]].
    + exfalso. apply Hnotin. left. symmetry. exact Heq.
    + exact H.
    + exfalso. unfold above in H.
      destruct (snd a) as [x| | |], (snd b) as [y| | |];
        cbn [fgt negb] in *; try discriminate.
      rewrite H in Hhd. discriminate.
Qed.

(** The ranking of a Series with distinct labels and no ties: a
    permutation of the Series in strictly descending order. *)
Lemma sort_desc_strict ser :
  NoDup (map fst ser) -> no_ties (map snd ser) = true ->
  Permutation (sort_desc ser) ser /\
  Sorted (fun a b => above a b = true) (sort_desc ser).
Proof.
  intros Hnd Ht. split; [apply Permutation_sort_desc|].
  apply sorted_strict.
  - apply sort_desc_sorted.
  - eapply Permutation_NoDup;
      [apply Permutation_sym, Permutation_sort_desc|].
    eapply NoDup_map_inv. exact Hnd.
  - intros a b Ha Hb. apply (no_ties_above ser Ht).
    + eapply Permutation_in; [apply Permutation_sort_desc | exact Ha].
    + eapply Permutation_in; [apply Permutation_sort_desc | exact Hb].
Qed.

(* ================================================================== *)
(** * The exception of a fetch that fails *)

(** In a list with an item for which [g] raises, there is a first one. *)
Lemma first_raise_split (A B : Type) (g : A -> outcome B) (l : list A) :
  (forall x, (exists b, g x = Ret b) \/ (exists e, g x = Raise e)) ->
  (exists x e, In x l /\ g x = Raise e) ->
  exists pre x post e,
    l = (pre ++ x :: post)%list /\
    (forall u, In u pre -> exists b, g u = Ret b) /\
    g x = Raise e.
Proof.
  intros Hg. induction l as [|a l IH]; intros [x [e [Hin He]]].
  - contradiction.
  - destruct (Hg a) as [[b Hb] | [e' He']].
    + destruct Hin as [-> | Hin]; [congruence|].
      destruct (IH (ex_intro _ x (ex_intro _ e (conj Hin He))))
        as (pre & y & post & e' & -> & Hpre & Hy).
      exists (a :: pre), y, post, e'.
      split; [reflexivity|]. split; [|exact Hy].
      intros u [<- | Hu]; [exists b; exact Hb | apply Hpre; exact Hu].
    + exists [], a, l, e'.
      split; [reflexivity|]. split; [intros u []|exact He'].
Qed.

(** [fetch_mc] on a ticker the provider's answer holds is [_weight] on its
    entry. *)
Lemma fetch_mc_found obj t k tk :
  index_of t (symbols obj) = Some k ->
  nth_error (tickers obj) k = Some tk ->
  fetch_mc obj t = _weight tk.
Proof.
  intros Hk Htk. unfold fetch_mc, list_get.
  rewrite Hk. cbn [bind]. rewrite Htk. reflexivity.
Qed.

(** If reading [info] raises, [_weight] raises the same exception. *)
Lemma weight_raises_info tk e0 : info tk = Raise e0 -> _weight tk = Raise e0.
Proof. intros H. unfold _weight. rewrite H. reflexivity. Qed.

(** If [info] is a dict and [_weight] raises, the exception is the
    [KeyError] of the first field the dict lacks, in the order
    [marketCap], [floatShares], [sharesOutstanding]; when no field is
    absent it is the [TypeError] of an arithmetic on [None] or the
    [ZeroDivisionError] of the free-float ratio. *)
Lemma weight_raises_dict tk d e :
  info tk = Ret d -> _weight tk = Raise e ->
  match first_absent d with
  | Some f => e = KeyError f
  | None => e = TypeError \/ e = ZeroDivisionError
  end.
Proof.
  intros Hd He. unfold _weight in He. rewrite Hd in He. cbn [bind] in He.
  unfold first_absent, cap_fields, absent. cbn [find].
  destruct (dict_get_cases "marketCap" d) as [[m Hm] | Hm];
    rewrite Hm in *; cbn [bind] in He; [|congruence].
  destruct (dict_get_cases "floatShares" d) as [[fs Hfs] | Hfs];
    rewrite Hfs in *; cbn [bind] in He; [|congruence].
  destruct (dict_get_cases "sharesOutstanding" d) as [[so Hso] | Hso];
    rewrite Hso in *; cbn [bind] in He; [|congruence].
  destruct fs as [|a]; cbn [as_num bind] in He; [left; congruence|].
  destruct so as [|b]; cbn [as_num bind] in He; [left; congruence|].
  destruct (py_div_cases a b) as [[z Hz] | Hz]; rewrite Hz in He;
    cbn [bind] in He; [|right; congruence].
  destruct m as [|c]; cbn [as_num bind] in He; [left; congruence|].
  discriminate.
Qed.

Lemma first_absent_field d f : first_absent d = Some f -> In f cap_fields.
Proof.
  unfold first_absent. intros H. apply find_some in H. apply H.
Qed.

(** A name with the suffix [.JK] ends in [K]; no field name and no empty
    argument does. *)
Lemma last_char_JK c : last_char (c ++ ".JK") = Some "K"%char.
Proof.
  induction c as [|a c IH]; [reflexivity|].
  cbn [append last_char]. rewrite IH.
  destruct c; reflexivity.
Qed.

Lemma field_is_no_ticker s c :
  In s (""%string :: cap_fields) -> s <> (c ++ ".JK")%string.
Proof.
  intros Hin Heq. assert (H := last_char_JK c). rewrite <- Heq in H.
  destruct Hin as [<- | [<- | [<- | [<- | []]]]]; discriminate H.
Qed.

(** The exception of a fetch that fails on a ticker whose [info] is a
    dict carries a field name or nothing, never a ticker name. *)
Lemma weight_raises_arg tk d e :
  info tk = Ret d -> _weight tk = Raise e ->
  In (exn_arg e) (""%string :: cap_fields).
Proof.
  intros Hd He. assert (H := weight_raises_dict tk d e Hd He).
  destruct (first_absent d) as [f|] eqn:Ef.
  - subst e. right. apply (first_absent_field d). exact Ef.
  - destruct H as [-> | ->]; left; reflexivity.
Qed.

(* ================================================================== *)
(** * The cutoff ranks in binary64 and as exact products *)

Lemma ranks_agree_from_spec k : forall n m,
  ranks_agree_from k n = true -> (n <= m < n + k)%nat ->
  ranks_agree m = true.
Proof.
  induction k as [|k IH]; intros n m H Hm; [lia|].
  cbn [ranks_agree_from] in H. apply andb_true_iff in H.
  destruct H as [H0 H1].
  destruct (Nat.eq_dec m n) as [-> | Hne]; [exact H0|].
  apply (IH (S n)); [exact H1 | lia].
Qed.

(** Up to 5000 rows, the rounding of the float64 products does not move
    the cutoff ranks of the default alpha: they are those of the exact
    products. *)
Lemma ranks_f64 n :
  (n <= 5000)%nat ->
  lower_rank_f64 n = Some (lower_rank n) /\
  upper_rank_f64 n = Some (upper_rank n).
Proof.
  intros Hn.
  assert (H : ranks_agree n = true).
  { apply (ranks_agree_from_spec (S 5000) 0); [vm_compute; reflexivity | lia]. }
  unfold ranks_agree in H.
  destruct (lower_rank_f64 n) as [a|]; [|discriminate].
  destruct (upper_rank_f64 n) as [b|]; [|discriminate].
  apply andb_true_iff in H. destruct H as [Ha Hb].
  apply Nat.eqb_eq in Ha, Hb. subst. split; reflexivity.
Qed.

(** Off the default it can: with [alpha = 0.29] and 100 rows the float64
    product is just below 29 and the rank is 28, where the exact product
    gives 29. *)
Lemma rank_f64_off_default :
  f64_int (PrimFloat.mul 0x1.28f5c28f5c28fp-2%float (f64_of_nat 100))
    = Some 28%Z /\
  py_int ((29 # 100) * inject_Z 100) = 29%Z.
Proof. vm_compute. split; reflexivity. Qed.

(* ================================================================== *)
(** * The claims *)

(** C1 (the code departs from the claim). Ten stocks of equal size: every
    rounded raw weight is 0.10, none exceeds the cap of 0.15, the capping
    loop is not entered -- and [generate_index] returns no table: the column
    [adj_mc_weight] it reads is only created inside the loop, so the run ends
    in [KeyError]. *)
Theorem C1_uncapped_run_raises_KeyError :
  raw_weights_of w_equal10 = Ret (repeat (Fin (10 # 100)) 10) /\
  enters w_equal10 = Ret false /\
  forall fuel,
    generate_index (provider w_equal10) sqrt9 fuel (universe w_equal10)
    = Raise (KeyError "adj_mc_weight").
Proof.
  split; [vm_compute; reflexivity|].
  split; [vm_compute; reflexivity|].
  intros fuel. vm_compute. reflexivity.
Qed.

(** C2 (the code departs from the claim). Seven stocks, the first three
    times the size of the others. After the first round T00 alone is over
    the limit ([n_over = 1]), with adjusted market cap 3 and adjusted weight
    0.333. The second round reads [rows[-1]], which is now the column
    [adj_mc_weight]: the new adjusted market cap of T00 is (1/1) * 0.333,
    not (1/1) * 3. *)
Theorem C2_second_round_divides_the_weight :
  snapshot w_skewed7 1 =
    Ret (["T00.JK"],
         [Fin 3; Fin 1; Fin 1; Fin 1; Fin 1; Fin 1; Fin 1],
         [Fin 0.333; Fin 0.111; Fin 0.111; Fin 0.111; Fin 0.111; Fin 0.111;
          Fin 0.111]) /\
  snapshot w_skewed7 2 =
    Ret (["T01.JK"; "T02.JK"; "T03.JK"; "T04.JK"; "T05.JK"; "T06.JK"],
         [Fin 0.333; Fin 1; Fin 1; Fin 1; Fin 1; Fin 1; Fin 1],
         [Fin 0.053; Fin 0.158; Fin 0.158; Fin 0.158; Fin 0.158; Fin 0.158;
          Fin 0.158]).
Proof. split; vm_compute; reflexivity. Qed.

(** C3 (the code departs from the claim). Eighty stocks, all factors
    present, default alpha: [lb = 4] and [ub = 76]. The value of PE at
    descending rank [lb] is 76, yet the four largest values become the value
    at rank 3, which is 77: the winsorised column goes beyond the upper
    cutoff. *)
Theorem C3_upper_tail_is_clipped_at_rank_3 :
  py_int (alpha_default * qn 80) = 4%Z /\
  py_int ((1 - alpha_default) * qn 80) = 76%Z /\
  (v <- ranked w_eighty "PE" ;; Ret (nth 3 v NaN, nth 4 v NaN))
    = Ret (Fin 77, Fin 76) /\
  winsorised w_eighty "PE" =
    Ret (repeat (Fin 77) 4 ++ map (fun k => Fin (qn k)) (rev (seq 5 72))
         ++ repeat (Fin 4) 4)%list /\
  (v <- winsorised w_eighty "PE" ;; Ret (existsb (fun x => fgt x (Fin 76)) v))
    = Ret true.
Proof. repeat split; vm_compute; reflexivity. Qed.

(** C4 (the code departs from the claim). With one, two or three rows left
    after the rows with missing factors are dropped, [_winsorisation] reads
    rank 3 of a shorter column and the run ends in [IndexError]. *)
Theorem C4_small_universe_raises_IndexError :
  forall fuel,
    generate_index (provider (plain_universe 1 (fun _ => 1))) sqrt9 fuel
                   (universe (plain_universe 1 (fun _ => 1)))
    = Raise IndexError /\
    generate_index (provider (plain_universe 2 (fun _ => 1))) sqrt9 fuel
                   (universe (plain_universe 2 (fun _ => 1)))
    = Raise IndexError /\
    generate_index (provider w_three) sqrt9 fuel (universe w_three)
    = Raise IndexError.
Proof. intros fuel. repeat split; vm_compute; reflexivity. Qed.

(** C5 (the code departs from the claim). Seven stocks, the first three
    times the size of the others: the loop is entered and never left. From
    the eighth round on every round reproduces the state it started from, so
    no amount of fuel yields an index; and the largest adjusted weight went
    up, from 0.158 after round 2 to 0.678 after round 3. *)
Theorem C5_capping_loop_never_ends :
  enters w_skewed7 = Ret true /\
  (forall fuel,
     generate_index (provider w_skewed7) sqrt9 fuel (universe w_skewed7)
     = OutOfFuel) /\
  max_weight_after w_skewed7 2 = Ret 0.158 /\
  max_weight_after w_skewed7 3 = Ret 0.678.
Proof.
  split; [vm_compute; reflexivity|].
  split.
  - apply universe_diverges with (k := 8%nat); vm_compute; reflexivity.
  - split; vm_compute; reflexivity.
Qed.

(** C6, counterexample. Thirty stocks, two of size 1129 and twenty-eight of
    size 100. The two large ones are over the limit; one round halves their
    adjusted market caps and the loop ends. The index has weight 0.144 for
    each large stock and 0.025 for each small one: the weights add up to
    0.988, more than 0.01 away from 1. *)
Lemma C6_weights_sum_to_988_thousandths :
  weights_of (generate_index (provider w_thirty) sqrt9 1 (universe w_thirty))
    = Ret (repeat (Fin 0.144) 2 ++ repeat (Fin 0.025) 28)%list /\
  sum_of (weights_of (generate_index (provider w_thirty) sqrt9 1
                                     (universe w_thirty))) == 0.988 /\
  ~ Qabs (0.988 - 1) <= 0.01.
Proof.
  split; [vm_compute; reflexivity|].
  split; [vm_compute; reflexivity|].
  vm_compute. intros H. apply H. reflexivity.
Qed.

(** C6, as amended. Take a selected set whose market-cap data the provider
    supplies as finite, non-negative numbers, and a limit that is not
    negative. Whenever the capping loop is entered and ends, there is one
    emitted weight per selected stock; each is finite, not negative and not
    over the limit; and their sum is within 0.0005 per stock of 1 -- so
    within 0.015 for the thirty stocks selected at most, not within 0.01. *)
Theorem C6_weights_within_cap_and_rounding_slack
  (fuel : nat) (limit : Q) (self self' : IDXVAL30) (df0 : DataFrame)
  (obj : Tickers) :
  selected_stocks self = Some df0 ->
  wf_df df0 -> fresh_for_weights df0 ->
  idx80_obj self = Some obj ->
  (forall t x, In t (tickers_of df0) -> fetch_mc obj t = Ret x -> nonneg x) ->
  0 <= limit ->
  over_cap limit self = Ret true ->
  _get_each_weight fuel limit self = Ret self' ->
  exists ws q,
    selected_col "adj_mc_weight" self' = Ret ws /\
    List.length ws = nrows df0 /\
    Forall (fun w => nonneg w /\ qval w <= limit) ws /\
    series_sum ws = Fin q /\
    Qabs (q - 1) <= rounding_slack (nrows df0) /\
    ((nrows df0 <= 30)%nat -> Qabs (q - 1) <= 15 # 1000).
Proof.
  intros Hd Hwf Hfresh Ho Hpos Hl Hover H.
  unfold over_cap in Hover. bind_inv Hover. bind_inv Hover.
  injection Hover as Hex.
  destruct (raw_weights_frame self df0 obj a Hd Hwf
              (Hfresh "mc"%string (or_introl eq_refl)) Ho Hpos E)
    as [dfm [mcs [Hwfm [Hcm [Hlm [Hmc [Hnn ->]]]]]]].
  assert (Hw0 : index_of "mc_weight" (columns dfm) = None).
  { rewrite Hcm, index_of_app_other by discriminate.
    apply Hfresh. right. left. reflexivity. }
  assert (Ha0 : index_of "adj_mc" (columns dfm) = None).
  { rewrite Hcm, index_of_app_other by discriminate.
    apply Hfresh. right. right. left. reflexivity. }
  assert (Haw0 : index_of "adj_mc_weight" (columns dfm) = None).
  { rewrite Hcm, index_of_app_other by discriminate.
    apply Hfresh. right. right. right. left. reflexivity. }
  set (f := fun m => np_round (fdiv m (series_sum mcs)) 2) in *.
  set (dfr := set_col "mc_weight" (map f mcs) dfm) in *.
  pose proof (length_get_col _ _ _ Hmc) as Hlen.
  assert (Hflen : List.length (map f mcs) = nrows dfm)
    by (rewrite length_map; exact Hlen).
  destruct (set_col_frame "mc_weight" (map f mcs) dfm Hwfm Hflen)
    as [Hwfr [Hnr [Hsr Hor]]]. fold dfr in Hwfr, Hnr, Hsr, Hor.
  rewrite Hsr in E0. injection E0 as <-.
  unfold _get_each_weight in H. rewrite E in H. cbn [bind] in H.
  rewrite Hsr in H. cbn [bind] in H. rewrite Hex in H.
  rewrite Hor in H by discriminate. rewrite Hmc in H. cbn [bind] in H.
  bind_inv H. destruct a as [over non_over]. cbn [fst snd] in H.
  pose proof (entry_inv limit dfm mcs over non_over Hwfm Hw0 Ha0 Haw0 Hmc
                Hnn Hl Hex E0) as Hinv.
  fold f in Hinv. fold dfr in Hinv.
  destruct (capping_loop_inv fuel limit over non_over
              (with_selected (set_col "adj_mc" mcs dfr) self) self'
              (set_col "adj_mc" mcs dfr) eq_refl Hinv Hl H)
    as [ws [Hws [Hlenw [Hall [q [Hq Hb]]]]]].
  assert (Hn : nrows (set_col "adj_mc" mcs dfr) = nrows df0).
  { rewrite nrows_set_col by (rewrite Hnr; exact Hlen).
    rewrite Hnr. unfold nrows.
    rewrite <- (length_map label), Hlm. apply length_map. }
  rewrite Hn in Hlenw, Hb.
  exists ws, q. repeat split; try assumption.
  intros H30. eapply Qle_trans; [exact Hb | apply rounding_slack_30; exact H30].
Qed.

(** C6 at work: the eight stocks of [w_gaps] that have both factors, two
    of them twice the size of the others. The loop ends after one round and
    every weight is 0.125. *)
Lemma C6_witness :
  selected_col "adj_mc_weight" (weighted_state w_gaps 1)
    = Ret (repeat (Fin 0.125) 8) /\
  exists ws q,
    selected_col "adj_mc_weight" (weighted_state w_gaps 1) = Ret ws /\
    List.length ws = nrows (selected_of_state w_gaps) /\
    Forall (fun w => nonneg w /\ qval w <= limit_default) ws /\
    series_sum ws = Fin q /\
    Qabs (q - 1) <= rounding_slack (nrows (selected_of_state w_gaps)) /\
    ((nrows (selected_of_state w_gaps) <= 30)%nat ->
     Qabs (q - 1) <= 15 # 1000).
Proof.
  split; [vm_compute; reflexivity|].
  apply (C6_weights_within_cap_and_rounding_slack 1 limit_default
           (selected_state w_gaps) (weighted_state w_gaps 1)
           (selected_of_state w_gaps) (answer_of w_gaps)).
  - vm_compute. reflexivity.
  - vm_compute. repeat constructor.
  - intros c Hc. vm_compute in Hc.
    destruct Hc as [<- | [<- | [<- | [<- | []]]]]; vm_compute; reflexivity.
  - vm_compute. reflexivity.
  - intros t x Hin. vm_compute in Hin.
    repeat (destruct Hin as [<- | Hin];
            [vm_compute; intros Hx; injection Hx as <-; vm_compute;
             intros Hc; discriminate Hc|]).
    contradiction.
  - vm_compute. intros Hc. discriminate Hc.
  - vm_compute. reflexivity.
  - vm_compute. reflexivity.
Defined.

(** C7 (the code departs from the claim). Five scored stocks and a
    selection size of 3: the slice is [[:30]] whatever [nstocks] is, and all
    five stocks are selected. *)
Theorem C7_selection_size_is_ignored :
  selected_of w_five 3 =
    Ret ["T00.JK"; "T01.JK"; "T02.JK"; "T03.JK"; "T04.JK"].
Proof. vm_compute. reflexivity. Qed.

(** C8, counterexample. Ten stocks; the provider has no [marketCap] for
    T04. The run fails, but with the [KeyError] of the dict lookup, which
    names the field and not the ticker. *)
Lemma C8_missing_market_cap_is_a_KeyError :
  generate_index (provider w_no_cap) sqrt9 1 (universe w_no_cap)
    = Raise (KeyError "marketCap") /\
  exn_class (KeyError "marketCap") <> "MarketDataUnavailable" /\
  exn_arg (KeyError "marketCap") <> "T04.JK".
Proof.
  split; [vm_compute; reflexivity|].
  split; intros H; discriminate H.
Qed.

(** C8, as amended. If the provider cannot supply the market-cap data of
    some selected ticker [t], the run fails for every amount of fuel and no
    index, partial or not, is returned. The exception that reaches the
    caller is the one raised by the fetch of the first selected ticker
    [t'], in the order of the selection, whose fetch fails -- [t] itself or
    a ticker before it --, as it is, never an error of class
    MarketDataUnavailable. For a ticker [t'] that the provider's answer
    holds: if reading its [info] raises, the exception is the provider's
    own, unchanged; if its [info] is a dict, the exception is the
    [KeyError] naming the first of [marketCap], [floatShares],
    [sharesOutstanding] that is absent, or, when none is absent, a
    [TypeError] or a [ZeroDivisionError], and its argument is then a field
    name or empty, never a ticker name in [.JK]. *)
Theorem C8_missing_cap_data_aborts_the_run
  (yf : string -> Tickers) (sq : Q -> Q) (fuel : nat)
  (self s5 : IDXVAL30) (obj : Tickers) (df : DataFrame) (t : string) :
  stages_1_5 yf sq self = Ret s5 ->
  idx80_obj s5 = Some obj ->
  selected_stocks s5 = Some df ->
  In t (tickers_of df) ->
  cap_data_missing obj t ->
  exists pre t' post e,
    tickers_of df = (pre ++ t' :: post)%list /\
    (forall u, In u pre -> exists x, fetch_mc obj u = Ret x) /\
    ~ In t pre /\
    In t' (tickers_of df) /\
    fetch_mc obj t' = Raise e /\
    generate_index yf sq fuel self = Raise e /\
    exn_class e <> "MarketDataUnavailable"%string /\
    forall k tk,
      index_of t' (symbols obj) = Some k ->
      nth_error (tickers obj) k = Some tk ->
      (forall e0, info tk = Raise e0 -> e = e0) /\
      (forall d, info tk = Ret d ->
         match first_absent d with
         | Some f => e = KeyError f
         | None => e = TypeError \/ e = ZeroDivisionError
         end /\
         In (exn_arg e) (""%string :: cap_fields) /\
         forall c, exn_arg e <> (c ++ ".JK")%string).
Proof.
  intros H5 Ho Hd Hin Hmiss.
  apply cap_data_missing_raises in Hmiss. destruct Hmiss as [e0 He0].
  destruct (first_raise_split string f64 (fetch_mc obj) (tickers_of df)
              (fetch_mc_cases obj)
              (ex_intro _ t (ex_intro _ e0 (conj Hin He0))))
    as (pre & t' & post & e & Hsplit & Hpre & He).
  exists pre, t', post, e.
  split; [exact Hsplit|]. split; [exact Hpre|].
  split.
  { intros Ht. destruct (Hpre t Ht) as [x Hx]. congruence. }
  split.
  { rewrite Hsplit. apply in_or_app. right. left. reflexivity. }
  split; [exact He|].
  split.
  { rewrite generate_index_stages, H5. cbn [bind].
    unfold _get_each_weight.
    rewrite (raw_weights_first_raise s5 obj df pre t' post e Ho Hd Hsplit
               Hpre He).
    reflexivity. }
  split; [apply exn_class_builtin|].
  intros k tk Hk Htk.
  rewrite (fetch_mc_found obj t' k tk Hk Htk) in He.
  split.
  - intros e1 H1. rewrite (weight_raises_info tk e1 H1) in He. congruence.
  - intros d Hdict.
    split; [exact (weight_raises_dict tk d e Hdict He)|].
    assert (Harg := weight_raises_arg tk d e Hdict He).
    split; [exact Harg|].
    intros c. apply field_is_no_ticker. exact Harg.
Qed.

(** C8 at work: ten stocks, no [marketCap] for T04. *)
Lemma C8_witness :
  cap_data_missing (answer_of w_no_cap) "T04.JK" /\
  exists pre t' post e,
    tickers_of (selected_of_state w_no_cap) = (pre ++ t' :: post)%list /\
    (forall u, In u pre -> exists x, fetch_mc (answer_of w_no_cap) u = Ret x) /\
    ~ In "T04.JK"%string pre /\
    In t' (tickers_of (selected_of_state w_no_cap)) /\
    fetch_mc (answer_of w_no_cap) t' = Raise e /\
    generate_index (provider w_no_cap) sqrt9 1 (universe w_no_cap) = Raise e /\
    exn_class e <> "MarketDataUnavailable"%string /\
    forall k tk,
      index_of t' (symbols (answer_of w_no_cap)) = Some k ->
      nth_error (tickers (answer_of w_no_cap)) k = Some tk ->
      (forall e0, info tk = Raise e0 -> e = e0) /\
      (forall d, info tk = Ret d ->
         match first_absent d with
         | Some f => e = KeyError f
         | None => e = TypeError \/ e = ZeroDivisionError
         end /\
         In (exn_arg e) (""%string :: cap_fields) /\
         forall c, exn_arg e <> (c ++ ".JK")%string).
Proof.
  assert (Hmiss : cap_data_missing (answer_of w_no_cap) "T04.JK").
  { exists 4%nat, (mkTicker (inl (snd (nth 4 w_no_cap (O, []))))).
    split; [reflexivity|]. split; [reflexivity|]. right.
    exists (snd (nth 4 w_no_cap (O, []))), "marketCap"%string.
    split; [reflexivity|]. split; [left; reflexivity|]. left. reflexivity. }
  split; [exact Hmiss|].
  apply (C8_missing_cap_data_aborts_the_run (provider w_no_cap) sqrt9 1
           (universe w_no_cap) (selected_state w_no_cap)
           (answer_of w_no_cap) (selected_of_state w_no_cap) "T04.JK").
  - vm_compute. reflexivity.
  - vm_compute. reflexivity.
  - vm_compute. reflexivity.
  - vm_compute. do 4 right. left. reflexivity.
  - exact Hmiss.
Defined.

(** C9. A ticker for which the provider does not supply one of the two
    factors -- the lookup raises or the field is [None] -- is no obstacle to
    the run: [_generate_df_factors] returns a table, the tickers of the
    table are the tickers that have both factors, in the order of the file,
    the ticker in question is not among them, and it is in no index that
    [generate_index] returns. *)
Theorem C9_ticker_without_factor_is_dropped
  (yf : string -> Tickers) (sq : Q -> Q) (fuel : nat) (kode : list string)
  (s2 : IDXVAL30) (i : nat) (t factor : string) :
  NoDup kode ->
  (s <- _adjust_ticker (init kode) ;; _query_data yf s) = Ret s2 ->
  nth_error kode i = Some t ->
  In factor ["trailingPE"; "priceToBook"]%string ->
  not_supplied s2 i factor ->
  exists s3 df,
    _generate_df_factors s2 = Ret s3 /\
    selection_df s3 = Some df /\
    tickers_of df = survivors s2 /\
    ~ In (t ++ ".JK")%string (tickers_of df) /\
    forall out,
      generate_index yf sq fuel (init kode) = Ret out ->
      ~ In (t ++ ".JK")%string (tickers_of out).
Proof.
  intros Hnd H2 Hi Hf Hmiss.
  destruct (adjust_query_state yf kode s2 H2) as [Ht [Hn [Hfs Hcs]]].
  assert (Hlen : nticker s2 = List.length (ticker_idx80 s2))
    by (rewrite Ht, length_map; exact Hn).
  pose proof (generate_df_factors_rows s2 _ _ Hfs Hcs Hlen) as H3.
  cbv zeta in H3.
  set (df := reset_index (dropna (mkDF ["PE"; "PBV"]%string (filled_rows s2))))
    in H3.
  assert (Htk : tickers_of df = survivors s2)
    by (apply (tickers_of_factor_table s2 _ _ Hfs)).
  assert (Hout : ~ In (t ++ ".JK")%string (tickers_of df)).
  { rewrite Htk. intros Hin.
    assert (Hnd' : NoDup (ticker_idx80 s2)).
    { rewrite Ht. apply NoDup_map_NoDup_ForallPairs; [|exact Hnd].
      intros x y _ _. apply append_suffix_inj. }
    assert (Hi' : nth_error (ticker_idx80 s2) i = Some (t ++ ".JK")%string)
      by (rewrite Ht, nth_error_map, Hi; reflexivity).
    pose proof (survivors_have_factors s2 i _ Hnd' Hi' Hin) as Hh.
    unfold has_factors in Hh. rewrite forallb_forall in Hh.
    rewrite Hfs in Hh. specialize (Hh factor Hf).
    rewrite (not_supplied_nan s2 i factor Hmiss) in Hh. discriminate. }
  exists (with_nticker (nrows df) (with_selection df s2)), df.
  repeat split; try assumption.
  intros out Hgen Hin. apply Hout.
  assert (H13 : stages_1_3 yf (init kode)
                = Ret (with_nticker (nrows df) (with_selection df s2))).
  { unfold stages_1_3.
    destruct (_adjust_ticker (init kode)) as [s1| |]; cbn [bind] in *;
      try discriminate.
    rewrite H2. cbn [bind]. exact H3. }
  apply (generate_index_tickers yf sq fuel _ _ _ H13 Hgen) in Hin.
  exact Hin.
Qed.

(** C9 at work: ten stocks, no [priceToBook] for T02. The run returns an
    index of the eight stocks with both factors, and T02.JK is not in it. *)
Lemma C9_witness :
  not_supplied (queried w_gaps) 2 "priceToBook" /\
  exists s3 df,
    _generate_df_factors (queried w_gaps) = Ret s3 /\
    selection_df s3 = Some df /\
    tickers_of df = survivors (queried w_gaps) /\
    ~ In "T02.JK"%string (tickers_of df) /\
    forall out,
      generate_index (provider w_gaps) sqrt9 1 (universe w_gaps) = Ret out ->
      ~ In "T02.JK"%string (tickers_of out).
Proof.
  assert (Hmiss : not_supplied (queried w_gaps) 2 "priceToBook")
    by (left; exists (KeyError "priceToBook"); reflexivity).
  split; [exact Hmiss|].
  apply (C9_ticker_without_factor_is_dropped (provider w_gaps) sqrt9 1
           (map (fun kd => tname (fst kd)) w_gaps)
           (queried w_gaps) 2 "T02"%string "priceToBook"%string).
  - repeat (constructor; [simpl; intuition discriminate|]). constructor.
  - reflexivity.
  - reflexivity.
  - simpl. right. left. reflexivity.
  - exact Hmiss.
Defined.

Example gaps_index_tickers :
  (df <- generate_index (provider w_gaps) sqrt9 1 (universe w_gaps) ;;
   Ret (tickers_of df))
  = Ret ["T00.JK"; "T01.JK"; "T03.JK"; "T05.JK"; "T06.JK"; "T07.JK";
         "T08.JK"; "T09.JK"]%string.
Proof. vm_compute. reflexivity. Qed.

(** C10. When the standard deviation of a winsorised column comes out as
    zero, [_agg_zscore] still returns: nothing guards the division. Every
    z-score of that column is then (x - mean) / 0, which is [nan] or an
    infinity, and so is every composite score that [_select_stocks] sorts
    by. *)
Theorem C10_zero_deviation_gives_non_finite_scores
  (yf : string -> Tickers) (sq : Q -> Q) (kode : list string)
  (s s1 : IDXVAL30) (c : string) (w : list f64) :
  stages_1_3 yf (init kode) = Ret s ->
  _winsorisation alpha_default s = Ret s1 ->
  In c ["PE"; "PBV"]%string ->
  selection_col (c ++ "_wins") s1 = Ret w ->
  is_zero (series_std sq w) ->
  exists s2 zs ag,
    _agg_zscore sq s = Ret s2 /\
    selection_col (c ++ "_zscore") s2 = Ret zs /\
    zs = map (fun x => fdiv (fsub x (series_mean w)) (series_std sq w)) w /\
    Forall non_finite zs /\
    selection_col "agg_score" s2 = Ret ag /\
    List.length ag = List.length zs /\
    Forall non_finite ag.
Proof.
  intros H3 Hw Hc Hcol Hstd.
  destruct (stages_1_3_state yf kode s H3) as [df [Hd [Hcols [Hwf [Hn Hcn]]]]].
  destruct (winsorisation_result _ _ _ _ Hcn Hd Hw) as [ser1 [ser2 ->]].
  set (dfw := set_col_aligned "PBV_wins" ser2
                (set_col_aligned "PE_wins" ser1 df)) in *.
  assert (Hwfw : wf_df dfw) by (apply wf_set_col, wf_set_col; exact Hwf).
  assert (Hnw : nrows dfw = nrows df)
    by (unfold dfw; rewrite !nrows_set_col_aligned; reflexivity).
  assert (Hcw : columns dfw = ["PE"; "PBV"; "PE_wins"; "PBV_wins"]%string).
  { unfold dfw, set_col_aligned. rewrite !columns_set_col, Hcols. reflexivity. }
  destruct (get_col_present "PE_wins" dfw 2) as [w1 Hw1];
    [rewrite Hcw; reflexivity|].
  destruct (get_col_present "PBV_wins" dfw 3) as [w2 Hw2];
    [rewrite Hcw; reflexivity|].
  pose proof (length_get_col _ _ _ Hw1) as Hl1.
  pose proof (length_get_col _ _ _ Hw2) as Hl2.
  set (z1 := map (fun x => fdiv (fsub x (series_mean w1)) (series_std sq w1)) w1).
  set (z2 := map (fun x => fdiv (fsub x (series_mean w2)) (series_std sq w2)) w2).
  assert (Hz1 : List.length z1 = nrows dfw) by (unfold z1; rewrite length_map; exact Hl1).
  assert (Hz2 : List.length z2 = nrows dfw) by (unfold z2; rewrite length_map; exact Hl2).
  (* the two columns of z-scores *)
  set (dfa := set_col "PE_zscore" z1 dfw).
  destruct (set_col_frame "PE_zscore" z1 dfw Hwfw Hz1)
    as [Hwfa [Hna [Hsa Hoa]]]. fold dfa in Hwfa, Hna, Hsa, Hoa.
  set (dfb := set_col "PBV_zscore" z2 dfa).
  assert (Hz2a : List.length z2 = nrows dfa) by (rewrite Hna; exact Hz2).
  destruct (set_col_frame "PBV_zscore" z2 dfa Hwfa Hz2a)
    as [Hwfb [Hnb [Hsb Hob]]]. fold dfb in Hwfb, Hnb, Hsb, Hob.
  assert (Hcb : columns dfb = ["PE"; "PBV"; "PE_wins"; "PBV_wins";
                               "PE_zscore"; "PBV_zscore"]%string).
  { unfold dfb, dfa. rewrite !columns_set_col, Hcw. reflexivity. }
  assert (Hzs : _zscore sq s = Ret (with_selection dfb s)).
  { unfold _zscore. rewrite Hw. cbn [bind with_selection col_name].
    rewrite Hcn. cbn [foldM].
    rewrite (zscore_factor_run sq (with_selection dfw s) dfw "PE" w1
               eq_refl Hw1).
    cbn [bind]. change ("PE" ++ "_zscore")%string with "PE_zscore"%string.
    fold z1. fold dfa.
    rewrite (zscore_factor_run sq (with_selection dfa (with_selection dfw s))
               dfa "PBV" w2 eq_refl);
      [reflexivity|].
    rewrite Hoa by discriminate. exact Hw2. }
  (* the composite score *)
  set (n := nticker s).
  set (df0 := set_col "agg_score" (repeat (Fin 0) n) dfb).
  assert (Hr0 : List.length (repeat (Fin 0) n) = nrows dfb).
  { rewrite repeat_length. unfold n. rewrite Hn, Hnb, Hna, Hnw. reflexivity. }
  destruct (set_col_frame "agg_score" _ dfb Hwfb Hr0)
    as [Hwf0 [Hn0 [Hs0 Ho0]]]. fold df0 in Hwf0, Hn0, Hs0, Ho0.
  set (a1 := map (fun az => fadd (fst az) (snd az))
                 (combine (repeat (Fin 0) n) z1)).
  set (df1 := set_col "agg_score" a1 df0).
  assert (Ha1 : List.length a1 = nrows df0).
  { unfold a1. rewrite length_map, length_combine, Hr0, Hz1, Hn0, Hnb, Hna.
    apply Nat.min_id. }
  destruct (set_col_frame "agg_score" a1 df0 Hwf0 Ha1)
    as [Hwf1 [Hn1 [Hs1 Ho1]]]. fold df1 in Hwf1, Hn1, Hs1, Ho1.
  set (a2 := map (fun az => fadd (fst az) (snd az)) (combine a1 z2)).
  set (df2 := set_col "agg_score" a2 df1).
  assert (Ha2 : List.length a2 = nrows df1).
  { unfold a2. rewrite length_map, length_combine, Ha1, Hz2, Hn1, Hn0, Hnb, Hna.
    apply Nat.min_id. }
  destruct (set_col_frame "agg_score" a2 df1 Hwf1 Ha2)
    as [Hwf2 [Hn2 [Hs2 Ho2]]]. fold df2 in Hwf2, Hn2, Hs2, Ho2.
  set (ag := map (fun a => fdiv a (of_nat 2)) a2).
  set (dff := set_col "agg_score" ag df2).
  assert (Hag : List.length ag = nrows df2)
    by (unfold ag; rewrite length_map, Ha2, Hn2; reflexivity).
  destruct (set_col_frame "agg_score" ag df2 Hwf2 Hag)
    as [Hwff [Hnf [Hsf Hof]]]. fold dff in Hwff, Hnf, Hsf, Hof.
  assert (Hagg : _agg_zscore sq s = Ret (with_selection dff s)).
  { unfold _agg_zscore. rewrite Hzs.
    cbn [bind with_selection selection_df attr nticker].
    rewrite Hcb.
    change (filter (contains "_zscore")
                   ["PE"; "PBV"; "PE_wins"; "PBV_wins"; "PE_zscore";
                    "PBV_zscore"]%string)
      with ["PE_zscore"; "PBV_zscore"]%string.
    fold n. replace (Nat.eqb n (nrows dfb)) with true
      by (symmetry; apply Nat.eqb_eq; rewrite <- Hr0, repeat_length;
          reflexivity).
    cbn [negb foldM]. fold df0.
    rewrite (add_score_run df0 "PE_zscore" (repeat (Fin 0) n) z1 Hs0).
    2:{ rewrite Ho0, Hob by discriminate. exact Hsa. }
    cbn [bind]. fold a1. fold df1.
    rewrite (add_score_run df1 "PBV_zscore" a1 z2 Hs1).
    2:{ rewrite Ho1, Ho0 by discriminate. exact Hsb. }
    cbn [bind]. fold a2. fold df2. rewrite Hs2. reflexivity. }
  (* the column of the claim *)
  assert (Hzc : exists zs,
             get_col (c ++ "_zscore") dff = Ret zs /\
             zs = map (fun x => fdiv (fsub x (series_mean w))
                                     (series_std sq w)) w /\
             (zs = z1 \/ zs = z2)).
  { unfold selection_col in Hcol. cbn [with_selection selection_df attr bind] in Hcol.
    destruct Hc as [<- | [<- | []]].
    - change ("PE" ++ "_wins")%string with "PE_wins"%string in Hcol.
      rewrite Hw1 in Hcol. injection Hcol as <-.
      exists z1. split; [|split; [reflexivity | left; reflexivity]].
      change ("PE" ++ "_zscore")%string with "PE_zscore"%string.
      rewrite Hof, Ho2, Ho1, Ho0, Hob by discriminate. exact Hsa.
    - change ("PBV" ++ "_wins")%string with "PBV_wins"%string in Hcol.
      rewrite Hw2 in Hcol. injection Hcol as <-.
      exists z2. split; [|split; [reflexivity | right; reflexivity]].
      change ("PBV" ++ "_zscore")%string with "PBV_zscore"%string.
      rewrite Hof, Ho2, Ho1, Ho0 by discriminate. exact Hsb. }
  destruct Hzc as [zs [Hzs1 [Hzs2 Hzs3]]].
  assert (Hnf1 : Forall non_finite zs).
  { rewrite Hzs2. apply Forall_forall. intros z Hz.
    apply in_map_iff in Hz. destruct Hz as [x [<- _]].
    apply fdiv_by_zero. exact Hstd. }
  exists (with_selection dff s), zs, ag.
  split; [exact Hagg|].
  split; [exact Hzs1|].
  split; [exact Hzs2|].
  split; [exact Hnf1|].
  split; [exact Hsf|].
  split.
  - rewrite Hag, Hn2, Hn1, Hn0, Hnb, Hna.
    destruct Hzs3 as [-> | ->]; [rewrite Hz1 | rewrite Hz2]; reflexivity.
  - unfold ag. apply Forall_forall. intros a Ha.
    apply in_map_iff in Ha. destruct Ha as [x [<- Hx]].
    apply fdiv_count_non_finite.
    assert (Hall : Forall non_finite a2); [|rewrite Forall_forall in Hall; auto].
    destruct Hzs3 as [-> | ->].
    + unfold a2. apply Forall_map_combine_l with (P := non_finite).
      * intros u v Hu. simpl. apply fadd_non_finite_l. exact Hu.
      * unfold a1. apply Forall_map_combine_r with (P := non_finite).
        -- intros u v Hv. simpl. apply fadd_non_finite_r. exact Hv.
        -- exact Hnf1.
    + unfold a2. apply Forall_map_combine_r with (P := non_finite).
      * intros u v Hv. simpl. apply fadd_non_finite_r. exact Hv.
      * exact Hnf1.
Qed.

(** C10 at work: five stocks with the same price-to-book ratio. The
    winsorised column is constant, its standard deviation is zero, and every
    z-score and every composite score is [nan]. *)
Lemma C10_witness :
  selection_col "PBV_wins" (winsorised_state w_flat_pbv)
    = Ret (repeat (Fin 2) 5) /\
  is_zero (series_std sqrt9 (repeat (Fin 2) 5)) /\
  exists s2 zs ag,
    _agg_zscore sqrt9 (factor_state w_flat_pbv) = Ret s2 /\
    selection_col "PBV_zscore" s2 = Ret zs /\
    zs = map (fun x => fdiv (fsub x (series_mean (repeat (Fin 2) 5)))
                            (series_std sqrt9 (repeat (Fin 2) 5)))
             (repeat (Fin 2) 5) /\
    Forall non_finite zs /\
    selection_col "agg_score" s2 = Ret ag /\
    List.length ag = List.length zs /\
    Forall non_finite ag.
Proof.
  assert (Hcol : selection_col "PBV_wins" (winsorised_state w_flat_pbv)
                 = Ret (repeat (Fin 2) 5)) by (vm_compute; reflexivity).
  assert (Hstd : is_zero (series_std sqrt9 (repeat (Fin 2) 5)))
    by (vm_compute; reflexivity).
  split; [exact Hcol|]. split; [exact Hstd|].
  apply (C10_zero_deviation_gives_non_finite_scores
           (provider w_flat_pbv) sqrt9
           (map (fun kd => tname (fst kd)) w_flat_pbv)
           (factor_state w_flat_pbv) (winsorised_state w_flat_pbv)
           "PBV"%string (repeat (Fin 2) 5)).
  - vm_compute. reflexivity.
  - vm_compute. reflexivity.
  - right. left. reflexivity.
  - exact Hcol.
  - exact Hstd.
Defined.

Example flat_pbv_scores :
  (s <- _agg_zscore sqrt9 (factor_state w_flat_pbv) ;;
   z <- selection_col "PBV_zscore" s ;;
   a <- selection_col "agg_score" s ;;
   Ret (z, a))
  = Ret (repeat NaN 5, repeat NaN 5).
Proof. vm_compute. reflexivity. Qed.

(* ================================================================== *)
(** * Further properties, method by method *)

(** X1. [_adjust_ticker] on a fresh object returns for every list of codes:
    each code gets the suffix [.JK], the order and the count stay, and codes
    that were distinct stay distinct. The method is not idempotent: a second
    call on the same object appends the suffix a second time. *)
Theorem X1_adjust_ticker_appends_the_suffix (kode : list string) :
  exists s1,
    _adjust_ticker (init kode) = Ret s1 /\
    ticker_idx80 s1 = map (fun t => (t ++ ".JK")%string) kode /\
    nticker s1 = List.length kode /\
    (NoDup kode -> NoDup (ticker_idx80 s1)) /\
    exists s2,
      _adjust_ticker s1 = Ret s2 /\
      ticker_idx80 s2 = map (fun t => ((t ++ ".JK") ++ ".JK")%string) kode.
Proof.
  exists (with_tickers (jk kode) (init kode)).
  split; [apply adjust_ticker_run; reflexivity|].
  split; [reflexivity|]. split; [reflexivity|].
  split; [apply NoDup_jk|].
  exists (with_tickers (jk (jk kode)) (with_tickers (jk kode) (init kode))).
  split.
  - apply adjust_ticker_run. simpl. unfold jk. rewrite length_map. reflexivity.
  - simpl. unfold jk. rewrite map_map. reflexivity.
Qed.

(** X2. [_query_data] joins the ticker names with single blanks. When no
    name holds a blank and there is at least one name, a provider that cuts
    the query at the blanks gets back exactly the names, in the order of the
    file: the query loses nothing. *)
Theorem X2_query_holds_every_ticker
  (table : list (string * dict)) (self : IDXVAL30) :
  ticker_idx80 self <> [] ->
  Forall (fun t => no_space t = true) (ticker_idx80 self) ->
  exists obj,
    _query_data (table_provider table) self = Ret (with_obj obj self) /\
    symbols obj = ticker_idx80 self /\
    List.length (tickers obj) = List.length (ticker_idx80 self).
Proof.
  intros Hne Hall.
  exists (table_provider table (String.concat " " (ticker_idx80 self))).
  split; [reflexivity|].
  assert (Hs : split_spaces "" (String.concat " " (ticker_idx80 self))
               = ticker_idx80 self).
  { destruct (ticker_idx80 self) as [|t l]; [congruence|].
    inversion Hall; subst. apply split_spaces_join; assumption. }
  unfold table_provider. cbn [symbols tickers].
  rewrite length_map, Hs. split; reflexivity.
Qed.

Lemma X2_witness :
  exists obj,
    _query_data (provider w_five) (queried w_five)
      = Ret (with_obj obj (queried w_five)) /\
    symbols obj = ticker_idx80 (queried w_five) /\
    List.length (tickers obj) = List.length (ticker_idx80 (queried w_five)).
Proof.
  apply (X2_query_holds_every_ticker _ (queried w_five)).
  - vm_compute. discriminate.
  - vm_compute. repeat constructor.
Defined.

(** X3. The first three stages return for every provider and every list of
    codes, the empty one included: whatever goes wrong while a factor is
    read is swallowed. The table they leave has the columns PE and PBV, the
    row labels 0, 1, ... without a gap, no [nan] in any cell, and at most
    one row per code, each for a ticker of the file; [nticker] becomes the
    number of its rows, while [ticker_idx80] keeps every ticker. *)
Theorem X3_factor_table_is_always_built
  (yf : string -> Tickers) (kode : list string) :
  exists s3 df,
    stages_1_3 yf (init kode) = Ret s3 /\
    selection_df s3 = Some df /\
    columns df = ["PE"; "PBV"]%string /\
    wf_df df /\
    map label (rows df) = seq 0 (nrows df) /\
    Forall (fun r => complete r = true) (rows df) /\
    (nrows df <= List.length kode)%nat /\
    incl (tickers_of df) (map (fun t => (t ++ ".JK")%string) kode) /\
    nticker s3 = nrows df /\
    ticker_idx80 s3 = map (fun t => (t ++ ".JK")%string) kode.
Proof.
  destruct (factor_table_shape yf kode) as [Hc [Hwf [Hl [Hn [Hi Hna]]]]].
  eexists. exists (factor_table yf kode).
  split; [apply stages_1_3_run|].
  repeat split; assumption.
Qed.

(** X4. A ticker for which the provider supplies both factors as numbers
    that are not [nan] is never dropped: the factor table has a row for it
    that holds exactly the two numbers supplied. *)
Theorem X4_ticker_with_both_factors_is_kept
  (yf : string -> Tickers) (kode : list string) (i : nat) (t : string)
  (x y : f64) :
  nth_error kode i = Some t ->
  fetch_factor (after_query yf kode) i "trailingPE" = Ret (PyNum x) ->
  fetch_factor (after_query yf kode) i "priceToBook" = Ret (PyNum y) ->
  is_nan x = false -> is_nan y = false ->
  exists s3 df r,
    stages_1_3 yf (init kode) = Ret s3 /\
    selection_df s3 = Some df /\
    In r (rows df) /\
    ticker r = (t ++ ".JK")%string /\
    vals r = [x; y].
Proof.
  intros Hi Hx Hy Hnx Hny.
  assert (Hin : In ((t ++ ".JK")%string, [x; y])
                   (map content (rows (factor_table yf kode)))).
  { apply (factor_table_keeps yf kode i t x y Hi); try assumption.
    - unfold factor_cell. rewrite Hx. reflexivity.
    - unfold factor_cell. rewrite Hy. reflexivity. }
  apply in_map_iff in Hin. destruct Hin as [r [Hc Hr]].
  injection Hc as Ht Hv.
  eexists. exists (factor_table yf kode), r.
  split; [apply stages_1_3_run|].
  split; [reflexivity|]. split; [exact Hr|]. split; assumption.
Qed.

(** X4 at work: T00 of the ten stocks of [w_gaps], with PE 10 and PBV 1. *)
Lemma X4_witness :
  exists s3 df r,
    stages_1_3 (provider w_gaps) (universe w_gaps) = Ret s3 /\
    selection_df s3 = Some df /\
    In r (rows df) /\
    ticker r = "T00.JK" /\
    vals r = [Fin (qn 10); Fin (qn 1)].
Proof.
  apply (X4_ticker_with_both_factors_is_kept (provider w_gaps)
           (map (fun kd => tname (fst kd)) w_gaps) 0 "T00"
           (Fin (qn 10)) (Fin (qn 1))); reflexivity.
Defined.

(** X5. [_generate_df_factors] called before [_query_data] does not fail:
    the missing attribute [idx80_obj] is one more exception for the bare
    [except], every cell becomes [nan], every row is dropped, and the
    method returns an empty table with [nticker] zero. *)
Theorem X5_no_query_gives_an_empty_table (kode : list string) :
  exists s1 s3 df,
    _adjust_ticker (init kode) = Ret s1 /\
    idx80_obj s1 = None /\
    _generate_df_factors s1 = Ret s3 /\
    selection_df s3 = Some df /\
    rows df = [] /\
    nticker s3 = 0%nat.
Proof.
  set (s1 := with_tickers (jk kode) (init kode)).
  assert (Hrows : rows (reset_index (dropna (mkDF ["PE"; "PBV"]%string
                                                  (filled_rows s1)))) = []).
  { unfold reset_index, dropna. cbn [rows].
    rewrite filter_none; [reflexivity|].
    intros r Hr. unfold filled_rows in Hr. apply in_map_iff in Hr.
    destruct Hr as [kt [<- _]]. reflexivity. }
  eexists s1, _, _.
  split; [apply adjust_ticker_run; reflexivity|].
  split; [reflexivity|].
  split.
  { apply (generate_df_factors_rows s1 "trailingPE" "priceToBook");
      try reflexivity.
    simpl. unfold jk. rewrite length_map. reflexivity. }
  cbv zeta. split; [reflexivity|].
  split; [exact Hrows|].
  cbn [nticker with_nticker]. unfold nrows. rewrite Hrows. reflexivity.
Qed.

(** X6. On a factor table of four rows or more in which no two values of
    a factor are equal, [_winsorisation] with the default alpha of 0.05,
    as [_zscore] calls it, returns. The values of the factor ranked from
    the largest down are then in strictly descending order, so that the
    ranking is the same for every sorting algorithm; the cutoff ranks are
    [lb = int(0.05 * n)] and [ub = int(0.95 * n)], and up to 5000 rows they
    are the ranks the float64 products give. The winsorised value of
    the row at rank [k] is the value at rank 3 when [k < lb], the value at
    rank [ub] when [k >= ub], and the value of the row itself in between.
    The factor column itself and the tickers are left as they were. *)
Theorem X6_winsorised_column_by_rank
  (yf : string -> Tickers) (kode : list string) (factor : string) :
  (4 <= nrows (factor_table yf kode))%nat ->
  In factor ["PE"; "PBV"] ->
  no_ties (map snd (factor_series yf kode factor)) = true ->
  let n := nrows (factor_table yf kode) in
  let lb := lower_rank n in
  let ub := upper_rank n in
  let ranked := sort_desc (factor_series yf kode factor) in
  exists s3 s4 col,
    stages_1_3 yf (init kode) = Ret s3 /\
    _winsorisation alpha_default s3 = Ret s4 /\
    selection_col (factor ++ "_wins") s4 = Ret col /\
    List.length col = n /\
    Permutation ranked (factor_series yf kode factor) /\
    Sorted (fun a b => above a b = true) ranked /\
    (lb <= ub < n)%nat /\
    ((n <= 5000)%nat ->
     lower_rank_f64 n = Some lb /\ upper_rank_f64 n = Some ub) /\
    (forall k i x,
       (k < n)%nat -> nth k ranked (O, NaN) = (i, x) ->
       nth i col NaN
       = if Nat.ltb k lb then snd (nth 3 ranked (O, NaN))
         else if Nat.ltb k ub then x
         else snd (nth ub ranked (O, NaN))) /\
    selection_col factor s4 = selection_col factor s3 /\
    selection_tickers s4 = selection_tickers s3.
Proof.
  intros H4 Hf Hties n lb ub ranked.
  destruct (stages_1_3_table yf kode) as [s3 [H3 [Hd [Hc [Hn _]]]]].
  destruct (factor_table_shape yf kode) as [Hcols [Hwf [Hl _]]].
  set (df := factor_table yf kode) in *.
  assert (G1 : get_series "PE" df
               = Ret (factor_series yf kode "PE")).
  { unfold factor_series. fold df.
    rewrite (get_series_rows "PE" df 0) by (rewrite Hcols; reflexivity).
    reflexivity. }
  assert (G2 : get_series "PBV" df
               = Ret (factor_series yf kode "PBV")).
  { unfold factor_series. fold df.
    rewrite (get_series_rows "PBV" df 1) by (rewrite Hcols; reflexivity).
    reflexivity. }
  assert (Hstrict : Permutation ranked (factor_series yf kode factor) /\
                    Sorted (fun a b => above a b = true) ranked).
  { apply sort_desc_strict; [|exact Hties].
    assert (Hlab : map fst (factor_series yf kode factor)
                   = map label (rows df)).
    { destruct Hf as [<- | [<- | []]];
        [exact (labels_get_series _ _ _ G1)
        |exact (labels_get_series _ _ _ G2)]. }
    rewrite Hlab, Hl. apply seq_NoDup. }
  destruct Hstrict as [Hperm Hsorted].
  destruct (winsorisation_run s3 df _ _ Hd Hc Hwf Hn H4 G1 G2)
    as [wins1 [wins2 [Hw [W1 [W2 Hr]]]]].
  set (df1 := set_col_aligned "PE_wins" wins1 df) in *.
  set (df2 := set_col_aligned "PBV_wins" wins2 df1) in *.
  assert (Hn1 : nrows df1 = nrows df) by apply nrows_set_col_aligned.
  assert (Hwf1 : wf_df df1) by (apply wf_set_col; exact Hwf).
  assert (Hl1 : map label (rows df1) = seq 0 (nrows df1)).
  { unfold df1, set_col_aligned.
    rewrite labels_set_col by apply length_aligned.
    rewrite nrows_set_col by apply length_aligned. exact Hl. }
  assert (C1 : get_col "PE_wins" df2
               = Ret (map (fun r => series_find (label r) wins1) (rows df))).
  { unfold df2, set_col_aligned at 1.
    rewrite get_col_set_col_other;
      [| discriminate | exact Hwf1 | apply length_aligned].
    apply get_col_set_col_same; [exact Hwf | apply length_aligned]. }
  assert (C2 : get_col "PBV_wins" df2
               = Ret (map (fun r => series_find (label r) wins2) (rows df1))).
  { apply get_col_set_col_same; [exact Hwf1 | apply length_aligned]. }
  assert (Ho : forall c, c <> "PE_wins" -> c <> "PBV_wins" ->
                         get_col c df2 = get_col c df).
  { intros c N1 N2. unfold df2, set_col_aligned at 1.
    rewrite get_col_set_col_other;
      [| exact N2 | exact Hwf1 | apply length_aligned].
    apply get_col_set_col_other;
      [exact N1 | exact Hwf | apply length_aligned]. }
  assert (Ht : tickers_of df2 = tickers_of df).
  { unfold df2, set_col_aligned at 1.
    rewrite tickers_set_col by apply length_aligned.
    apply tickers_set_col, length_aligned. }
  exists s3, (with_selection df2 s3).
  destruct Hf as [<- | [<- | []]].
  - eexists. split; [exact H3|]. split; [exact Hw|].
    unfold selection_col. cbn [with_selection selection_df attr bind].
    rewrite Hd. cbn [attr bind].
    change ("PE" ++ "_wins") with "PE_wins".
    split; [exact C1|]. split; [apply length_aligned|].
    split; [exact Hperm|]. split; [exact Hsorted|].
    split; [exact Hr|].
    split; [intros Hsmall; apply ranks_f64; exact Hsmall|]. split.
    + intros k i x Hk Hnth.
      apply (winsorised_as_aligned lb ub (factor_series yf kode "PE") wins1
               df k i x Hl (labels_get_series _ _ _ G1) W1 Hk Hnth).
    + split; [apply Ho; discriminate|].
      unfold selection_tickers. cbn [with_selection selection_df].
      rewrite Hd. exact Ht.
  - eexists. split; [exact H3|]. split; [exact Hw|].
    unfold selection_col. cbn [with_selection selection_df attr bind].
    rewrite Hd. cbn [attr bind].
    change ("PBV" ++ "_wins") with "PBV_wins".
    split; [exact C2|]. split; [rewrite length_aligned; exact Hn1|].
    split; [exact Hperm|]. split; [exact Hsorted|].
    split; [exact Hr|].
    split; [intros Hsmall; apply ranks_f64; exact Hsmall|]. split.
    + intros k i x Hk Hnth.
      assert (Hs : map fst (factor_series yf kode "PBV")
                   = map label (rows df1)).
      { rewrite (labels_get_series _ _ _ G2), Hl1, Hn1. exact Hl. }
      fold n in Hn1. rewrite <- Hn1 in Hk.
      replace lb with (lower_rank (nrows df1))
        by (rewrite Hn1; reflexivity).
      replace ub with (upper_rank (nrows df1))
        by (rewrite Hn1; reflexivity).
      apply (winsorised_as_aligned _ _ (factor_series yf kode "PBV") wins2
               df1 k i x Hl1 Hs); [|exact Hk | exact Hnth].
      rewrite Hn1. exact W2.
    + split; [apply Ho; discriminate|].
      unfold selection_tickers. cbn [with_selection selection_df].
      rewrite Hd. exact Ht.
Qed.

(** X6 at work: the eighty stocks of [w_eighty], whose PE values are all
    different, and the factor PE. *)
Lemma X6_witness :
  let yf := provider w_eighty in
  let kode := map (fun kd => tname (fst kd)) w_eighty in
  let n := nrows (factor_table yf kode) in
  let lb := lower_rank n in
  let ub := upper_rank n in
  let ranked := sort_desc (factor_series yf kode "PE") in
  (n = 80 /\ lb = 4 /\ ub = 76)%nat /\
  exists s3 s4 col,
    stages_1_3 yf (init kode) = Ret s3 /\
    _winsorisation alpha_default s3 = Ret s4 /\
    selection_col ("PE" ++ "_wins") s4 = Ret col /\
    List.length col = n /\
    Permutation ranked (factor_series yf kode "PE") /\
    Sorted (fun a b => above a b = true) ranked /\
    (lb <= ub < n)%nat /\
    ((n <= 5000)%nat ->
     lower_rank_f64 n = Some lb /\ upper_rank_f64 n = Some ub) /\
    (forall k i x,
       (k < n)%nat -> nth k ranked (O, NaN) = (i, x) ->
       nth i col NaN
       = if Nat.ltb k lb then snd (nth 3 ranked (O, NaN))
         else if Nat.ltb k ub then x
         else snd (nth ub ranked (O, NaN))) /\
    selection_col "PE" s4 = selection_col "PE" s3 /\
    selection_tickers s4 = selection_tickers s3.
Proof.
  split; [vm_compute; repeat split|].
  apply (X6_winsorised_column_by_rank (provider w_eighty)
           (map (fun kd => tname (fst kd)) w_eighty) "PE").
  - apply Nat.leb_le. vm_compute. reflexivity.
  - left. reflexivity.
  - vm_compute. reflexivity.
Defined.

(** X7. With [alpha = 0] the upper cutoff rank is the number of rows, one
    past the last rank, and [win_factor.iloc[ub]] is out of bounds:
    [_winsorisation(0)] raises [IndexError] on every factor table, however
    many rows it has. *)
Theorem X7_alpha_zero_raises_IndexError
  (yf : string -> Tickers) (kode : list string) :
  exists s3,
    stages_1_3 yf (init kode) = Ret s3 /\
    _winsorisation 0 s3 = Raise IndexError.
Proof.
  destruct (stages_1_3_table yf kode) as [s3 [H3 [Hd [Hc [Hn _]]]]].
  destruct (factor_table_shape yf kode) as [Hcols _].
  exists s3. split; [exact H3|].
  set (df := factor_table yf kode) in *.
  destruct (Nat.ltb (nrows df) 4) eqn:E4.
  - apply Nat.ltb_lt in E4.
    apply (winsorisation_needs_four_rows 0 s3 df "PE" ["PBV"] Hd Hc);
      [rewrite Hcols; discriminate | exact E4].
  - apply Nat.ltb_ge in E4.
    unfold _winsorisation. rewrite Hc, Hn. cbn [foldM].
    assert (L : py_int (0 * inject_Z (Z.of_nat (nrows df))) = 0%Z)
      by reflexivity.
    assert (U : py_int ((1 - 0) * inject_Z (Z.of_nat (nrows df)))
                = Z.of_nat (nrows df)).
    { unfold py_int. cbn [Qnum Qden Qmult Qminus Qplus Qopp inject_Z].
      change (1 * 1 + - 0 * 1)%Z with 1%Z. rewrite Z.mul_1_l.
      apply Z.quot_1_r. }
    rewrite L, U.
    unfold winsorise_factor. rewrite Hd. cbn [attr bind].
    rewrite (get_series_rows "PE" df 0) by (rewrite Hcols; reflexivity).
    cbn [bind].
    set (ranked := sort_desc _).
    assert (Hlen : List.length ranked = nrows df).
    { unfold ranked. rewrite length_sort_desc, length_map. reflexivity. }
    unfold iloc_get at 1. rewrite Hlen.
    change 3%Z with (Z.of_nat 3). rewrite iloc_pos_nat by lia.
    cbn [bind].
    replace (iloc_set (py_range 0 0) (snd (nth 3 ranked (0%nat, NaN))) ranked)
      with (Ret ranked : outcome Series) by reflexivity.
    cbn [bind].
    unfold iloc_get. rewrite Hlen. unfold iloc_pos.
    rewrite Z.ltb_irrefl, andb_false_r.
    replace (Z.of_nat (nrows df) <? 0)%Z with false
      by (symmetry; apply Z.ltb_ge; lia).
    rewrite andb_false_r. reflexivity.
Qed.

(** X8. The composite score is monotone in the two winsorised factors.
    Whenever both winsorised columns are finite and have a positive
    standard deviation, a stock whose winsorised PE and winsorised PBV are
    both not above those of another stock has a composite score that is not
    above the other's: the cheaper stock on both counts is never ranked
    behind. *)
Theorem X8_cheaper_on_both_factors_scores_lower
  (yf : string -> Tickers) (sq : Q -> Q) (kode : list string)
  (s3 s4 : IDXVAL30) (w1 w2 ag : list f64) (i j : nat) :
  stages_1_3 yf (init kode) = Ret s3 ->
  _agg_zscore sq s3 = Ret s4 ->
  selection_col "PE_wins" s4 = Ret w1 ->
  selection_col "PBV_wins" s4 = Ret w2 ->
  selection_col "agg_score" s4 = Ret ag ->
  Forall (fun x => is_finite x = true) w1 ->
  Forall (fun x => is_finite x = true) w2 ->
  positive (series_std sq w1) -> positive (series_std sq w2) ->
  (i < List.length ag)%nat -> (j < List.length ag)%nat ->
  qval (nth i w1 NaN) <= qval (nth j w1 NaN) ->
  qval (nth i w2 NaN) <= qval (nth j w2 NaN) ->
  exists a b,
    nth i ag NaN = Fin a /\ nth j ag NaN = Fin b /\ a <= b.
Proof.
  intros H3 H4 Hw1 Hw2 Hag F1 F2 P1 P2 Hi Hj L1 L2.
  assert (Hrows : (4 <= nrows (factor_table yf kode))%nat).
  { destruct (Nat.ltb (nrows (factor_table yf kode)) 4) eqn:E;
      [|apply Nat.ltb_ge in E; exact E].
    exfalso. apply Nat.ltb_lt in E.
    destruct (stages_1_3_table yf kode) as (s3' & H3' & Hd & Hc & _).
    rewrite H3 in H3'. injection H3' as <-.
    destruct (factor_table_shape yf kode) as (Hcols & _).
    unfold _agg_zscore, _zscore in H4.
    rewrite (winsorisation_needs_four_rows alpha_default s3
               (factor_table yf kode) "PE" ["PBV"] Hd Hc) in H4;
      [discriminate | rewrite Hcols; discriminate | exact E]. }
  destruct (scored_table yf sq kode Hrows)
    as (s3' & dff & v1 & v2 & H3' & _ & _ & Ha & _ & _ & _ & _ & G1 & G2
        & _ & _ & Ag).
  rewrite H3 in H3'. injection H3' as <-.
  rewrite H4 in Ha. injection Ha as ->.
  unfold selection_col in Hw1, Hw2, Hag.
  cbn [with_selection selection_df attr bind] in Hw1, Hw2, Hag.
  rewrite G1 in Hw1. injection Hw1 as ->.
  rewrite G2 in Hw2. injection Hw2 as ->.
  rewrite Ag in Hag. injection Hag as <-.
  assert (Hlen : List.length w1 = List.length w2).
  { rewrite (length_get_col _ _ _ G1), (length_get_col _ _ _ G2).
    reflexivity. }
  assert (Hla : List.length (composite (zscores sq w1) (zscores sq w2))
                = List.length w1).
  { unfold composite. rewrite length_map, length_combine, !length_zscores.
    lia. }
  rewrite Hla in Hi, Hj.
  apply (composite_monotone sq w1 w2 i j); assumption.
Qed.

(** X8 at work: T00 and T01 of the five stocks of [w_five]; T00 has the
    lower PE and the lower PBV. *)
Lemma X8_witness :
  exists a b,
    nth 0 (col_of "agg_score" (scored_of w_five)) NaN = Fin a /\
    nth 1 (col_of "agg_score" (scored_of w_five)) NaN = Fin b /\
    a <= b.
Proof.
  apply (X8_cheaper_on_both_factors_scores_lower (provider w_five) sqrt9
           (map (fun kd => tname (fst kd)) w_five)
           (factor_state w_five) (scored_state w_five)
           (col_of "PE_wins" (scored_of w_five))
           (col_of "PBV_wins" (scored_of w_five))
           (col_of "agg_score" (scored_of w_five)) 0 1).
  - vm_compute. reflexivity.
  - vm_compute. reflexivity.
  - vm_compute. reflexivity.
  - vm_compute. reflexivity.
  - vm_compute. reflexivity.
  - vm_compute. repeat constructor.
  - vm_compute. repeat constructor.
  - vm_compute. reflexivity.
  - vm_compute. reflexivity.
  - vm_compute. lia.
  - vm_compute. lia.
  - vm_compute. intros H. discriminate H.
  - vm_compute. intros H. discriminate H.
Defined.

(** X9. On a factor table of four rows or more the scorer returns, for
    every provider and every square root. It adds five columns to the
    table and no row: the two winsorised columns, their z-scores
    [(x - mean) / std], and the composite score, which is, row by row, zero
    plus the PE z-score plus the PBV z-score, divided by two. *)
Theorem X9_composite_score_averages_the_z_scores
  (yf : string -> Tickers) (sq : Q -> Q) (kode : list string) :
  (4 <= nrows (factor_table yf kode))%nat ->
  exists s3 s4 df w1 w2,
    stages_1_3 yf (init kode) = Ret s3 /\
    _agg_zscore sq s3 = Ret s4 /\
    selection_df s4 = Some df /\
    columns df = scored_columns /\
    tickers_of df = selection_tickers s3 /\
    get_col "PE_wins" df = Ret w1 /\
    get_col "PBV_wins" df = Ret w2 /\
    get_col "PE_zscore" df = Ret (zscores sq w1) /\
    get_col "PBV_zscore" df = Ret (zscores sq w2) /\
    get_col "agg_score" df = Ret (composite (zscores sq w1) (zscores sq w2)).
Proof.
  intros H4.
  destruct (scored_table yf sq kode H4)
    as (s3 & dff & w1 & w2 & H3 & Hd & Ho & Ha & Hwf & Hc & Hn & Ht & G1 & G2
        & Z1 & Z2 & Ag).
  exists s3, (with_selection dff s3), dff, w1, w2.
  split; [exact H3|]. split; [exact Ha|]. split; [reflexivity|].
  split; [exact Hc|].
  split; [unfold selection_tickers; rewrite Hd; exact Ht|].
  repeat split; assumption.
Qed.

(** X9 at work: the five stocks of [w_five]. *)
Lemma X9_witness :
  exists s3 s4 df w1 w2,
    stages_1_3 (provider w_five) (universe w_five) = Ret s3 /\
    _agg_zscore sqrt9 s3 = Ret s4 /\
    selection_df s4 = Some df /\
    columns df = scored_columns /\
    tickers_of df = selection_tickers s3 /\
    get_col "PE_wins" df = Ret w1 /\
    get_col "PBV_wins" df = Ret w2 /\
    get_col "PE_zscore" df = Ret (zscores sqrt9 w1) /\
    get_col "PBV_zscore" df = Ret (zscores sqrt9 w2) /\
    get_col "agg_score" df
    = Ret (composite (zscores sqrt9 w1) (zscores sqrt9 w2)).
Proof.
  apply (X9_composite_score_averages_the_z_scores (provider w_five) sqrt9
           (map (fun kd => tname (fst kd)) w_five)).
  apply Nat.leb_le. vm_compute. reflexivity.
Defined.

(** X10. Whenever four tickers or more have both factors, the first five
    stages -- up to and including [_select_stocks] -- return, for every
    provider. The selected set has min(30, N) rows for the N rows of the
    factor table, labelled 0, 1, ... anew, with the seven columns of the
    scored table, and each of its tickers is a ticker of the file. *)
Theorem X10_selection_returns_from_four_rows_on
  (yf : string -> Tickers) (sq : Q -> Q) (kode : list string) :
  (4 <= nrows (factor_table yf kode))%nat ->
  exists s5 df,
    stages_1_5 yf sq (init kode) = Ret s5 /\
    selected_stocks s5 = Some df /\
    nrows df = Nat.min 30 (nrows (factor_table yf kode)) /\
    columns df = scored_columns /\
    map label (rows df) = seq 0 (nrows df) /\
    incl (tickers_of df) (map (fun t => (t ++ ".JK")%string) kode).
Proof.
  intros H4.
  destruct (selected_table yf sq kode H4)
    as (s5 & df & H5 & Hd & _ & _ & Hc & Hl & Hn & Hi).
  destruct (factor_table_shape yf kode) as (_ & _ & _ & _ & Hjk & _).
  exists s5, df. repeat split; try assumption.
  intros t Ht. apply Hjk, Hi, Ht.
Qed.

(** X10 at work: the eighty stocks of [w_eighty], thirty of which are
    selected. *)
Lemma X10_witness :
  Nat.min 30 (nrows (factor_table (provider w_eighty)
                       (map (fun kd => tname (fst kd)) w_eighty))) = 30%nat /\
  exists s5 df,
    stages_1_5 (provider w_eighty) sqrt9 (universe w_eighty) = Ret s5 /\
    selected_stocks s5 = Some df /\
    nrows df = Nat.min 30 (nrows (factor_table (provider w_eighty)
                            (map (fun kd => tname (fst kd)) w_eighty))) /\
    columns df = scored_columns /\
    map label (rows df) = seq 0 (nrows df) /\
    incl (tickers_of df)
         (map (fun t => (t ++ ".JK")%string)
              (map (fun kd => tname (fst kd)) w_eighty)).
Proof.
  split; [vm_compute; reflexivity|].
  apply (X10_selection_returns_from_four_rows_on (provider w_eighty) sqrt9
           (map (fun kd => tname (fst kd)) w_eighty)).
  apply Nat.leb_le. vm_compute. reflexivity.
Defined.

(** X11. [_select_stocks] keeps the rows of lowest composite score. Sort
    the rows of the scored table by score, ascending and [nan] last: the
    selected set holds the first thirty rows of that order, in that order,
    with their values, and no row that is left out has a score below that of
    a selected row. *)
Theorem X11_selected_rows_have_the_lowest_scores
  (nstocks : nat) (s : IDXVAL30) (df : DataFrame) (k : nat) :
  selection_df s = Some df ->
  index_of "agg_score" (columns df) = Some k ->
  wf_df df ->
  exists s' top sorted,
    _select_stocks nstocks s = Ret s' /\
    selected_stocks s' = Some top /\
    Permutation sorted (rows df) /\
    Sorted (fun r1 r2 => fle_sort (score_at k r1) (score_at k r2) = true)
           sorted /\
    map content (rows top) = map content (firstn 30 sorted) /\
    (forall r r', In r (firstn 30 sorted) -> In r' (skipn 30 sorted) ->
                  fle_sort (score_at k r) (score_at k r') = true).
Proof.
  intros Hd Hk Hwf.
  destruct (select_stocks_frame nstocks s df k Hd Hk Hwf)
    as (sorted & top & Hrun & Hperm & Hsorted & Hcont & _).
  exists (with_selected top s), top, sorted.
  split; [exact Hrun|]. split; [reflexivity|]. split; [exact Hperm|].
  split; [exact Hsorted|]. split; [exact Hcont|].
  apply (Sorted_app_le Row
           (fun r1 r2 => fle_sort (score_at k r1) (score_at k r2) = true)).
  - intros x y z. apply fle_sort_trans.
  - rewrite firstn_skipn. exact Hsorted.
Qed.

(** X11 at work: the eighty stocks of [w_eighty], and a selection size of 3
    that changes nothing. *)
Lemma X11_witness :
  exists s' top sorted,
    _select_stocks 3 (scored_state w_eighty) = Ret s' /\
    selected_stocks s' = Some top /\
    Permutation sorted (rows (scored_of w_eighty)) /\
    Sorted (fun r1 r2 => fle_sort (score_at 6 r1) (score_at 6 r2) = true)
           sorted /\
    map content (rows top) = map content (firstn 30 sorted) /\
    (forall r r', In r (firstn 30 sorted) -> In r' (skipn 30 sorted) ->
                  fle_sort (score_at 6 r) (score_at 6 r') = true).
Proof.
  apply (X11_selected_rows_have_the_lowest_scores 3 (scored_state w_eighty)
           (scored_of w_eighty) 6).
  - vm_compute. reflexivity.
  - vm_compute. reflexivity.
  - vm_compute. repeat constructor.
Defined.

(** X12. [_weight] on a ticker whose three market-cap fields are finite
    numbers: with zero shares outstanding the division is Python's and
    raises [ZeroDivisionError]; otherwise the result is the market cap times
    the ratio of float shares to shares outstanding, and it is finite and
    not negative when the market cap and the float shares are not negative
    and the shares outstanding are positive. *)
Theorem X12_weight_is_the_free_float_market_cap
  (t : Ticker) (d : dict) (mc fs so : Q) :
  info t = Ret d ->
  dict_get "marketCap" d = Ret (PyNum (Fin mc)) ->
  dict_get "floatShares" d = Ret (PyNum (Fin fs)) ->
  dict_get "sharesOutstanding" d = Ret (PyNum (Fin so)) ->
  (so == 0 -> _weight t = Raise ZeroDivisionError) /\
  (~ so == 0 -> _weight t = Ret (Fin (mc * (fs / so)))) /\
  (0 <= mc -> 0 <= fs -> 0 < so ->
   exists x, _weight t = Ret x /\ nonneg x).
Proof.
  intros Hi Hm Hf Hs.
  assert (Hz : so == 0 -> _weight t = Raise ZeroDivisionError).
  { intros H. unfold _weight. rewrite Hi. cbn [bind].
    rewrite Hm, Hf, Hs. cbn [bind as_num py_div].
    apply Qeq_bool_iff in H. rewrite H. reflexivity. }
  assert (Hn : ~ so == 0 -> _weight t = Ret (Fin (mc * (fs / so)))).
  { intros H. unfold _weight. rewrite Hi. cbn [bind].
    rewrite Hm, Hf, Hs. cbn [bind as_num py_div fdiv].
    destruct (Qeq_bool so 0) eqn:E.
    - apply Qeq_bool_iff in E. contradiction.
    - reflexivity. }
  split; [exact Hz|]. split; [exact Hn|].
  intros H1 H2 H3. exists (Fin (mc * (fs / so))). split.
  - apply Hn. intros H. rewrite H in H3. apply (Qlt_irrefl 0). exact H3.
  - simpl. apply Qmult_le_0_compat; [exact H1|].
    unfold Qdiv. apply Qmult_le_0_compat; [exact H2|].
    apply Qlt_le_weak, Qinv_lt_0_compat. exact H3.
Qed.

(** X12 at work: a ticker with market cap 6, float shares 1 and shares
    outstanding 2. *)
Lemma X12_witness :
  let t := mkTicker (inl (stock 10 1 6 1 2)) in
  (2 == 0 -> _weight t = Raise ZeroDivisionError) /\
  (~ 2 == 0 -> _weight t = Ret (Fin (6 * (1 / 2)))) /\
  (0 <= 6 -> 0 <= 1 -> 0 < 2 -> exists x, _weight t = Ret x /\ nonneg x).
Proof.
  apply (X12_weight_is_the_free_float_market_cap
           (mkTicker (inl (stock 10 1 6 1 2))) (stock 10 1 6 1 2) 6 1 2);
    reflexivity.
Defined.

(** X13. Whenever the first five stages return and no rounded raw weight
    is over the limit of 0.15, [generate_index] returns no index: the loop
    that would create the column [adj_mc_weight] is skipped, and reading
    the column raises [KeyError]. This holds for every provider and every
    list of codes. *)
Theorem X13_no_weight_over_the_limit_no_index
  (yf : string -> Tickers) (sq : Q -> Q) (fuel : nat) (kode : list string)
  (s5 : IDXVAL30) :
  stages_1_5 yf sq (init kode) = Ret s5 ->
  over_cap limit_default s5 = Ret false ->
  generate_index yf sq fuel (init kode) = Raise (KeyError "adj_mc_weight").
Proof.
  intros H5 Hover.
  destruct (stages_1_5_returns yf sq kode s5 H5)
    as (_ & df5 & Hd & _ & _ & Hc & _).
  destruct (uncapped_run_has_no_adjusted_weight fuel limit_default s5 df5 Hd)
    as (dfr & Hrun & Hproj); [rewrite Hc; reflexivity | exact Hover |].
  rewrite generate_index_stages, H5. cbn [bind]. rewrite Hrun.
  cbn [bind attr selected_stocks with_selected]. rewrite Hproj. reflexivity.
Qed.

(** X13 at work: ten stocks of equal size. *)
Lemma X13_witness :
  generate_index (provider w_equal10) sqrt9 0 (universe w_equal10)
  = Raise (KeyError "adj_mc_weight").
Proof.
  apply (X13_no_weight_over_the_limit_no_index (provider w_equal10) sqrt9 0
           (map (fun kd => tname (fst kd)) w_equal10)
           (selected_state w_equal10)).
  - vm_compute. reflexivity.
  - vm_compute. reflexivity.
Defined.

(** X14. What every index that [generate_index] returns looks like, for a
    provider whose market-cap data are finite and not negative. It has the
    one column [weight] and min(30, N) rows for the N rows of the factor
    table, seven at least; every ticker is a ticker of the file; every
    weight is finite, not negative and not over 0.15; and the weights add
    up to 1 within 0.015. *)
Theorem X14_every_index_returned_is_capped
  (yf : string -> Tickers) (sq : Q -> Q) (fuel : nat) (kode : list string)
  (out : DataFrame) :
  (forall t x,
     In t (map (fun t => (t ++ ".JK")%string) kode) ->
     fetch_mc (yf (String.concat " "
                     (map (fun t => (t ++ ".JK")%string) kode))) t = Ret x ->
     nonneg x) ->
  generate_index yf sq fuel (init kode) = Ret out ->
  exists ws q,
    columns out = ["weight"] /\
    get_col "weight" out = Ret ws /\
    List.length ws = nrows out /\
    nrows out = Nat.min 30 (nrows (factor_table yf kode)) /\
    (7 <= nrows out)%nat /\
    incl (tickers_of out) (map (fun t => (t ++ ".JK")%string) kode) /\
    Forall (fun w => nonneg w /\ qval w <= limit_default) ws /\
    series_sum ws = Fin q /\
    Qabs (q - 1) <= 15 # 1000.
Proof.
  intros Hpos Hgen.
  pose proof Hgen as Hrun. rewrite generate_index_stages in Hrun.
  bind_inv Hrun. rename a into s5, E into H5.
  bind_inv Hrun. rename a into s6, E into H6.
  bind_inv Hrun. rename a into df6, E into Hd6.
  bind_inv Hrun. rename a into dfi, E into Hproj.
  injection Hrun as <-.
  destruct (stages_1_5_returns yf sq kode s5 H5)
    as (H4 & df5 & Hd & Ho & Hwf & Hc & Hl & Hn & Hi).
  destruct (factor_table_shape yf kode) as (_ & _ & _ & _ & Hjk & _).
  assert (Hover : over_cap limit_default s5 = Ret true).
  { destruct (over_cap limit_default s5) as [[|]| |] eqn:Eo.
    - reflexivity.
    - exfalso.
      destruct (uncapped_run_has_no_adjusted_weight fuel limit_default s5 df5
                  Hd) as (dfr & Hr & Hp);
        [rewrite Hc; reflexivity | exact Eo |].
      rewrite Hr in H6. injection H6 as <-.
      cbn [selected_stocks with_selected attr] in Hd6.
      injection Hd6 as <-. rewrite Hp in Hproj. discriminate.
    - exfalso. unfold over_cap in Eo. unfold _get_each_weight in H6.
      destruct (raw_weights s5) as [dfr| |]; cbn [bind] in *;
        try discriminate.
      destruct (get_col "mc_weight" dfr) as [w| |]; cbn [bind] in *;
        discriminate.
    - exfalso. unfold over_cap in Eo. unfold _get_each_weight in H6.
      destruct (raw_weights s5) as [dfr| |]; cbn [bind] in *;
        try discriminate.
      destruct (get_col "mc_weight" dfr) as [w| |]; cbn [bind] in *;
        discriminate. }
  destruct (weighting_postcondition fuel limit_default s5 s6 df5 _ Hd Hwf
              (fresh_scored_columns df5 Hc) Ho)
    as (ws & Hws & Hcap); [| discriminate | exact Hover | exact H6 |].
  { intros t x Ht. apply Hpos. apply Hjk, Hi, Ht. }
  unfold selected_col in Hws. rewrite Hd6 in Hws. cbn [bind] in Hws.
  pose proof (capped_weights_count _ _ Hcap) as H7.
  destruct Hcap as [Hlen [Hall [q [Hq Hb]]]].
  assert (Hrows : nrows (mkDF ["weight"] (rows dfi)) = nrows df5).
  { rewrite <- Hlen, (length_get_col _ _ _ Hws).
    unfold project in Hproj.
    destruct (index_of "adj_mc_weight" (columns df6)); [|discriminate].
    injection Hproj as <-. unfold nrows. cbn [rows]. apply length_map. }
  exists ws, q.
  split; [reflexivity|].
  split; [rewrite (get_col_project _ _ _ Hproj); exact Hws|].
  split; [rewrite Hrows; exact Hlen|].
  split; [rewrite Hrows; exact Hn|].
  split; [rewrite Hrows; exact H7|].
  split.
  { destruct (stages_1_3_table yf kode) as (s3 & H3 & Hd3 & _).
    intros t Ht. apply Hjk.
    pose proof (generate_index_tickers yf sq fuel _ s3 _ H3 Hgen t Ht) as Hin.
    unfold selection_tickers in Hin. rewrite Hd3 in Hin. exact Hin. }
  split; [exact Hall|]. split; [exact Hq|].
  eapply Qle_trans; [exact Hb|]. apply rounding_slack_30.
  rewrite Hn. apply Nat.le_min_l.
Qed.

(** X14 at work: the ten stocks of [w_gaps], eight of which have both
    factors. *)
Lemma X14_witness :
  get_col "weight" (index_within w_gaps 1) = Ret (repeat (Fin 0.125) 8) /\
  exists ws q,
    columns (index_within w_gaps 1) = ["weight"] /\
    get_col "weight" (index_within w_gaps 1) = Ret ws /\
    List.length ws = nrows (index_within w_gaps 1) /\
    nrows (index_within w_gaps 1)
    = Nat.min 30 (nrows (factor_table (provider w_gaps)
                           (map (fun kd => tname (fst kd)) w_gaps))) /\
    (7 <= nrows (index_within w_gaps 1))%nat /\
    incl (tickers_of (index_within w_gaps 1))
         (map (fun t => (t ++ ".JK")%string)
              (map (fun kd => tname (fst kd)) w_gaps)) /\
    Forall (fun w => nonneg w /\ qval w <= limit_default) ws /\
    series_sum ws = Fin q /\
    Qabs (q - 1) <= 15 # 1000.
Proof.
  split; [vm_compute; reflexivity|].
  apply (X14_every_index_returned_is_capped (provider w_gaps) sqrt9 1
           (map (fun kd => tname (fst kd)) w_gaps) (index_within w_gaps 1)).
  - intros t x Hin. vm_compute in Hin.
    repeat (destruct Hin as [<- | Hin];
            [vm_compute; intros Hx; injection Hx as <-; vm_compute;
             intros Hc; discriminate Hc|]).
    contradiction.
  - vm_compute. reflexivity.
Defined.

(** X15. [_limit_cap] computes [adjust_rate] and, from the stocks that are
    not over weight, [mc_s] -- and overwrites [mc_s] before it is read. So
    neither the frame of the other stocks nor the limit has any effect on
    what the method returns, as long as that frame has a column [adj_mc] and
    [n_over * limit] is not 1, the one case in which the division for
    [adjust_rate] raises. With the default limit of 0.15 this case never
    arises. *)
Theorem X15_limit_cap_ignores_the_limit_and_the_other_stocks
  (over non1 non2 : DataFrame) (l1 l2 : Q) (s : IDXVAL30) (u1 u2 : list f64) :
  get_col "adj_mc" non1 = Ret u1 ->
  get_col "adj_mc" non2 = Ret u2 ->
  ~ inject_Z (Z.of_nat (nrows over)) * l1 == 1 ->
  ~ inject_Z (Z.of_nat (nrows over)) * l2 == 1 ->
  _limit_cap over non1 l1 s = _limit_cap over non2 l2 s /\
  forall n : nat, ~ inject_Z (Z.of_nat n) * limit_default == 1.
Proof.
  intros H1 H2 R1 R2. split; [|apply default_limit_rate].
  destruct (adjust_rate_run _ _ R1) as [x1 E1].
  destruct (adjust_rate_run _ _ R2) as [x2 E2].
  unfold _limit_cap. cbv zeta. rewrite E1, E2. cbn [bind].
  rewrite H1, H2. reflexivity.
Qed.

(** X15 at work: the first round for [w_skewed7], with the frame of the
    other stocks replaced by the whole frame and the limit by 1/2. *)
Lemma X15_witness :
  _limit_cap (round_over w_skewed7 0) (round_under w_skewed7 0) limit_default
             (round_state w_skewed7 0)
  = _limit_cap (round_over w_skewed7 0) (round_frame w_skewed7 0) (1 # 2)
               (round_state w_skewed7 0) /\
  forall n : nat, ~ inject_Z (Z.of_nat n) * limit_default == 1.
Proof.
  apply (X15_limit_cap_ignores_the_limit_and_the_other_stocks
           (round_over w_skewed7 0) (round_under w_skewed7 0)
           (round_frame w_skewed7 0) limit_default (1 # 2)
           (round_state w_skewed7 0)
           (col_of "adj_mc" (round_under w_skewed7 0))
           (col_of "adj_mc" (round_frame w_skewed7 0))).
  - vm_compute. reflexivity.
  - vm_compute. reflexivity.
  - vm_compute. intros H. discriminate H.
  - vm_compute. intros H. discriminate H.
Defined.

(** X16. The first round of the capping loop, in which [adj_mc] is the last
    column of the frame. Each stock whose rounded raw weight is over the
    limit gets [(1/n_over)] times its own market cap as its adjusted market
    cap, [n_over] being the number of such stocks; every other stock keeps
    its market cap; nothing is moved from one group to the other. The
    adjusted weights are the shares of the new adjusted market caps in
    their total, rounded to three decimals. *)
Theorem X16_first_round_divides_by_the_count
  (limit lw : Q) (s : IDXVAL30) (df over non : DataFrame)
  (adj wcol : list f64) :
  selected_stocks s = Some df ->
  wf_df df -> NoDup (map label (rows df)) ->
  index_of "adj_mc" (columns df) = Some (List.length (columns df) - 1)%nat ->
  get_col "adj_mc" df = Ret adj ->
  get_col "mc_weight" df = Ret wcol ->
  split_over "mc_weight" limit df = Ret (over, non) ->
  ~ inject_Z (Z.of_nat (nrows over)) * lw == 1 ->
  exists s' df',
    _limit_cap over non lw s = Ret s' /\
    selected_stocks s' = Some df' /\
    nrows over = List.length (filter (fun w => fgt w (Fin limit)) wcol) /\
    get_col "adj_mc" df' = Ret (rescaled limit adj adj wcol) /\
    get_col "adj_mc_weight" df' = Ret (shares (rescaled limit adj adj wcol) 3) /\
    tickers_of df' = tickers_of df.
Proof.
  intros Hd Hwf Hnd Hq Hadj Hw Hsplit Hrate.
  destruct (limit_cap_round "mc_weight" "adj_mc" limit lw s df over non
              adj adj wcol Hd Hwf Hnd Hq Hadj Hadj Hw Hsplit Hrate)
    as (Hn & df' & Hrun & Ha & Hs & Ht).
  exists (with_selected df' s), df'. repeat split; assumption.
Qed.

(** X16 at work: the seven stocks of [w_skewed7] when the loop is entered.
    T00 alone is over the limit, and the round leaves its market cap at
    (1/1) * 3. *)
Lemma X16_witness :
  rescaled limit_default (col_of "adj_mc" (round_frame w_skewed7 0))
           (col_of "adj_mc" (round_frame w_skewed7 0))
           (col_of "mc_weight" (round_frame w_skewed7 0))
  = [Fin (1 / 1 * 3); Fin 1; Fin 1; Fin 1; Fin 1; Fin 1; Fin 1] /\
  exists s' df',
    _limit_cap (round_over w_skewed7 0) (round_under w_skewed7 0)
               limit_default (round_state w_skewed7 0) = Ret s' /\
    selected_stocks s' = Some df' /\
    nrows (round_over w_skewed7 0)
    = List.length (filter (fun w => fgt w (Fin limit_default))
                          (col_of "mc_weight" (round_frame w_skewed7 0))) /\
    get_col "adj_mc" df'
    = Ret (rescaled limit_default
             (col_of "adj_mc" (round_frame w_skewed7 0))
             (col_of "adj_mc" (round_frame w_skewed7 0))
             (col_of "mc_weight" (round_frame w_skewed7 0))) /\
    get_col "adj_mc_weight" df'
    = Ret (shares (rescaled limit_default
                     (col_of "adj_mc" (round_frame w_skewed7 0))
                     (col_of "adj_mc" (round_frame w_skewed7 0))
                     (col_of "mc_weight" (round_frame w_skewed7 0))) 3) /\
    tickers_of df' = tickers_of (round_frame w_skewed7 0).
Proof.
  split; [vm_compute; reflexivity|].
  apply (X16_first_round_divides_by_the_count limit_default limit_default
           (round_state w_skewed7 0) (round_frame w_skewed7 0)).
  - vm_compute. reflexivity.
  - vm_compute. repeat constructor.
  - vm_compute.
    repeat (constructor; [simpl; intuition discriminate|]). constructor.
  - vm_compute. reflexivity.
  - vm_compute. reflexivity.
  - vm_compute. reflexivity.
  - vm_compute. reflexivity.
  - vm_compute. intros H. discriminate H.
Defined.

(** X17. Every later round of the capping loop, in which the last column
    of the frame is [adj_mc_weight]. What the round reads as [rows[-1]] is
    then the adjusted weight: each stock whose adjusted weight is over the
    limit gets [(1/n_over)] times that weight as its new adjusted market
    cap, and every other stock keeps its adjusted market cap. *)
Theorem X17_later_rounds_divide_the_weight
  (limit lw : Q) (s : IDXVAL30) (df over non : DataFrame)
  (adj wcol : list f64) :
  selected_stocks s = Some df ->
  wf_df df -> NoDup (map label (rows df)) ->
  index_of "adj_mc_weight" (columns df)
  = Some (List.length (columns df) - 1)%nat ->
  get_col "adj_mc" df = Ret adj ->
  get_col "adj_mc_weight" df = Ret wcol ->
  split_over "adj_mc_weight" limit df = Ret (over, non) ->
  ~ inject_Z (Z.of_nat (nrows over)) * lw == 1 ->
  exists s' df',
    _limit_cap over non lw s = Ret s' /\
    selected_stocks s' = Some df' /\
    nrows over = List.length (filter (fun w => fgt w (Fin limit)) wcol) /\
    get_col "adj_mc" df' = Ret (rescaled limit adj wcol wcol) /\
    get_col "adj_mc_weight" df'
    = Ret (shares (rescaled limit adj wcol wcol) 3) /\
    tickers_of df' = tickers_of df.
Proof.
  intros Hd Hwf Hnd Hq Hadj Hw Hsplit Hrate.
  destruct (limit_cap_round "adj_mc_weight" "adj_mc_weight" limit lw s df
              over non adj wcol wcol Hd Hwf Hnd Hq Hw Hadj Hw Hsplit Hrate)
    as (Hn & df' & Hrun & Ha & Hs & Ht).
  exists (with_selected df' s), df'. repeat split; assumption.
Qed.

(** X17 at work: [w_skewed7] after the first round. T00 is still over the
    limit, with adjusted market cap 3 and adjusted weight 0.333, and the
    second round makes (1/1) * 0.333 its adjusted market cap. *)
Lemma X17_witness :
  col_of "adj_mc" (round_frame w_skewed7 1)
  = [Fin 3; Fin 1; Fin 1; Fin 1; Fin 1; Fin 1; Fin 1] /\
  rescaled limit_default (col_of "adj_mc" (round_frame w_skewed7 1))
           (col_of "adj_mc_weight" (round_frame w_skewed7 1))
           (col_of "adj_mc_weight" (round_frame w_skewed7 1))
  = [Fin (1 / 1 * 0.333); Fin 1; Fin 1; Fin 1; Fin 1; Fin 1; Fin 1] /\
  exists s' df',
    _limit_cap (round_over w_skewed7 1) (round_under w_skewed7 1)
               limit_default (round_state w_skewed7 1) = Ret s' /\
    selected_stocks s' = Some df' /\
    nrows (round_over w_skewed7 1)
    = List.length (filter (fun w => fgt w (Fin limit_default))
                          (col_of "adj_mc_weight" (round_frame w_skewed7 1))) /\
    get_col "adj_mc" df'
    = Ret (rescaled limit_default
             (col_of "adj_mc" (round_frame w_skewed7 1))
             (col_of "adj_mc_weight" (round_frame w_skewed7 1))
             (col_of "adj_mc_weight" (round_frame w_skewed7 1))) /\
    get_col "adj_mc_weight" df'
    = Ret (shares (rescaled limit_default
                     (col_of "adj_mc" (round_frame w_skewed7 1))
                     (col_of "adj_mc_weight" (round_frame w_skewed7 1))
                     (col_of "adj_mc_weight" (round_frame w_skewed7 1))) 3) /\
    tickers_of df' = tickers_of (round_frame w_skewed7 1).
Proof.
  split; [vm_compute; reflexivity|].
  split; [vm_compute; reflexivity|].
  apply (X17_later_rounds_divide_the_weight limit_default limit_default
           (round_state w_skewed7 1) (round_frame w_skewed7 1)).
  - vm_compute. reflexivity.
  - vm_compute. repeat constructor.
  - vm_compute.
    repeat (constructor; [simpl; intuition discriminate|]). constructor.
  - vm_compute. reflexivity.
  - vm_compute. reflexivity.
  - vm_compute. reflexivity.
  - vm_compute. reflexivity.
  - vm_compute. intros H. discriminate H.
Defined.

(** X18. An object can be run once. When the factor table has fewer rows
    than the file has codes, [_generate_df_factors] leaves [nticker] below
    the length of [ticker_idx80]; running the first three stages again on
    that object, with any provider, raises [ValueError] -- a column of
    [nticker] zeros does not fit a table of all the tickers. *)
Theorem X18_a_second_run_raises_ValueError
  (yf yf' : string -> Tickers) (kode : list string) :
  (nrows (factor_table yf kode) < List.length kode)%nat ->
  exists s3,
    stages_1_3 yf (init kode) = Ret s3 /\
    (nticker s3 < List.length (ticker_idx80 s3))%nat /\
    stages_1_3 yf' s3 = Raise ValueError.
Proof.
  intros Hlt. eexists. split; [apply stages_1_3_run|].
  cbn [nticker ticker_idx80 with_nticker with_selection after_query with_obj
       with_tickers].
  assert (Hjk : List.length (jk kode) = List.length kode)
    by (unfold jk; apply length_map).
  split; [rewrite Hjk; exact Hlt|].
  unfold stages_1_3, _adjust_ticker.
  cbn [nticker ticker_idx80 with_nticker with_selection after_query with_obj
       with_tickers].
  replace (Nat.leb (nrows (factor_table yf kode)) (List.length (jk kode)))
    with true by (symmetry; apply Nat.leb_le; lia).
  cbn [bind]. unfold _query_data. cbn [bind]. unfold _generate_df_factors.
  cbn [nticker ticker_idx80 with_nticker with_selection after_query with_obj
       with_tickers].
  rewrite length_app, length_map, length_firstn, length_skipn.
  replace (Nat.eqb _ _) with false; [reflexivity|].
  symmetry. apply Nat.eqb_neq. lia.
Qed.

(** X18 at work: the ten stocks of [w_gaps], two of which lack a factor. *)
Lemma X18_witness :
  exists s3,
    stages_1_3 (provider w_gaps) (universe w_gaps) = Ret s3 /\
    (nticker s3 < List.length (ticker_idx80 s3))%nat /\
    stages_1_3 (provider w_gaps) s3 = Raise ValueError.
Proof.
  apply (X18_a_second_run_raises_ValueError (provider w_gaps) (provider w_gaps)
           (map (fun kd => tname (fst kd)) w_gaps)).
  apply Nat.ltb_lt. vm_compute. reflexivity.
Defined.

(** X19. The market-cap data are fetched ticker by ticker, in the order of
    the selected set, and the first fetch that raises ends the run: the
    exception [generate_index] raises is that of the first selected ticker
    whose fetch fails, whatever the later tickers would have given. *)
Theorem X19_the_first_failing_fetch_ends_the_run
  (yf : string -> Tickers) (sq : Q -> Q) (fuel : nat)
  (self s5 : IDXVAL30) (obj : Tickers) (df : DataFrame)
  (pre : list string) (t : string) (post : list string) (e : exn) :
  stages_1_5 yf sq self = Ret s5 ->
  idx80_obj s5 = Some obj ->
  selected_stocks s5 = Some df ->
  tickers_of df = (pre ++ t :: post)%list ->
  (forall u, In u pre -> exists x, fetch_mc obj u = Ret x) ->
  fetch_mc obj t = Raise e ->
  generate_index yf sq fuel self = Raise e.
Proof.
  intros H5 Ho Hd Ht Hpre He.
  rewrite generate_index_stages, H5. cbn [bind].
  unfold _get_each_weight.
  rewrite (raw_weights_first_raise s5 obj df pre t post e Ho Hd Ht Hpre He).
  reflexivity.
Qed.

(** X19 at work: the ten stocks of [w_no_cap]; the fetch of T04, the fifth
    of the selected set, is the first to fail. *)
Lemma X19_witness :
  generate_index (provider w_no_cap) sqrt9 1 (universe w_no_cap)
  = Raise (KeyError "marketCap").
Proof.
  apply (X19_the_first_failing_fetch_ends_the_run (provider w_no_cap) sqrt9 1
           (universe w_no_cap) (selected_state w_no_cap)
           (answer_of w_no_cap) (selected_of_state w_no_cap)
           ["T00.JK"; "T01.JK"; "T02.JK"; "T03.JK"] "T04.JK"
           ["T05.JK"; "T06.JK"; "T07.JK"; "T08.JK"; "T09.JK"]).
  - vm_compute. reflexivity.
  - vm_compute. reflexivity.
  - vm_compute. reflexivity.
  - vm_compute. reflexivity.
  - intros u Hu. simpl in Hu.
    repeat (destruct Hu as [<- | Hu];
            [eexists; vm_compute; reflexivity|]).
    contradiction.
  - vm_compute. reflexivity.
Defined.

(** X20. The capping loop has one exit, the [break] after a round that
    leaves no adjusted weight over the limit. If some round leaves the
    selected stocks and the two frames it was given exactly as they were,
    with a weight still over the limit, every later round does the same and
    [generate_index] returns for no number of rounds. *)
Theorem X20_a_round_that_changes_nothing_is_repeated_for_ever
  (yf : string -> Tickers) (sq : Q -> Q) (self s5 s0 s' : IDXVAL30)
  (o n o' n' : DataFrame) (k : nat) :
  stages_1_5 yf sq self = Ret s5 ->
  over_cap limit_default s5 = Ret true ->
  loop_entry limit_default s5 = Ret (s0, (o, n)) ->
  rounds k limit_default o n s0 = Ret (s', Some (o', n')) ->
  capping_round limit_default o' n' s' = Ret (s', Some (o', n')) ->
  forall fuel, generate_index yf sq fuel self = OutOfFuel.
Proof.
  intros H5 Hover Hentry Hk Hfix fuel.
  rewrite generate_index_stages, H5. cbn [bind].
  rewrite (get_each_weight_enters fuel _ _ _ _ _ Hover Hentry).
  rewrite (capping_loop_diverges k fuel _ _ _ _ _ _ _ Hk Hfix). reflexivity.
Qed.

(** X20 at work: the seven stocks of [w_skewed7], whose eighth round
    changes nothing. *)
Lemma X20_witness :
  generate_index (provider w_skewed7) sqrt9 1000 (universe w_skewed7)
  = OutOfFuel.
Proof.
  refine (X20_a_round_that_changes_nothing_is_repeated_for_ever
            (provider w_skewed7) sqrt9 (universe w_skewed7)
            (selected_state w_skewed7)
            (round_state w_skewed7 0) (round_state w_skewed7 8)
            (round_over w_skewed7 0) (round_under w_skewed7 0)
            (round_over w_skewed7 8) (round_under w_skewed7 8) 8
            _ _ _ _ _ 1000).
  - vm_compute. reflexivity.
  - vm_compute. reflexivity.
  - vm_compute. reflexivity.
  - vm_compute. reflexivity.
  - vm_compute. reflexivity.
Defined.

(** X21. With fewer than four tickers that have both factors -- an empty
    file included -- [generate_index] raises [IndexError], for every
    provider: [_winsorisation] reads rank 3 of a column that is too short.
    Together with X10, the first five stages return exactly when four
    tickers or more have both factors. *)
Theorem X21_fewer_than_four_rows_raise_IndexError
  (yf : string -> Tickers) (sq : Q -> Q) (kode : list string) :
  (nrows (factor_table yf kode) < 4)%nat ->
  stages_1_5 yf sq (init kode) = Raise IndexError /\
  forall fuel, generate_index yf sq fuel (init kode) = Raise IndexError.
Proof.
  intros Hn. pose proof (stages_1_5_small yf sq kode Hn) as H5.
  split; [exact H5|]. intros fuel.
  rewrite generate_index_stages, H5. reflexivity.
Qed.

(** X21 at work: an empty file. *)
Lemma X21_witness :
  stages_1_5 (provider []) sqrt9 (init []) = Raise IndexError /\
  forall fuel, generate_index (provider []) sqrt9 fuel (init [])
               = Raise IndexError.
Proof.
  apply (X21_fewer_than_four_rows_raise_IndexError (provider []) sqrt9 []).
  apply Nat.ltb_lt. vm_compute. reflexivity.
Defined.
